(** * DFPlayer rename tool: a shallow embedding of [dfplayer_rename.py]

    The development follows the source file top to bottom:

    - Python values and exceptions the program manipulates;
    - [natural_sort_key] and the list comparison Python applies to its keys;
    - the directory tree, [os.listdir], [os.rename];
    - [collect_folders], [collect_mp3s], [rename_two_phase],
      [process_sd_card] and [main], written in a small state-and-exception
      monad over the directory tree and the trace of observable effects;
    - the properties of the tool.

    Names (of files and folders) are [string]s whose characters are read as
    Unicode code points U+0000..U+00FF; [str.lower], [str.isdigit], [int] and
    the regular expression class [\d] are modelled exactly on that range. *)

From Stdlib Require Import String Ascii NArith ZArith Decimal DecimalString DecimalNat.
From Stdlib Require Import Sorting.Sorted.
From stdpp Require Import base tactics option list gmap strings sorting.


(** ** Exceptions and results *)

Inductive exn :=
  | ValueError
  | TypeError
  | FileNotFoundError
  | IsADirectoryError
  | NotADirectoryError
  | OSError_ENOTEMPTY
  | SystemExit (code : Z).

Inductive result (A : Type) :=
  | Ok (a : A)
  | Err (e : exn).
Arguments Ok {A} a.
Arguments Err {A} e.

Definition rbind {A B} (r : result A) (k : A → result B) : result B :=
  match r with
  | Ok a => k a
  | Err e => Err e
  end.

Definition rmap {A B} (f : A → B) (r : result A) : result B :=
  rbind r (λ a, Ok (f a)).

Fixpoint rmapM {A B} (f : A → result B) (l : list A) : result (list B) :=
  match l with
  | [] => Ok []
  | x :: l' => rbind (f x) (λ y, rbind (rmapM f l') (λ ys, Ok (y :: ys)))
  end.

(** ** Characters and strings as Python sees them *)

Definition code (c : ascii) : N := N_of_ascii c.

(** [\d] in a [str] pattern: the decimal digits. Below U+0100 these are
    '0'..'9'. *)
Definition is_decimal (c : ascii) : bool :=
  ((48 <=? code c) && (code c <=? 57))%N.

(** One character of [str.isdigit]: decimal digits and the characters of
    numeric type Digit; below U+0100 the latter are the superscripts
    U+00B2, U+00B3 and U+00B9. *)
Definition isdigit_char (c : ascii) : bool :=
  is_decimal c || (code c =? 178)%N || (code c =? 179)%N || (code c =? 185)%N.

(** One character of [str.lower]: A..Z and U+00C0..U+00DE (without the
    multiplication sign U+00D7) move up by 32. *)
Definition lower_char (c : ascii) : ascii :=
  let n := code c in
  if ((65 <=? n) && (n <=? 90)
      || (192 <=? n) && (n <=? 222) && negb (n =? 215))%N
  then ascii_of_N (n + 32)
  else c.

Fixpoint lower (s : string) : string :=
  match s with
  | EmptyString => EmptyString
  | String c s' => String (lower_char c) (lower s')
  end.

Fixpoint str_forall (p : ascii → bool) (s : string) : bool :=
  match s with
  | EmptyString => true
  | String c s' => p c && str_forall p s'
  end.

(** [part.isdigit()]: at least one character, and all of them digits. *)
Definition isdigit (s : string) : bool :=
  match s with
  | EmptyString => false
  | _ => str_forall isdigit_char s
  end.

Fixpoint digits_value_from (acc : N) (s : string) : N :=
  match s with
  | EmptyString => acc
  | String c s' => digits_value_from (acc * 10 + (code c - 48))%N s'
  end.

Definition digits_value (s : string) : N := digits_value_from 0 s.

(** [int(part)] on a string without sign, blanks or underscores: the value
    of a non-empty run of decimal digits, [ValueError] otherwise. The limit
    [int] puts on the number of digits (4300 by default) is left out: the
    name of a directory entry is shorter. *)
Definition py_int (s : string) : result N :=
  match s with
  | EmptyString => Err ValueError
  | _ => if str_forall is_decimal s then Ok (digits_value s) else Err ValueError
  end.

(** [s.endswith(suffix)] *)
Definition endswith (s suffix : string) : bool :=
  let n := String.length s in
  let k := String.length suffix in
  (k <=? n)%nat && String.eqb (substring (n - k) k s) suffix.

(** [str(n)] for a non-negative integer. *)
Definition str_of_nat (n : nat) : string :=
  NilEmpty.string_of_uint (Nat.to_uint n).

Fixpoint zeros (k : nat) : string :=
  match k with
  | O => EmptyString
  | S k' => String "0" (zeros k')
  end.

(** [f"{n:0{width}d}"]: zero-padded on the left to at least [width]
    characters, never truncated. *)
Definition zfill (width : nat) (n : nat) : string :=
  let s := str_of_nat n in
  zeros (width - String.length s) +:+ s.

(** ** Module constants *)

Definition MAX_FOLDERS : nat := 99.
Definition MAX_FILES_PER_FOLDER : nat := 255.
Definition TEMP_PREFIX : string := "__dftemp_".

(** ** natural_sort_key *)

(** A key is a list whose elements are Python [str] or [int] objects. *)
Inductive token :=
  | TStr (s : string)
  | TInt (n : N).

(** [re.split(r'(\d+)', s)]: the pieces of [s] between the maximal runs of
    decimal digits, with the runs themselves (the pattern has one capturing
    group) in between: text, digits, text, ..., digits, text. The first and
    the last text piece may be empty. *)
Fixpoint re_split_digits (s : string) : list string :=
  match s with
  | EmptyString => [EmptyString]
  | String c s' =>
      match re_split_digits s' with
      | [] => []
      | t :: rest =>
          if is_decimal c then
            match t, rest with
            | EmptyString, d :: rest' => EmptyString :: String c d :: rest'
            | _, _ => EmptyString :: String c EmptyString :: t :: rest
            end
          else String c t :: rest
      end
  end.

(** The body of the loop of [natural_sort_key]. *)
Definition key_part (part : string) : result token :=
  if isdigit part then rmap TInt (py_int part) else Ok (TStr part).

Definition natural_sort_key (text : string) : result (list token) :=
  rmapM key_part (re_split_digits (lower text)).

(** *** How Python compares two keys *)

(** [a == b] on key elements; a [str] never equals an [int]. *)
Definition token_eqb (a b : token) : bool :=
  match a, b with
  | TStr s, TStr t => String.eqb s t
  | TInt m, TInt n => (m =? n)%N
  | _, _ => false
  end.

(** [a < b] on key elements; [str] against [int] raises [TypeError]. *)
Definition token_lt (a b : token) : result bool :=
  match a, b with
  | TStr s, TStr t => Ok (String.ltb s t)
  | TInt m, TInt n => Ok (m <? n)%N
  | _, _ => Err TypeError
  end.

(** [k1 < k2] on lists: the first position at which the elements are not
    equal decides; if there is none the shorter list is the smaller. *)
Fixpoint key_lt (k1 k2 : list token) : result bool :=
  match k1, k2 with
  | [], [] => Ok false
  | [], _ :: _ => Ok true
  | _ :: _, [] => Ok false
  | a :: k1', b :: k2' =>
      if token_eqb a b then key_lt k1' k2' else token_lt a b
  end.

(** *** list.sort(key=natural_sort_key)

    Python first computes the key of every element, then sorts stably,
    comparing keys with [<] only. The model is a stable insertion sort. *)
Fixpoint insert_by_key (x : list token * string) (l : list (list token * string))
  : result (list (list token * string)) :=
  match l with
  | [] => Ok [x]
  | y :: l' =>
      rbind (key_lt (fst y) (fst x)) (λ b,
        if b then rmap (cons y) (insert_by_key x l')
        else Ok (x :: y :: l'))
  end.

Fixpoint sort_keyed (l : list (list token * string))
  : result (list (list token * string)) :=
  match l with
  | [] => Ok []
  | x :: l' => rbind (sort_keyed l') (insert_by_key x)
  end.

Definition sort_natural (names : list string) : result (list string) :=
  rbind (rmapM (λ x, rmap (λ k, (k, x)) (natural_sort_key x)) names) (λ keyed,
  rmap (map snd) (sort_keyed keyed)).

(** ** The directory tree

    A regular file carries an identifier of its content, so that a lost or
    overwritten file is visible; a directory maps names to nodes. *)
#[warnings="-register-all"] Inductive node :=
  | File (content : N)
  | Dir (entries : gmap string node).

Definition is_dir (n : node) : bool :=
  match n with Dir _ => true | File _ => false end.

Definition is_file (n : node) : bool :=
  match n with File _ => true | Dir _ => false end.

(** A path below the root the tool was started on, one name per level;
    see [os_path_join]. *)
Definition path := list string.

Definition os_path_join (base : path) (name : string) : path :=
  (base ++ [name])%list.

Fixpoint resolve (p : path) (n : node) : option node :=
  match p with
  | [] => Some n
  | x :: p' =>
      match n with
      | Dir d => d !! x ≫= resolve p'
      | File _ => None
      end
  end.

(** Apply a change to the directory at path [p]. *)
Fixpoint update_at (p : path) (op : gmap string node → result (gmap string node))
    (n : node) {struct p} : result node :=
  match n with
  | File _ => Err NotADirectoryError
  | Dir d =>
      match p with
      | [] => rmap Dir (op d)
      | x :: p' =>
          match d !! x with
          | None => Err FileNotFoundError
          | Some c => rmap (λ c', Dir (<[x:=c']> d)) (update_at p' op c)
          end
      end
  end.

(** [os.rename(src, dst)] for two names of one directory, as on POSIX
    systems: a missing source raises; renaming an entry to itself does
    nothing; an existing destination is silently replaced when both are
    regular files or when both are directories and the destination is empty,
    and the call raises otherwise. *)
Definition rename_entry (src dst : string) (d : gmap string node)
  : result (gmap string node) :=
  match d !! src with
  | None => Err FileNotFoundError
  | Some n =>
      if decide (src = dst) then Ok d
      else
        match d !! dst with
        | None => Ok (<[dst:=n]> (delete src d))
        | Some m =>
            match n, m with
            | File _, File _ => Ok (<[dst:=n]> (delete src d))
            | File _, Dir _ => Err IsADirectoryError
            | Dir _, File _ => Err NotADirectoryError
            | Dir _, Dir c =>
                if decide (c = ∅) then Ok (<[dst:=n]> (delete src d))
                else Err OSError_ENOTEMPTY
            end
        end
  end.

(** ** Observable effects *)

Inductive stream := Stdout | Stderr.

(** One constructor per [print] call of the program, with the values the
    format string interpolates. *)
Inductive message :=
  | MsgNotADirectory                          (* Error: '{root}' is not a valid directory. *)
  | MsgNothingToDo                            (* No subdirectories found. Nothing to do. *)
  | MsgTooManyFolders (found : nat)           (* Error: Found {len(folders)} folders but ... at most 99. *)
  | MsgNoMp3 (folder_name : string)           (* Warning: '{folder_name}/' contains no .mp3 files ... *)
  | MsgTooManyFiles (folder_name : string) (found : nat)
                                              (* Error: '{folder_name}/' contains {len(mp3s)} .mp3 files but ... *)
  | MsgFolderHeader (folder_name : string)    (* [{folder_name}/] *)
  | MsgFileRenamed (old new : string)         (* {old}  ->  {new} *)
  | MsgFileUnchanged (old : string)           (* {old}  (unchanged) *)
  | MsgFolderRenames                          (* Folder renames: *)
  | MsgFolderRenamed (old new : string)       (* {old}/  ->  {new}/ *)
  | MsgFolderUnchanged (old : string)         (* {old}/  (unchanged) *)
  | MsgDone (folders files : nat).            (* Done. Renamed {..} folder(s) and {..} file(s). *)

Inductive event :=
  | EPrint (s : stream) (m : message)
  | ERename (base : path) (src dst : string)  (* a call of os.rename *)
  | ETraceback (e : exn).                     (* the interpreter reports an uncaught exception on stderr *)

(** ** The state the program runs in *)

Record world := World {
  tree : node;          (* what is at the root path *)
  trace : list event    (* what the run did so far, oldest first *)
}.

Definition M (A : Type) : Type := world → result A * world.

Definition mret {A} (a : A) : M A := λ w, (Ok a, w).

Definition mbind {A B} (m : M A) (k : A → M B) : M B :=
  λ w, match m w with
       | (Ok a, w') => k a w'
       | (Err e, w') => (Err e, w')
       end.

Definition raise {A} (e : exn) : M A := λ w, (Err e, w).

Definition lift_result {A} (r : result A) : M A := λ w, (r, w).

Declare Scope prog_scope.
Delimit Scope prog_scope with prog.
Notation "x <- m ;; k" := (mbind m (λ x, k))
  (at level 100, m at next level, right associativity, only parsing) : prog_scope.
Notation "m ;;; k" := (mbind m (λ _, k))
  (at level 100, right associativity, only parsing) : prog_scope.
Open Scope prog_scope.

Definition emit (e : event) : M unit :=
  λ w, (Ok tt, World (tree w) (trace w ++ [e])%list).

Definition print (s : stream) (m : message) : M unit := emit (EPrint s m).

Definition sys_exit {A} (code : Z) : M A := raise (SystemExit code).

Definition os_path_isdir (p : path) : M bool :=
  λ w, (Ok (from_option is_dir false (resolve p (tree w))), w).

Definition os_path_isfile (p : path) : M bool :=
  λ w, (Ok (from_option is_file false (resolve p (tree w))), w).

Definition os_rename (base : path) (src dst : string) : M unit :=
  emit (ERename base src dst) ;;;
  λ w, match update_at base (rename_entry src dst) (tree w) with
       | Ok t => (Ok tt, World t (trace w))
       | Err e => (Err e, w)
       end.

Fixpoint mfilter {A} (p : A → M bool) (l : list A) : M (list A) :=
  match l with
  | [] => mret []
  | x :: l' =>
      b <- p x ;;
      r <- mfilter p l' ;;
      mret (if b : bool then x :: r else r)
  end.

Fixpoint mfor {A} (l : list A) (body : A → M unit) : M unit :=
  match l with
  | [] => mret tt
  | x :: l' => body x ;;; mfor l' body
  end.

Section Program.

(** [os.listdir] returns the names of a directory in arbitrary order: the
    order is a parameter of the program. *)
Variable listing : gmap string node → list string.

Definition os_listdir (p : path) : M (list string) :=
  λ w, match resolve p (tree w) with
       | Some (Dir d) => (Ok (listing d), w)
       | Some (File _) => (Err NotADirectoryError, w)
       | None => (Err FileNotFoundError, w)
       end.

Definition collect_folders (root : path) : M (list string) :=
  names <- os_listdir root ;;
  entries <- mfilter (λ name, os_path_isdir (os_path_join root name)) names ;;
  lift_result (sort_natural entries).

Definition is_mp3_name (name : string) : bool := endswith (lower name) ".mp3".

Definition collect_mp3s (folder_path : path) : M (list string) :=
  names <- os_listdir folder_path ;;
  files <- mfilter (λ name,
             b <- os_path_isfile (os_path_join folder_path name) ;;
             mret (b && is_mp3_name name)) names ;;
  lift_result (sort_natural files).

(** Phase 1 of [rename_two_phase]: [i] is the index [enumerate] has
    reached, [temp_names] and [mapping] the two lists built so far. *)
Fixpoint phase1 (make_final_name : nat → string) (base_dir : path)
    (i : nat) (items : list string)
    (temp_names : list string) (mapping : list (string * string))
  : M (list string * list (string * string)) :=
  match items with
  | [] => mret (temp_names, mapping)
  | old_name :: rest =>
      let final_name := make_final_name i in
      let temp_name := TEMP_PREFIX +:+ final_name in
      os_rename base_dir old_name temp_name ;;;
      phase1 make_final_name base_dir (S i) rest
        (temp_names ++ [temp_name])%list (mapping ++ [(old_name, final_name)])%list
  end.

(** Phase 2: the loop over [zip(temp_names, mapping)]. *)
Definition phase2 (base_dir : path) (pairs : list (string * (string * string)))
  : M unit :=
  mfor pairs (λ '(temp_name, (_, final_name)),
    os_rename base_dir temp_name final_name).

Definition rename_two_phase (items : list string) (make_final_name : nat → string)
    (base_dir : path) : M (list (string * string)) :=
  built <- phase1 make_final_name base_dir 0 items [] [] ;;
  let '(temp_names, mapping) := built in
  phase2 base_dir (zip temp_names mapping) ;;;
  mret mapping.

Definition file_final_name (i : nat) : string := zfill 3 (i + 1) +:+ ".mp3".
Definition folder_final_name (i : nat) : string := zfill 2 (i + 1).

Definition report_files (file_mapping : list (string * string)) : M unit :=
  mfor file_mapping (λ '(old, new),
    if decide (old ≠ new) then print Stdout (MsgFileRenamed old new)
    else print Stdout (MsgFileUnchanged old)).

Definition report_folders (folder_mapping : list (string * string)) : M unit :=
  mfor folder_mapping (λ '(old, new),
    if decide (old ≠ new) then print Stdout (MsgFolderRenamed old new)
    else print Stdout (MsgFolderUnchanged old)).

(** The loop over [folders] of [process_sd_card]; the result is
    [total_files_renamed]. *)
Fixpoint rename_files_in (root : path) (folders : list string)
    (total_files_renamed : nat) : M nat :=
  match folders with
  | [] => mret total_files_renamed
  | folder_name :: rest =>
      let folder_path := os_path_join root folder_name in
      mp3s <- collect_mp3s folder_path ;;
      match mp3s with
      | [] =>
          print Stdout (MsgNoMp3 folder_name) ;;;
          rename_files_in root rest total_files_renamed
      | _ =>
          if (MAX_FILES_PER_FOLDER <? length mp3s)%nat then
            print Stderr (MsgTooManyFiles folder_name (length mp3s)) ;;;
            sys_exit 1
          else
            file_mapping <- rename_two_phase mp3s file_final_name folder_path ;;
            print Stdout (MsgFolderHeader folder_name) ;;;
            report_files file_mapping ;;;
            rename_files_in root rest (total_files_renamed + length file_mapping)
      end
  end.

(** [process_sd_card(root)]; the tree of the world is what [root] names,
    so [root] itself is the empty path. *)
Definition process_sd_card : M unit :=
  let root : path := [] in
  isdir <- os_path_isdir root ;;
  if negb isdir then
    print Stderr MsgNotADirectory ;;;
    sys_exit 1
  else
    folders <- collect_folders root ;;
    match folders with
    | [] => print Stdout MsgNothingToDo
    | _ =>
        if (MAX_FOLDERS <? length folders)%nat then
          print Stderr (MsgTooManyFolders (length folders)) ;;;
          sys_exit 1
        else
          total_files_renamed <- rename_files_in root folders 0 ;;
          folder_mapping <- rename_two_phase folders folder_final_name root ;;
          print Stdout MsgFolderRenames ;;;
          report_folders folder_mapping ;;;
          print Stdout (MsgDone (length folder_mapping) total_files_renamed)
    end.

(** Running the script: the exit status of the process and the final
    world. An uncaught exception is reported on the error stream and
    gives status 1; [SystemExit] gives its code. *)
Definition main (w : world) : Z * world :=
  match process_sd_card w with
  | (Ok _, w') => (0%Z, w')
  | (Err (SystemExit c), w') => (c, w')
  | (Err e, w') => (1%Z, World (tree w') (trace w' ++ [ETraceback e])%list)
  end.

End Program.

(** ** Vocabulary of the properties *)

(** The last (first) character of a string is a decimal digit. *)
Fixpoint last_is_decimal (s : string) : bool :=
  match s with
  | EmptyString => false
  | String c EmptyString => is_decimal c
  | String _ s' => last_is_decimal s'
  end.

Definition first_is_decimal (s : string) : bool :=
  match s with
  | EmptyString => false
  | String c _ => is_decimal c
  end.

Definition no_decimal (s : string) : bool :=
  str_forall (λ c, negb (is_decimal c)) s.

(** The shape of the result of [re_split_digits]. *)
Inductive split_shape : list string → Prop :=
  | split_shape_last t :
      no_decimal t = true → split_shape [t]
  | split_shape_cons t d rest :
      no_decimal t = true →
      d ≠ EmptyString → str_forall is_decimal d = true →
      split_shape rest → split_shape (t :: d :: rest).

(** The shape of a key: text, integer, text, ..., integer, text. *)
Fixpoint key_alternates (k : list token) : bool :=
  match k with
  | [TStr _] => true
  | TStr _ :: TInt _ :: k' => key_alternates k'
  | _ => false
  end.

Definition same_kind (a b : token) : bool :=
  match a, b with
  | TStr _, TStr _ | TInt _, TInt _ => true
  | _, _ => false
  end.

(** Replace the directory at path [p] of a tree. *)
Fixpoint graft (p : path) (d' : gmap string node) (t : node) : node :=
  match p with
  | [] => Dir d'
  | x :: p' =>
      match t with
      | Dir d =>
          match d !! x with
          | Some c => Dir (<[x:=graft p' d' c]> d)
          | None => t
          end
      | File _ => t
      end
  end.

(** A sequence of [os.rename] calls in one directory, each given as
    (source, destination): the directory they lead to, when all succeed. *)
Fixpoint run_renames (steps : list (string * string)) (d : gmap string node)
  : result (gmap string node) :=
  match steps with
  | [] => Ok d
  | (src, dst) :: rest => rbind (rename_entry src dst d) (run_renames rest)
  end.

(** The same sequence with what is left behind when a call raises: the calls
    issued (the failing one is the last), the directory reached, and the
    exception if there was one. *)
Fixpoint exec_renames (steps : list (string * string)) (d : gmap string node)
  : list (string * string) * gmap string node * option exn :=
  match steps with
  | [] => ([], d, None)
  | (src, dst) :: rest =>
      match rename_entry src dst d with
      | Ok d1 =>
          let '(calls, d2, e) := exec_renames rest d1 in
          ((src, dst) :: calls, d2, e)
      | Err e => ([(src, dst)], d, Some e)
      end
  end.

(** The directory before each call of the sequence. *)
Fixpoint states_before (steps : list (string * string)) (d : gmap string node)
  : list (gmap string node) :=
  match steps with
  | [] => []
  | (src, dst) :: rest =>
      d :: match rename_entry src dst d with
           | Ok d1 => states_before rest d1
           | Err _ => []
           end
  end.

(** No destination of a call is the source of a later call. *)
Fixpoint dst_free_later (steps : list (string * string)) : Prop :=
  match steps with
  | [] => True
  | (_, dst) :: rest => (dst ∉ rest.*1) ∧ dst_free_later rest
  end.

(** The calls of [rename_two_phase] and the list it returns. *)
Definition temp_name (make_final_name : nat → string) (i : nat) : string :=
  TEMP_PREFIX +:+ (make_final_name i).

Definition phase1_steps (items : list string) (make_final_name : nat → string)
  : list (string * string) :=
  imap (λ i old_name, (old_name, temp_name make_final_name i)) items.

Definition phase2_steps (items : list string) (make_final_name : nat → string)
  : list (string * string) :=
  imap (λ i _, (temp_name make_final_name i, make_final_name i)) items.

Definition rename_steps (items : list string) (make_final_name : nat → string)
  : list (string * string) :=
  (phase1_steps items make_final_name ++ phase2_steps items make_final_name)%list.

Definition mapping_of (items : list string) (make_final_name : nat → string)
  : list (string * string) :=
  imap (λ i old_name, (old_name, make_final_name i)) items.

Definition rename_event (base : path) (step : string * string) : event :=
  ERename base step.1 step.2.

Definition has_temp_prefix (name : string) : bool :=
  String.prefix TEMP_PREFIX name.

(** The world after some [os.rename] calls in the directory at [base] have
    been issued and have led that directory to [d']. *)
Definition after_calls (base : path) (w : world)
    (calls : list (string * string)) (d' : gmap string node) : world :=
  World (graft base d' (tree w)) (trace w ++ (rename_event base <$> calls))%list.

(** The number a name starts with, less one: the position of a name of the
    form [01], [02], ... or [001.mp3], [002.mp3], ... in its sequence. *)
Definition name_rank (name : string) : nat :=
  match natural_sort_key name with
  | Ok (_ :: TInt v :: _) => pred (N.to_nat v)
  | _ => 0
  end.

(** What is asked of [os.listdir]: every name of the directory, once. *)
Definition listing_ok (listing : gmap string node → list string) : Prop :=
  ∀ d, NoDup (listing d) ∧ ∀ x, x ∈ listing d ↔ is_Some (d !! x).

(** The names [collect_folders] and [collect_mp3s] keep, before sorting. *)
Definition folder_names (listing : gmap string node → list string)
    (d : gmap string node) : list string :=
  List.filter (λ name, from_option is_dir false (d !! name)) (listing d).

Definition mp3_names (listing : gmap string node → list string)
    (c : gmap string node) : list string :=
  List.filter (λ name, from_option is_file false (c !! name) && is_mp3_name name)
    (listing c).

(** The lines [report_files] and [report_folders] print. *)
Definition file_line (p : string * string) : event :=
  EPrint Stdout (if decide (p.1 ≠ p.2) then MsgFileRenamed p.1 p.2
                 else MsgFileUnchanged p.1).

Definition folder_line (p : string * string) : event :=
  EPrint Stdout (if decide (p.1 ≠ p.2) then MsgFolderRenamed p.1 p.2
                 else MsgFolderUnchanged p.1).

(** What the loop over the folders does when it runs to its end:
    [files_renamed listing folders d d' tr n] relates the root directory
    before and after, the events and the number of files renamed. *)
Inductive files_renamed (listing : gmap string node → list string)
  : list string → gmap string node → gmap string node → list event → nat → Prop :=
  | files_renamed_nil d :
      files_renamed listing [] d d [] 0
  | files_renamed_skip x rest d c d' tr n :
      d !! x = Some (Dir c) →
      sort_natural (mp3_names listing c) = Ok [] →
      files_renamed listing rest d d' tr n →
      files_renamed listing (x :: rest) d d' (EPrint Stdout (MsgNoMp3 x) :: tr) n
  | files_renamed_step x rest d c mp3s c' d' tr n :
      d !! x = Some (Dir c) →
      sort_natural (mp3_names listing c) = Ok mp3s →
      mp3s ≠ [] →
      length mp3s ≤ MAX_FILES_PER_FOLDER →
      run_renames (rename_steps mp3s file_final_name) c = Ok c' →
      files_renamed listing rest (<[x:=Dir c']> d) d' tr n →
      files_renamed listing (x :: rest) d d'
        ((rename_event [x] <$> rename_steps mp3s file_final_name)
         ++ EPrint Stdout (MsgFolderHeader x)
         :: (file_line <$> mapping_of mp3s file_final_name) ++ tr)%list
        (length mp3s + n).

(** The events of the second half of [process_sd_card]: the folder renames,
    their report and the final line. *)
Definition folder_phase_events (folders : list string) (files : nat) : list event :=
  ((rename_event [] <$> rename_steps folders folder_final_name)
   ++ EPrint Stdout MsgFolderRenames
   :: (folder_line <$> mapping_of folders folder_final_name)
   ++ [EPrint Stdout (MsgDone (length folders) files)])%list.

(** A line that reports a changed name. *)
Definition reports_change (e : event) : bool :=
  match e with
  | EPrint _ (MsgFileRenamed _ _) | EPrint _ (MsgFolderRenamed _ _) => true
  | _ => false
  end.

Definition is_rename_in (base : path) (e : event) : bool :=
  match e with
  | ERename b _ _ => bool_decide (b = base)
  | _ => false
  end.

Definition on_stderr (e : event) : bool :=
  match e with
  | EPrint Stderr _ | ETraceback _ => true
  | _ => false
  end.

(** The immediate subdirectories of a directory, and its regular files with
    an mp3 name. *)
Definition subdirectories (d : gmap string node) : gmap string node :=
  filter (λ kv, is_dir kv.2 = true) d.

Definition mp3_files (c : gmap string node) : gmap string node :=
  filter (λ kv, is_file kv.2 = true ∧ is_mp3_name kv.1 = true) c.

(** A folder whose mp3 files are named 001.mp3 .. MMM.mp3 and in which no
    temporary name is in use; a root whose folders are named 01 .. NN, all
    of them such folders, and in which no temporary name is in use. *)
Definition canonical_folder (c : gmap string node) (m : nat) : Prop :=
  m ≤ MAX_FILES_PER_FOLDER
  ∧ (∀ y, (∃ n, c !! y = Some (File n) ∧ is_mp3_name y = true)
          ↔ ∃ j, j < m ∧ y = file_final_name j)
  ∧ (∀ j, j < m → c !! temp_name file_final_name j = None).

Definition canonical_root (d : gmap string node) : Prop :=
  ∃ n, n ≤ MAX_FOLDERS
    ∧ (∀ x, (∃ c, d !! x = Some (Dir c))
            ↔ ∃ i, i < n ∧ x = folder_final_name i)
    ∧ (∀ i, i < n → d !! temp_name folder_final_name i = None)
    ∧ (∀ x c, d !! x = Some (Dir c) → ∃ m, canonical_folder c m).

(** A folder on which the file renames of a further run do nothing. *)
Definition settled_files (listing : gmap string node → list string)
    (c : gmap string node) (m : nat) : Prop :=
  sort_natural (mp3_names listing c) = Ok (file_final_name <$> seq 0 m)
  ∧ m ≤ MAX_FILES_PER_FOLDER
  ∧ run_renames (rename_steps (file_final_name <$> seq 0 m) file_final_name) c = Ok c
  ∧ ∀ y n, c !! y = Some (File n) → is_mp3_name y = true →
           ∃ j, j < m ∧ y = file_final_name j.

(** What holds of the loop over the folders however it ends: [d] and [d']
    are the root before and after, [r] the outcome, [tr] the events. *)
Definition loop_post (listing : gmap string node → list string)
    (folders : list string) (d : gmap string node) (r : result nat)
    (tr : list event) (d' : gmap string node) : Prop :=
  (∀ y, y ∉ folders → d' !! y = d !! y)
  ∧ (∀ b s t, ERename b s t ∈ tr → ∃ y, y ∈ folders ∧ b = [y])
  ∧ (∀ code, r = Err (SystemExit code) →
       code = 1%Z ∧ ∃ tr' m, tr = (tr' ++ [EPrint Stderr m])%list)
  ∧ (∀ x c, x ∈ folders → d !! x = Some (Dir c) →
       MAX_FILES_PER_FOLDER < length (mp3_names listing c) →
       (∃ e, r = Err e) ∧ d' !! x = Some (Dir c) ∧ ∀ s t, ERename [x] s t ∉ tr).

(** ** Sample trees *)

(** The order in which the samples are listed. *)
Definition listing_sample (d : gmap string node) : list string :=
  (map_to_list d).*1.

(** The swap scenario: two files whose listed order is the reverse of their
    names. *)
Definition swap_dir : gmap string node :=
  <["001.mp3" := File 1]> (<["002.mp3" := File 2]> ∅).
Definition swap_items : list string := ["002.mp3"; "001.mp3"].

(** A file that bears the temporary name of another. *)
Definition clash_dir : gmap string node :=
  <["1.mp3" := File 1]> (<["__dftemp_001.mp3" := File 2]> ∅).
Definition clash_items : list string := ["1.mp3"; "__dftemp_001.mp3"].

(** A generator whose first name is the temporary name of its second. *)
Definition prefixed_final_name (i : nat) : string :=
  match i with
  | O => temp_name folder_final_name 1
  | _ => folder_final_name i
  end.
Definition plain_dir : gmap string node :=
  <["a" := File 1]> (<["b" := File 2]> ∅).
Definition plain_items : list string := ["a"; "b"].

(** A small card: one folder with music and a cover, one empty folder, a
    file next to them. *)
Definition album : gmap string node :=
  list_to_map [("Track 10.MP3", File 4); ("track 2.mp3", File 2);
               ("Track 1.mp3", File 1); ("cover.jpg", File 3)].
Definition sample_card : gmap string node :=
  list_to_map [("B side", Dir album); ("A side", Dir ∅); ("readme.txt", File 9)].

(** Roots and folders beyond the ceilings. *)
Definition crowded_root : gmap string node :=
  list_to_map ((λ i, (str_of_nat i, Dir ∅)) <$> seq 0 100).
Definition crowded_folder : gmap string node :=
  list_to_map ((λ i, (str_of_nat i +:+ ".mp3", File (N.of_nat i))) <$> seq 0 256).
Definition crowded_card : gmap string node :=
  list_to_map [("A", Dir album); ("B", Dir crowded_folder)].

(** ** Further vocabulary *)

(** The tokens of two keys are of the same kind at every position. *)
Definition aligned (k1 k2 : list token) : Prop :=
  ∀ i x y, k1 !! i = Some x → k2 !! i = Some y → same_kind x y = true.

#[global] Instance token_eq_dec : EqDecision token.
Proof. solve_decision. Defined.

#[global] Instance exn_eq_dec : EqDecision exn.
Proof. solve_decision. Defined.

#[global] Instance result_eq_dec {A} `{EqDecision A} : EqDecision (result A).
Proof. solve_decision. Defined.

(** [a] comes strictly before [b] in the order of the keys. *)
Definition precedes (a b : string) : Prop :=
  ∃ ka kb, natural_sort_key a = Ok ka ∧ natural_sort_key b = Ok kb
           ∧ key_lt ka kb = Ok true.

(** A name paired with its key, as the sort holds it. *)
Definition keyed (p : list token * string) : Prop :=
  natural_sort_key p.2 = Ok p.1.

(** [a] is not after [b]. *)
Definition key_le (a b : list token * string) : Prop :=
  key_lt b.1 a.1 = Ok false.

(** The characters [str.isdigit] accepts and [int] rejects. *)
Definition is_superscript (c : ascii) : bool :=
  ((code c =? 178) || (code c =? 179) || (code c =? 185))%N.

(** The loop over the folders of [process_sd_card] as a function of the
    root directory: the outcome (the number of files renamed, or the
    exception), the root directory it leaves and the events, however the
    loop ends. *)
Fixpoint loop_outcome (listing : gmap string node → list string)
    (folders : list string) (d : gmap string node)
  : result nat * gmap string node * list event :=
  match folders with
  | [] => (Ok 0, d, [])
  | x :: rest =>
      match d !! x with
      | None => (Err FileNotFoundError, d, [])
      | Some (File _) => (Err NotADirectoryError, d, [])
      | Some (Dir c) =>
          match sort_natural (mp3_names listing c) with
          | Err e => (Err e, d, [])
          | Ok [] =>
              let '(r, d', tr) := loop_outcome listing rest d in
              (r, d', EPrint Stdout (MsgNoMp3 x) :: tr)
          | Ok mp3s =>
              if (MAX_FILES_PER_FOLDER <? length mp3s)%nat then
                (Err (SystemExit 1), d,
                 [EPrint Stderr (MsgTooManyFiles x (length mp3s))])
              else
                let '(calls, c', e) :=
                  exec_renames (rename_steps mp3s file_final_name) c in
                match e with
                | Some e => (Err e, <[x:=Dir c']> d, rename_event [x] <$> calls)
                | None =>
                    let '(r, d', tr) :=
                      loop_outcome listing rest (<[x:=Dir c']> d) in
                    (rmap (λ n, length mp3s + n) r, d',
                     (rename_event [x] <$> calls)
                     ++ EPrint Stdout (MsgFolderHeader x)
                     :: (file_line <$> mapping_of mp3s file_final_name) ++ tr)%list
                end
          end
      end
  end.

(** [process_sd_card] on a root directory as a function of that directory:
    the outcome, the root directory it leaves and the events. *)
Definition process_outcome (listing : gmap string node → list string)
    (d : gmap string node) : result unit * gmap string node * list event :=
  match sort_natural (folder_names listing d) with
  | Err e => (Err e, d, [])
  | Ok [] => (Ok tt, d, [EPrint Stdout MsgNothingToDo])
  | Ok folders =>
      if (MAX_FOLDERS <? length folders)%nat then
        (Err (SystemExit 1), d,
         [EPrint Stderr (MsgTooManyFolders (length folders))])
      else
        let '(r, d1, tr1) := loop_outcome listing folders d in
        match r with
        | Err e => (Err e, d1, tr1)
        | Ok k =>
            let '(calls, d2, e) :=
              exec_renames (rename_steps folders folder_final_name) d1 in
            match e with
            | Some e => (Err e, d2, (tr1 ++ (rename_event [] <$> calls))%list)
            | None => (Ok tt, d2, (tr1 ++ folder_phase_events folders k)%list)
            end
        end
  end.

(** Two states of a folder with the same sub-directories and the same
    entries without an mp3 name. *)
Definition same_others (c c' : gmap string node) : Prop :=
  ∀ z v, is_dir v = true ∨ is_mp3_name z = false →
         (c' !! z = Some v ↔ c !! z = Some v).

(** The number of mp3 files of the folder [x] of [d]. *)
Definition mp3_count (d : gmap string node) (x : string) : nat :=
  match d !! x with
  | Some (Dir c) => size (mp3_files c)
  | _ => 0
  end.

(** The number of [os.rename] calls among some events. *)
Definition is_rename (e : event) : bool :=
  match e with
  | ERename _ _ _ => true
  | _ => false
  end.

Definition rename_calls (tr : list event) : nat :=
  length (List.filter is_rename tr).

(** The number of mp3 files in all the folders of a root directory. *)
Definition mp3_total (d : gmap string node) : nat :=
  sum_list_with
    (λ kv, match kv.2 with Dir c => size (mp3_files c) | File _ => 0 end)
    (map_to_list d).

(** A folder the file renames cannot fail on: at most 255 mp3 files, each
    with a sort key and a name without the reserved prefix, and no
    directory that bears one of the names the renames go through. *)
Definition clean_folder (c : gmap string node) : Prop :=
  size (mp3_files c) ≤ MAX_FILES_PER_FOLDER
  ∧ (∀ y n, c !! y = Some (File n) → is_mp3_name y = true →
       has_temp_prefix y = false ∧ ∃ k, natural_sort_key y = Ok k)
  ∧ (∀ j y cc, j < size (mp3_files c) → c !! y = Some (Dir cc) →
       y ≠ file_final_name j ∧ y ≠ temp_name file_final_name j).

(** A root directory the run cannot fail on: at most 99 folders, each
    clean, with a sort key and a name without the reserved prefix, and no
    regular file that bears one of the names the folder renames go
    through. *)
Definition clean_card (d : gmap string node) : Prop :=
  size (subdirectories d) ≤ MAX_FOLDERS
  ∧ (∀ x c, d !! x = Some (Dir c) →
       has_temp_prefix x = false ∧ (∃ k, natural_sort_key x = Ok k)
       ∧ clean_folder c)
  ∧ (∀ i y n, i < size (subdirectories d) → d !! y = Some (File n) →
       y ≠ folder_final_name i ∧ y ≠ temp_name folder_final_name i).

(** A card with music next to the root and no folder. *)
Definition loose_card : gmap string node :=
  list_to_map [("a.mp3", File 1); ("b.mp3", File 2)].

(** * Properties *)

(** ** First checks *)

Example natural_sort_key_track10 :
  natural_sort_key "Track 10" = Ok [TStr "track "; TInt 10; TStr EmptyString].
Proof. reflexivity. Qed.

(** U+00B2 (superscript two) is a digit for [str.isdigit] but neither
    matches [\d] nor is accepted by [int]. *)
Example natural_sort_key_superscript :
  natural_sort_key ("x2" +:+ String "178"%char EmptyString) = Err ValueError.
Proof. reflexivity. Qed.

Example sort_natural_tracks :
  sort_natural ["Track 10"; "track 2"; "Track 003"; "Track 1"]
  = Ok ["Track 1"; "track 2"; "Track 003"; "Track 10"].
Proof. reflexivity. Qed.

(** ** Results *)

Lemma rbind_ok {A B} (r : result A) (k : A → result B) b :
  rbind r k = Ok b → ∃ a, r = Ok a ∧ k a = Ok b.
Proof. destruct r; simpl; eauto; discriminate. Qed.

Lemma rmap_ok {A B} (f : A → B) (r : result A) b :
  rmap f r = Ok b → ∃ a, r = Ok a ∧ b = f a.
Proof. destruct r; simpl; [|discriminate]. intros [= <-]. eauto. Qed.

Lemma rmapM_ok_Forall2 {A B} (f : A → result B) l l' :
  rmapM f l = Ok l' ↔ Forall2 (λ x y, f x = Ok y) l l'.
Proof.
  revert l'. induction l as [|x l IH]; intros l'; simpl.
  - split; [intros [= <-]; constructor | by inversion 1].
  - split.
    + intros (y & Hy & H)%rbind_ok. apply rbind_ok in H as (ys & Hys & [= <-]).
      constructor; [done | by apply IH].
    + inversion 1 as [|? y ? ys Hy Hys]; subst. rewrite Hy. simpl.
      apply IH in Hys. by rewrite Hys.
Qed.

Lemma rmapM_app {A B} (f : A → result B) l1 l2 :
  rmapM f (l1 ++ l2)%list
  = rbind (rmapM f l1) (λ r1, rbind (rmapM f l2) (λ r2, Ok (r1 ++ r2)%list)).
Proof.
  induction l1 as [|x l1 IH]; simpl.
  - by destruct (rmapM f l2).
  - destruct (f x); simpl; [|done]. rewrite IH.
    destruct (rmapM f l1); simpl; [|done]. by destruct (rmapM f l2).
Qed.

(** ** Characters *)

Lemma lower_char_decimal c : is_decimal (lower_char c) = is_decimal c.
Proof. by destruct c as [[] [] [] [] [] [] [] []]. Qed.

Lemma lower_char_of_decimal c : is_decimal c = true → lower_char c = c.
Proof. by destruct c as [[] [] [] [] [] [] [] []]. Qed.


Lemma decimal_isdigit_char c : is_decimal c = true → isdigit_char c = true.
Proof. unfold isdigit_char. by intros ->. Qed.

(** ** Strings *)

Lemma str_app_cons x (a b : string) : String x a +:+ b = String x (a +:+ b).
Proof. reflexivity. Qed.

Lemma str_app_nil_l (b : string) : EmptyString +:+ b = b.
Proof. reflexivity. Qed.

Lemma str_app_assoc (a b c : string) : (a +:+ b) +:+ c = a +:+ (b +:+ c).
Proof. induction a as [|x a IH]; [done|]. by rewrite !str_app_cons, IH. Qed.

Lemma str_app_nil_r (a : string) : a +:+ EmptyString = a.
Proof. induction a as [|x a IH]; [done|]. by rewrite str_app_cons, IH. Qed.

Lemma str_length_app (a b : string) :
  String.length (a +:+ b) = String.length a + String.length b.
Proof. induction a as [|x a IH]; [done|]. rewrite str_app_cons. simpl. by rewrite IH. Qed.

Lemma lower_app a b : lower (a +:+ b) = lower a +:+ lower b.
Proof. induction a as [|x a IH]; [done|]. rewrite str_app_cons. simpl. by rewrite IH. Qed.


Lemma lower_of_decimal s : str_forall is_decimal s = true → lower s = s.
Proof.
  induction s as [|c s IH]; simpl; [done|].
  intros [Hc Hs]%andb_true_iff. by rewrite lower_char_of_decimal, IH.
Qed.

Lemma str_forall_app p a b :
  str_forall p (a +:+ b) = str_forall p a && str_forall p b.
Proof.
  induction a as [|x a IH]; [done|]. rewrite str_app_cons. simpl.
  by rewrite IH, andb_assoc.
Qed.

Lemma substring_app_r (a b : string) :
  substring (String.length a) (String.length b) (a +:+ b) = b.
Proof.
  induction a as [|x a IH]; [|by rewrite str_app_cons].
  rewrite str_app_nil_l. simpl.
  induction b as [|y b IH]; simpl; [done|]. by rewrite IH.
Qed.

Lemma endswith_app a b : endswith (a +:+ b) b = true.
Proof.
  unfold endswith. rewrite str_length_app.
  replace (String.length a + String.length b - String.length b)
    with (String.length a) by lia.
  rewrite substring_app_r, String.eqb_refl.
  rewrite andb_true_r. apply Nat.leb_le. lia.
Qed.

(** ** Decimal numerals *)

Lemma string_of_uint_decimal d :
  str_forall is_decimal (NilEmpty.string_of_uint d) = true.
Proof. induction d; simpl; auto. Qed.

Lemma digits_value_of_uint d (a : nat) :
  digits_value_from (N.of_nat a) (NilEmpty.string_of_uint d)
  = N.of_nat (Nat.of_uint_acc d a).
Proof.
  revert a. induction d; intros a; simpl; [done|..];
    rewrite <- IHd; f_equal; rewrite Nat.tail_mul_spec;
    unfold code; simpl; lia.
Qed.

Lemma to_uint_not_nil n : Nat.to_uint n ≠ Nil.
Proof.
  intros H. pose proof (Unsigned.to_of (Nat.to_uint n)) as E.
  rewrite Unsigned.of_to in E.
  rewrite H in E. discriminate.
Qed.

Lemma str_of_nat_decimal n : str_forall is_decimal (str_of_nat n) = true.
Proof. apply string_of_uint_decimal. Qed.

Lemma str_of_nat_nonempty n : str_of_nat n ≠ EmptyString.
Proof.
  unfold str_of_nat. pose proof (to_uint_not_nil n).
  by destruct (Nat.to_uint n).
Qed.

Lemma digits_value_str_of_nat n : digits_value (str_of_nat n) = N.of_nat n.
Proof.
  unfold digits_value, str_of_nat.
  rewrite (digits_value_of_uint _ 0). f_equal. apply Unsigned.of_to.
Qed.

Lemma zeros_decimal k : str_forall is_decimal (zeros k) = true.
Proof. induction k; simpl; auto. Qed.

Lemma digits_value_zeros k s acc :
  digits_value_from acc (zeros k +:+ s) = digits_value_from (acc * 10 ^ N.of_nat k) s.
Proof.
  revert acc. induction k as [|k IH]; intros acc.
  - simpl. rewrite str_app_nil_l. f_equal. lia.
  - simpl zeros. rewrite str_app_cons. simpl digits_value_from. rewrite IH.
    f_equal. unfold code; simpl N_of_ascii.
    rewrite Nat2N.inj_succ, N.pow_succ_r'. lia.
Qed.

Lemma zfill_decimal w n : str_forall is_decimal (zfill w n) = true.
Proof.
  unfold zfill. by rewrite str_forall_app, zeros_decimal, str_of_nat_decimal.
Qed.

Lemma zfill_nonempty w n : zfill w n ≠ EmptyString.
Proof.
  unfold zfill. pose proof (str_of_nat_nonempty n).
  destruct (zeros _); [by rewrite str_app_nil_l | by rewrite str_app_cons].
Qed.

Lemma digits_value_zfill w n : digits_value (zfill w n) = N.of_nat n.
Proof.
  unfold zfill, digits_value. rewrite digits_value_zeros.
  simpl. apply digits_value_str_of_nat.
Qed.

Lemma zfill_inj w n m : zfill w n = zfill w m → n = m.
Proof.
  intros H. apply Nat2N.inj. by rewrite <- (digits_value_zfill w n), <- (digits_value_zfill w m), H.
Qed.

(** A zero-padded numeral starts with a decimal digit. *)
Lemma zfill_head w n : ∃ c s, zfill w n = String c s ∧ is_decimal c = true.
Proof.
  pose proof (zfill_nonempty w n) as Hne. pose proof (zfill_decimal w n) as Hd.
  destruct (zfill w n) as [|c s]; [done|].
  simpl in Hd. apply andb_true_iff in Hd as [Hc _]. eauto.
Qed.

(** ** re_split_digits *)

Lemma re_split_digits_cons c s :
  re_split_digits (String c s) =
    match re_split_digits s with
    | [] => []
    | t :: rest =>
        if is_decimal c then
          match t, rest with
          | EmptyString, d :: rest' => EmptyString :: String c d :: rest'
          | _, _ => EmptyString :: String c EmptyString :: t :: rest
          end
        else String c t :: rest
    end.
Proof. reflexivity. Qed.

Lemma re_split_digits_shape s : split_shape (re_split_digits s).
Proof.
  induction s as [|c s IH]; [by constructor|].
  rewrite re_split_digits_cons.
  destruct IH as [t Ht | t d rest Ht Hd1 Hd2 Hrest].
  - destruct (is_decimal c) eqn:Hc.
    + destruct t; constructor; unfold no_decimal; simpl; rewrite ?Hc; try done;
        by constructor.
    + constructor. unfold no_decimal in *. simpl. by rewrite Hc.
  - destruct (is_decimal c) eqn:Hc.
    + destruct t.
      * constructor; unfold no_decimal; simpl; rewrite ?Hc; done.
      * constructor; unfold no_decimal; simpl; rewrite ?Hc; try done.
        by constructor.
    + constructor; unfold no_decimal in *; simpl; rewrite ?Hc; done.
Qed.

Lemma re_split_digits_head s : ∃ t rest, re_split_digits s = t :: rest.
Proof. destruct (re_split_digits_shape s); eauto. Qed.

(** The first piece is empty and followed by a run exactly when the string
    starts with a digit. *)
Lemma re_split_digits_first s :
  first_is_decimal s = false →
  ∃ t rest, re_split_digits s = t :: rest ∧ (t ≠ EmptyString ∨ rest = []).
Proof.
  destruct s as [|c s]; [simpl; eauto|]. simpl first_is_decimal. intros Hc.
  rewrite re_split_digits_cons.
  destruct (re_split_digits_head s) as (t & rest & ->). rewrite Hc. eauto.
Qed.

Lemma re_split_digits_run d s :
  d ≠ EmptyString → str_forall is_decimal d = true → first_is_decimal s = false →
  re_split_digits (d +:+ s) = EmptyString :: d :: re_split_digits s.
Proof.
  intros Hne Hd Hs. induction d as [|c d IH]; [done|].
  simpl in Hd. apply andb_true_iff in Hd as [Hc Hd].
  rewrite str_app_cons, re_split_digits_cons. rewrite Hc.
  destruct d as [|c' d].
  - rewrite str_app_nil_l.
    destruct (re_split_digits_first s Hs) as (t & rest & -> & [Ht| ->]).
    + by destruct t.
    + by destruct t.
  - by rewrite IH.
Qed.


Lemma last_is_decimal_cons c s :
  s ≠ EmptyString → last_is_decimal (String c s) = last_is_decimal s.
Proof. by destruct s. Qed.

(** A maximal run of decimal digits inside a name is one piece. *)
Lemma re_split_digits_embedded p d s :
  last_is_decimal p = false →
  d ≠ EmptyString → str_forall is_decimal d = true → first_is_decimal s = false →
  re_split_digits (p +:+ d +:+ s)
  = (re_split_digits p ++ d :: re_split_digits s)%list.
Proof.
  intros Hp Hne Hd Hs. induction p as [|c p IH].
  - rewrite str_app_nil_l. by apply re_split_digits_run.
  - rewrite str_app_cons, !re_split_digits_cons.
    destruct p as [|c' p].
    + simpl in Hp. rewrite str_app_nil_l, re_split_digits_run by done.
      simpl. by rewrite Hp.
    + rewrite last_is_decimal_cons in Hp by done. rewrite (IH Hp).
      destruct (re_split_digits_head (String c' p)) as (t & rest & Ht).
      rewrite Ht. simpl.
      destruct (is_decimal c) eqn:Hc; [|done].
      destruct t; [|done].
      destruct rest as [|d0 rest0]; [|done].
      (* [re_split_digits] of a non-empty string is not [[EmptyString]] *)
      exfalso. revert Ht. rewrite re_split_digits_cons.
      destruct (re_split_digits_head p) as (t1 & r1 & ->).
      destruct (is_decimal c'); [by destruct t1, r1|done].
Qed.

(** ** Keys *)

Lemma key_part_text t tok :
  no_decimal t = true → key_part t = Ok tok → tok = TStr t.
Proof.
  unfold key_part. intros Ht. destruct (isdigit t) eqn:Hd.
  - destruct t as [|c t]; [done|].
    unfold py_int. unfold no_decimal in Ht. simpl in Ht. apply andb_true_iff in Ht as [Hc _].
    simpl. apply negb_true_iff in Hc. by rewrite Hc.
  - by intros [= <-].
Qed.

Lemma isdigit_decimal d :
  d ≠ EmptyString → str_forall is_decimal d = true → isdigit d = true.
Proof.
  intros Hne Hd. destruct d as [|c d]; [done|]. unfold isdigit.
  clear Hne. revert Hd. generalize (String c d). intros s.
  induction s as [|x s IH]; simpl; [done|].
  intros [Hx Hs]%andb_true_iff. by rewrite decimal_isdigit_char, IH.
Qed.

Lemma key_part_run d :
  d ≠ EmptyString → str_forall is_decimal d = true →
  key_part d = Ok (TInt (digits_value d)).
Proof.
  intros Hne Hd. unfold key_part. rewrite isdigit_decimal by done.
  unfold py_int. destruct d; [done|]. by rewrite Hd.
Qed.

Lemma key_of_shape pieces k :
  split_shape pieces → rmapM key_part pieces = Ok k → key_alternates k = true.
Proof.
  intros Hs. revert k. induction Hs as [t Ht | t d rest Ht Hd1 Hd2 Hrest IH]; intros k.
  - simpl. intros (tok & Htok & [= <-])%rbind_ok.
    by rewrite (key_part_text _ _ Ht Htok).
  - simpl. intros (tok & Htok & H)%rbind_ok.
    apply rbind_ok in H as (ks & H & [= <-]).
    rewrite (key_part_run d Hd1 Hd2) in H. simpl in H.
    apply rbind_ok in H as (ks' & H & [= <-]).
    rewrite (key_part_text _ _ Ht Htok). simpl. by apply IH.
Qed.

Lemma natural_sort_key_alternates s k :
  natural_sort_key s = Ok k → key_alternates k = true.
Proof. apply key_of_shape, re_split_digits_shape. Qed.

Lemma key_alternates_same_kind k1 k2 i x y :
  key_alternates k1 = true → key_alternates k2 = true →
  k1 !! i = Some x → k2 !! i = Some y → same_kind x y = true.
Proof.
  revert k1 k2. induction (lt_wf i) as [i _ IH]. intros k1 k2 H1 H2.
  destruct k1 as [|[s1|] [|[|n1] k1]]; try done;
  destruct k2 as [|[s2|] [|[|n2] k2]]; try done;
  destruct i as [|[|i]]; simpl; try (by intros [= <-] [= <-]); try done.
  apply IH; [lia|done..].
Qed.

Lemma key_lt_total k1 k2 :
  key_alternates k1 = true → key_alternates k2 = true →
  ∃ b, key_lt k1 k2 = Ok b.
Proof.
  remember (length k1) as n eqn:Hn. revert k1 k2 Hn.
  induction (lt_wf n) as [n _ IH]. intros k1 k2 -> H1 H2.
  destruct k1 as [|[s1|] [|[|n1] k1]]; try done;
  destruct k2 as [|[s2|] [|[|n2] k2]]; try done; simpl;
  repeat case_match; eauto.
  eapply IH; [|done..]. simpl. lia.
Qed.

Lemma token_eqb_refl a : token_eqb a a = true.
Proof. destruct a; simpl; [apply String.eqb_refl | apply N.eqb_refl]. Qed.

Lemma token_eqb_eq a b : token_eqb a b = true ↔ a = b.
Proof.
  destruct a, b; simpl; try (split; [done|discriminate]).
  - rewrite String.eqb_eq. split; congruence.
  - rewrite N.eqb_eq. split; congruence.
Qed.

Lemma str_ltb_irrefl s : String.ltb s s = false.
Proof.
  unfold String.ltb. destruct (String.compare s s) eqn:E; try done.
  pose proof (String.compare_antisym s s) as H. rewrite E in H. discriminate.
Qed.


Lemma last_is_decimal_lower p : last_is_decimal (lower p) = last_is_decimal p.
Proof.
  induction p as [|c p IH]; [done|].
  destruct p as [|c' p]; simpl in *; [apply lower_char_decimal | done].
Qed.

Lemma first_is_decimal_lower s : first_is_decimal (lower s) = first_is_decimal s.
Proof. destruct s; simpl; [done | apply lower_char_decimal]. Qed.






(** Keys of two names never hold a text and an integer at one position. *)
Lemma keys_same_kind a b ka kb i x y :
  natural_sort_key a = Ok ka → natural_sort_key b = Ok kb →
  ka !! i = Some x → kb !! i = Some y → same_kind x y = true.
Proof.
  intros Ha%natural_sort_key_alternates Hb%natural_sort_key_alternates.
  by apply key_alternates_same_kind.
Qed.

(** C9, as the code has it. Every key is text, integer, text, ...: at each
    position the keys of two names hold tokens of the same kind, and
    comparing them never raises [TypeError]. *)
Theorem key_comparison_same_kinds a b ka kb :
  natural_sort_key a = Ok ka → natural_sort_key b = Ok kb →
  key_alternates ka = true ∧ key_alternates kb = true
  ∧ (∀ i x y, ka !! i = Some x → kb !! i = Some y → same_kind x y = true)
  ∧ ∃ r, key_lt ka kb = Ok r.
Proof.
  intros Ha Hb. split; [|split; [|split]].
  - by eapply natural_sort_key_alternates.
  - by eapply natural_sort_key_alternates.
  - intros i x y. by eapply keys_same_kind.
  - apply key_lt_total; by eapply natural_sort_key_alternates.
Qed.

Lemma key_comparison_same_kinds_witness :
  key_alternates [TStr "a"; TInt 1; TStr EmptyString] = true
  ∧ key_alternates [TStr EmptyString; TInt 1; TStr "a"] = true
  ∧ (∀ i x y, [TStr "a"; TInt 1; TStr EmptyString] !! i = Some x →
              [TStr EmptyString; TInt 1; TStr "a"] !! i = Some y → same_kind x y = true)
  ∧ ∃ r, key_lt [TStr "a"; TInt 1; TStr EmptyString] [TStr EmptyString; TInt 1; TStr "a"] = Ok r.
Proof. apply (key_comparison_same_kinds "A1" "1A"); reflexivity. Defined.

(** C9, as stated, fails: the keys of "A1" and "1A" are compared text
    against text at position 0, and no pair of names has keys with a text
    token and an integer token at the same position. *)
Lemma no_text_against_integer :
  natural_sort_key "A1" = Ok [TStr "a"; TInt 1; TStr EmptyString]
  ∧ natural_sort_key "1A" = Ok [TStr EmptyString; TInt 1; TStr "a"]
  ∧ key_lt [TStr EmptyString; TInt 1; TStr "a"] [TStr "a"; TInt 1; TStr EmptyString] = Ok true
  ∧ ¬ ∃ a b ka kb i s n,
        natural_sort_key a = Ok ka ∧ natural_sort_key b = Ok kb
        ∧ ka !! i = Some (TStr s) ∧ kb !! i = Some (TInt n).
Proof.
  repeat split; try reflexivity.
  intros (a & b & ka & kb & i & s & n & Ha & Hb & Hi & Hj).
  by pose proof (keys_same_kind _ _ _ _ _ _ _ Ha Hb Hi Hj).
Qed.

(** ** os.rename inside one directory *)

Section Rename.
Implicit Types d : gmap string node.
Implicit Types es : list (string * string).

Lemma rename_entry_clean d s t v :
  d !! s = Some v → d !! t = None →
  rename_entry s t d = Ok (<[t:=v]> (delete s d)).
Proof.
  intros Hs Ht. unfold rename_entry. rewrite Hs.
  destruct (decide (s = t)) as [->|]; [congruence|]. by rewrite Ht.
Qed.

Lemma rename_entry_self d s :
  is_Some (d !! s) → rename_entry s s d = Ok d.
Proof.
  intros [v Hs]. unfold rename_entry. rewrite Hs. by rewrite decide_True.
Qed.

Lemma rename_entry_inv d s t d' :
  rename_entry s t d = Ok d' →
  ∃ v, d !! s = Some v
    ∧ (s = t ∧ d' = d
       ∨ s ≠ t ∧ d' = <[t:=v]> (delete s d)
         ∧ ∀ u, d !! t = Some u → is_dir u = is_dir v).
Proof.
  unfold rename_entry. destruct (d !! s) as [v|] eqn:Hs; [|done].
  destruct (decide (s = t)) as [->|Hne].
  - intros [= <-]. eauto.
  - destruct (d !! t) as [u|] eqn:Ht.
    + destruct v, u; try done.
      * intros [= <-]. exists (File content). split; [done|]. right.
        split_and!; [done..|]. by intros ? [= <-].
      * case_decide; [|done]. intros [= <-].
        exists (Dir entries). split; [done|]. right.
        split_and!; [done..|]. by intros ? [= <-].
    + intros [= <-]. exists v. split; [done|]. right. by split_and!.
Qed.

(** What a successful call does to the names. *)
Lemma rename_entry_lookup d s t d' x :
  rename_entry s t d = Ok d' →
  d' !! x = if decide (x = t) then d !! s
            else if decide (x = s) then None else d !! x.
Proof.
  intros (v & Hs & [[-> ->] | (Hne & -> & _)])%rename_entry_inv.
  - repeat case_decide; by subst.
  - repeat case_decide; subst.
    + by rewrite lookup_insert_eq.
    + by rewrite lookup_insert_ne, lookup_delete_eq.
    + by rewrite lookup_insert_ne, lookup_delete_ne.
Qed.

Lemma rename_entry_src d s t d' :
  rename_entry s t d = Ok d' → is_Some (d !! s).
Proof. intros (v & Hs & _)%rename_entry_inv. eauto. Qed.

(** ** Sequences of calls *)

Lemma run_renames_app es1 es2 d :
  run_renames (es1 ++ es2) d = rbind (run_renames es1 d) (run_renames es2).
Proof.
  revert d. induction es1 as [|[s t] es1 IH]; intros d; simpl; [done|].
  destruct (rename_entry s t d); simpl; [apply IH | done].
Qed.

Lemma states_before_app es1 es2 d d1 :
  run_renames es1 d = Ok d1 →
  states_before (es1 ++ es2) d = states_before es1 d ++ states_before es2 d1.
Proof.
  revert d. induction es1 as [|[s t] es1 IH]; intros d; simpl.
  - by intros [= <-].
  - destruct (rename_entry s t d); simpl; [|done]. intros H. by rewrite (IH _ H).
Qed.

Lemma states_before_length es d d' :
  run_renames es d = Ok d' → length (states_before es d) = length es.
Proof.
  revert d. induction es as [|[s t] es IH]; intros d; simpl; [done|].
  destruct (rename_entry s t d); simpl; [|done]. intros H. by rewrite (IH _ H).
Qed.

Lemma exec_renames_run es d d' :
  run_renames es d = Ok d' → exec_renames es d = (es, d', None).
Proof.
  revert d. induction es as [|[s t] es IH]; intros d; simpl.
  - by intros [= <-].
  - destruct (rename_entry s t d); simpl; [|done]. intros H. by rewrite (IH _ H).
Qed.

Lemma exec_renames_ok es d calls d' :
  exec_renames es d = (calls, d', None) → run_renames es d = Ok d' ∧ calls = es.
Proof.
  revert d calls. induction es as [|[s t] es IH]; intros d calls; simpl.
  - by intros [= <- <-].
  - destruct (rename_entry s t d) as [d1|]; simpl; [|done].
    destruct (exec_renames es d1) as [[c d2] e] eqn:E. intros [= <- <- ->].
    destruct (IH _ _ E) as [-> ->]. done.
Qed.

(** A name that no call creates stays absent. *)
Lemma run_renames_absent es d d' z :
  run_renames es d = Ok d' → d !! z = None → z ∉ es.*2 → d' !! z = None.
Proof.
  revert d. induction es as [|[s t] es IH]; intros d; simpl.
  - by intros [= <-].
  - intros (d1 & H1 & H2)%rbind_ok Hz Hnot.
    apply not_elem_of_cons in Hnot as [Hzt Hnot].
    apply (IH d1); [done| |done].
    rewrite (rename_entry_lookup _ _ _ _ z H1).
    rewrite decide_False by done. by case_decide.
Qed.

(** A call whose source is absent, and was not created before, makes the
    sequence fail. *)
Lemma run_renames_src_missing pre z t post d d' :
  d !! z = None → z ∉ pre.*2 →
  run_renames (pre ++ (z, t) :: post) d = Ok d' → False.
Proof.
  intros Hz Hpre. rewrite run_renames_app.
  intros (d1 & H1 & H2)%rbind_ok. simpl in H2.
  apply rbind_ok in H2 as (d2 & H2 & _).
  apply rename_entry_src in H2 as [v Hv].
  by rewrite (run_renames_absent _ _ _ _ H1 Hz Hpre) in Hv.
Qed.

(** If a destination of the first batch were the source of a later call of
    that batch, the entry moved there would be moved on, and the call of
    the second batch that expects it would fail. *)
Lemma run_renames_dst_free_later es1 es2 d d' :
  run_renames (es1 ++ es2) d = Ok d' →
  NoDup es1.*2 →
  (∀ t, t ∈ es1.*2 → t ∈ es2.*1) →
  (∀ t, t ∈ es1.*2 → t ∉ es2.*2) →
  dst_free_later es1.
Proof.
  revert d. induction es1 as [|[s t] es1 IH]; intros d; [done|].
  rewrite fmap_cons. cbn [app run_renames dst_free_later fst snd].
  intros (d1 & H1 & H2)%rbind_ok [Ht Hnd]%NoDup_cons Hsub Hdisj.
  split.
  - intros Hin.
    apply list_elem_of_fmap in Hin as ([t0 t'] & Heq & Hin). simpl in Heq. subst t0.
    apply list_elem_of_split in Hin as (ra & rb & ->).
    rewrite <- app_assoc in H2. simpl in H2. rewrite run_renames_app in H2.
    apply rbind_ok in H2 as (d2 & Hra & H2). simpl in H2.
    apply rbind_ok in H2 as (d3 & Hstep & H2).
    rewrite fmap_app, fmap_cons in Ht. cbn [snd] in Ht.
    apply not_elem_of_app in Ht as [Hta Htb].
    apply not_elem_of_cons in Htb as [Hne Htb].
    assert (d3 !! t = None) as Hgone.
    { rewrite (rename_entry_lookup _ _ _ _ t Hstep).
      rewrite decide_False, decide_True; done. }
    assert (t ∈ es2.*1) as Hin2 by (apply Hsub; by left).
    apply list_elem_of_fmap in Hin2 as ([t0 f] & Heq & Hin2). simpl in Heq. subst t0.
    apply list_elem_of_split in Hin2 as (q1 & q2 & ->).
    rewrite app_assoc in H2.
    eapply run_renames_src_missing; [exact Hgone| |exact H2].
    rewrite fmap_app. apply not_elem_of_app. split; [done|].
    intros Hq. apply (Hdisj t); [by left|].
    rewrite fmap_app. apply elem_of_app. by left.
  - apply (IH d1); [done..| |].
    + intros t' Ht'. apply Hsub. by right.
    + intros t' Ht'. apply Hdisj. by right.
Qed.
End Rename.

Section Batch.
Implicit Types d : gmap string node.
Implicit Types es : list (string * string).

(** One step of a clean call on the size of the directory. *)
Lemma size_rename d s t v :
  d !! s = Some v → d !! t = None → size (<[t:=v]> (delete s d)) = size d.
Proof.
  intros Hs Ht. assert (s ≠ t) by congruence.
  rewrite map_size_insert_None by by rewrite lookup_delete_ne.
  rewrite <- (map_size_insert_None s v (delete s d)) by apply lookup_delete_eq.
  by rewrite insert_delete_eq, insert_id.
Qed.

(** A batch of calls in which every source exists, no destination is a
    later source, and no destination is the name of an entry outside the
    batch: every call succeeds without replacing anything. *)
Lemma run_renames_clean es d :
  NoDup es.*1 → NoDup es.*2 → dst_free_later es →
  (∀ s, s ∈ es.*1 → is_Some (d !! s)) →
  (∀ t, t ∈ es.*2 → is_Some (d !! t) → t ∈ es.*1) →
  ∃ d', run_renames es d = Ok d'
      ∧ (∀ s t, (s, t) ∈ es → d' !! t = d !! s)
      ∧ (∀ x, x ∉ es.*2 → d' !! x = if decide (x ∈ es.*1) then None else d !! x)
      ∧ size d' = size d
      ∧ Forall2 (λ dk '(s, t), is_Some (dk !! s) ∧ (dk !! t = None ∨ s = t)
                               ∧ size dk = size d)
          (states_before es d) es.
Proof.
  revert d. induction es as [|[s t] es IH]; intros d.
  { intros _ _ _ _ _. exists d. split_and!; try done.
    intros ?? []%elem_of_nil. }
  rewrite !fmap_cons. cbn [fst snd run_renames states_before dst_free_later].
  intros [Hs Hnds]%NoDup_cons [Ht Hndt]%NoDup_cons [Hfree Hlater] Hsrc Hdst.
  destruct (Hsrc s) as [v Hv]; [by left|].
  assert (s = t ∨ d !! t = None) as Hcase.
  { destruct (d !! t) eqn:E; [|by right]. left.
    assert (t ∈ s :: es.*1) as Hin by (apply Hdst; [by left | by rewrite E]).
    apply elem_of_cons in Hin as [|?]; done. }
  assert (∃ d1, rename_entry s t d = Ok d1 ∧ size d1 = size d
            ∧ ∀ x, d1 !! x = if decide (x = t) then d !! s
                             else if decide (x = s) then None else d !! x)
    as (d1 & H1 & Hsz & Hd1).
  { destruct Hcase as [<- | Hnone].
    - exists d. split; [by apply rename_entry_self|]. split; [done|].
      intros x. repeat case_decide; by subst.
    - eexists. split; [by apply rename_entry_clean|].
      split; [by apply size_rename|].
      intros x. by apply rename_entry_lookup, rename_entry_clean. }
  rewrite H1. simpl.
  destruct (IH d1) as (d' & Hrun & Hmove & Hrest & Hsize & Hstates); [done..| | |].
  { intros s' Hs'. rewrite Hd1. rewrite decide_False by (intros ->; done).
    rewrite decide_False by (intros ->; done). apply Hsrc. by right. }
  { intros t' Ht' [u Hu]. rewrite Hd1 in Hu.
    rewrite decide_False in Hu by (intros ->; done).
    case_decide; [done|].
    assert (t' ∈ s :: es.*1) as Hin by (apply Hdst; [by right | by rewrite Hu]).
    apply elem_of_cons in Hin as [|?]; done. }
  exists d'. split; [done|]. split_and!.
  - intros s' t' [[= -> ->] | Hin]%elem_of_cons.
    + rewrite Hrest by done. rewrite decide_False by done.
      rewrite Hd1. by rewrite decide_True.
    + rewrite (Hmove _ _ Hin), Hd1.
      assert (s' ∈ es.*1) by (apply list_elem_of_fmap; by exists (s', t')).
      rewrite decide_False by (intros ->; done).
      by rewrite decide_False by (intros ->; done).
  - intros x [Hxt Hx]%not_elem_of_cons. rewrite (Hrest _ Hx), Hd1.
    rewrite (decide_False (P := x = t)) by done.
    destruct (decide (x = s)) as [->|Hxs].
    + rewrite (decide_True (P := s ∈ s :: es.*1)) by by left. by case_decide.
    + destruct (decide (x ∈ es.*1)).
      * by rewrite decide_True by by right.
      * rewrite decide_False; [done|]. by intros [|]%elem_of_cons.
  - congruence.
  - constructor.
    + split_and!; [eauto| |done]. destruct Hcase; eauto.
    + eapply Forall2_impl; [exact Hstates|].
      intros dk [s' t'] (? & ? & ?). split_and!; [done..|congruence].
Qed.

(** When a batch that moves entries of one kind (regular files, or
    directories) succeeds, no destination was the name of an entry of the
    other kind: such a call raises. *)
Lemma run_renames_kind es d d' (K : bool) :
  run_renames es d = Ok d' →
  NoDup es.*1 → NoDup es.*2 → dst_free_later es →
  (∀ s, s ∈ es.*1 → ∃ v, d !! s = Some v ∧ is_dir v = K) →
  (∀ t v, t ∈ es.*2 → t ∉ es.*1 → d !! t = Some v → is_dir v ≠ K) →
  ∀ t, t ∈ es.*2 → is_Some (d !! t) → t ∈ es.*1.
Proof.
  revert d. induction es as [|[s t] es IH]; intros d.
  { intros _ _ _ _ _ _ t []%elem_of_nil. }
  rewrite !fmap_cons. cbn [fst snd run_renames dst_free_later].
  intros (d1 & H1 & Hrun)%rbind_ok [Hs Hnds]%NoDup_cons [Ht Hndt]%NoDup_cons
    [Hfree Hlater] Hsrc Hother.
  destruct (Hsrc s) as (v & Hv & Hk); [by left|].
  pose proof (λ x, rename_entry_lookup _ _ _ _ x H1) as Hd1.
  apply rename_entry_inv in H1 as (v' & Hv' & Hcase).
  assert (v' = v) as -> by congruence.
  (* the head call did not land on an entry of the other kind *)
  assert (is_Some (d !! t) → t = s) as Hhead.
  { intros [u Hu]. destruct (decide (t = s)) as [|Hts]; [done|]. exfalso.
    destruct Hcase as [[? _] | (_ & _ & Hkind)]; [done|].
    eapply (Hother t u); [by left| |done|by rewrite (Hkind u Hu)].
    by intros [|]%elem_of_cons. }
  assert (∀ t', t' ∈ es.*2 → is_Some (d1 !! t') → t' ∈ es.*1) as IH'.
  { apply (IH d1); [done..| |].
    - intros s' Hs'. destruct (Hsrc s') as (u & Hu & Hku); [by right|].
      exists u. split; [|done]. rewrite Hd1.
      rewrite decide_False by (intros ->; done).
      by rewrite decide_False by (intros ->; done).
    - intros t' u Ht' Hnot Hu. rewrite Hd1 in Hu.
      rewrite decide_False in Hu by (intros ->; done).
      case_decide; [done|].
      apply (Hother t' u); [by right| |done].
      by intros [|]%elem_of_cons. }
  intros t' [->|Ht']%elem_of_cons Hsome.
  - apply elem_of_cons. left. by apply Hhead.
  - destruct (decide (t' = s)) as [->|Hne]; [by left|]. right.
    apply IH'; [done|]. rewrite Hd1.
    rewrite decide_False by (intros ->; done). by rewrite decide_False.
Qed.
End Batch.

(** ** Two batches: to temporary names, then to final names *)

Section TwoBatches.
Implicit Types d : gmap string node.
Variables p1 p2 : list (string * string).
Hypothesis Hlink : p1.*2 = p2.*1.
Hypothesis Hitems : NoDup p1.*1.
Hypothesis Htemps : NoDup p1.*2.
Hypothesis Hfinals : NoDup p2.*2.
Hypothesis Hdisj : ∀ t, t ∈ p1.*2 → t ∉ p2.*2.

Lemma phase2_dst_free_later : dst_free_later p2.
Proof using Hlink Hdisj.
  assert (∀ t, t ∈ p2.*2 → t ∉ p2.*1) as H.
  { intros t Ht Hin. rewrite <- Hlink in Hin. by apply (Hdisj t). }
  clear Hlink Hdisj Hfinals. induction p2 as [|[s t] es IH]; [done|].
  rewrite !fmap_cons in H. cbn [fst snd] in H. split.
  - intros Hin. apply (H t); [by left | by right].
  - apply IH. intros t' Ht' Hin. apply (H t'); by right.
Qed.

(** Both batches succeed without replacing anything when the names the
    calls create are free, or are names of entries that the first batch
    has moved away by then. *)
Lemma two_batches_clean d :
  dst_free_later p1 →
  (∀ s, s ∈ p1.*1 → is_Some (d !! s)) →
  (∀ x, x ∈ p1.*2 ∨ x ∈ p2.*2 → is_Some (d !! x) → x ∈ p1.*1) →
  ∃ d1 d',
    run_renames p1 d = Ok d1 ∧ run_renames p2 d1 = Ok d'
    ∧ (∀ s t f, (s, t) ∈ p1 → (t, f) ∈ p2 → d' !! f = d !! s)
    ∧ (∀ x, x ∉ p2.*2 → d' !! x = if decide (x ∈ p1.*1) then None else d !! x)
    ∧ size d' = size d
    ∧ Forall2 (λ dk '(s, t), is_Some (dk !! s) ∧ (dk !! t = None ∨ s = t)
                             ∧ size dk = size d)
        (states_before p1 d ++ states_before p2 d1) (p1 ++ p2).
Proof using All.
  intros Hfree Hsrc Hdst.
  destruct (run_renames_clean p1 d) as (d1 & Hrun1 & Hmove1 & Hrest1 & Hsz1 & Hst1);
    [done..| |].
  { intros t Ht. apply Hdst. by left. }
  destruct (run_renames_clean p2 d1) as (d' & Hrun2 & Hmove2 & Hrest2 & Hsz2 & Hst2);
    [by rewrite <- Hlink | done | apply phase2_dst_free_later | | |].
  { intros t Ht. rewrite <- Hlink in Ht.
    apply list_elem_of_fmap in Ht as ([s t'] & -> & Hin). simpl.
    rewrite (Hmove1 _ _ Hin). apply Hsrc.
    apply list_elem_of_fmap. by exists (s, t'). }
  { intros f Hf [u Hu]. exfalso.
    assert (f ∉ p1.*2) as Hnt by (intros ?; by apply (Hdisj f)).
    rewrite (Hrest1 _ Hnt) in Hu. case_decide as Hin; [done|].
    apply Hin, Hdst; [by right | by rewrite Hu]. }
  exists d1, d'. split_and!; [done..| | |congruence|].
  - intros s t f Hst Htf. by rewrite (Hmove2 _ _ Htf), (Hmove1 _ _ Hst).
  - intros x Hx. rewrite (Hrest2 _ Hx). rewrite <- Hlink.
    destruct (decide (x ∈ p1.*2)) as [Hin|Hnin].
    + case_decide as Hit; [done|].
      destruct (d !! x) eqn:E; [|done]. exfalso. apply Hit, Hdst; [by left|by rewrite E].
    + by apply Hrest1.
  - apply Forall2_app; [done|].
    eapply Forall2_impl; [exact Hst2|].
    intros dk [s t] (? & ? & ?). split_and!; [done..|congruence].
Qed.

(** Conversely: if both batches succeed on entries of one kind, and the
    entries outside the batch that bear a temporary or final name are of
    the other kind, then nothing was replaced. *)
Lemma two_batches_success d d' (K : bool) :
  run_renames (p1 ++ p2) d = Ok d' →
  (∀ s, s ∈ p1.*1 → ∃ v, d !! s = Some v ∧ is_dir v = K) →
  (∀ x v, x ∈ p1.*2 ∨ x ∈ p2.*2 → x ∉ p1.*1 → d !! x = Some v → is_dir v ≠ K) →
  dst_free_later p1
  ∧ (∀ x, x ∈ p1.*2 ∨ x ∈ p2.*2 → is_Some (d !! x) → x ∈ p1.*1).
Proof using All.
  intros Hrun Hsrc Hother.
  assert (dst_free_later p1) as Hfree.
  { eapply run_renames_dst_free_later; [exact Hrun|done| |done].
    intros t Ht. by rewrite <- Hlink. }
  split; [done|].
  rewrite run_renames_app in Hrun. apply rbind_ok in Hrun as (d1 & Hrun1 & Hrun2).
  assert (∀ t, t ∈ p1.*2 → is_Some (d !! t) → t ∈ p1.*1) as Hclean1.
  { eapply (run_renames_kind p1 d d1 K); [done..| |].
    - done.
    - intros t v Ht. apply Hother. by left. }
  destruct (run_renames_clean p1 d) as (d1' & Hrun1' & Hmove1 & Hrest1 & _);
    [done..| |done|].
  { intros s Hs. destruct (Hsrc s Hs) as (v & -> & _). eauto. }
  assert (d1' = d1) as -> by congruence.
  intros x [Hx|Hx]; [by apply Hclean1|]. intros [v Hv].
  destruct (decide (x ∈ p1.*1)) as [|Hnot]; [done|]. exfalso.
  assert (x ∉ p1.*2) as Hnt by (intros ?; by apply (Hdisj x)).
  assert (x ∈ p2.*1); [|by rewrite <- Hlink in *].
  eapply (run_renames_kind p2 d1 d' K); [done|by rewrite <- Hlink|done| | | |done|].
  - apply phase2_dst_free_later.
  - intros t Ht. rewrite <- Hlink in Ht.
    apply list_elem_of_fmap in Ht as ([s t'] & -> & Hin). simpl.
    rewrite (Hmove1 _ _ Hin). apply Hsrc.
    apply list_elem_of_fmap. by exists (s, t').
  - intros f u Hf Hnf Hu. rewrite <- Hlink in Hnf.
    rewrite (Hrest1 _ Hnf) in Hu. case_decide; [done|].
    apply (Hother f u); [by right|done..].
  - rewrite (Hrest1 _ Hnt). rewrite decide_False by done. by rewrite Hv.
Qed.
End TwoBatches.

(** ** Paths *)

Section Paths.
Implicit Types d : gmap string node.
Implicit Types t : node.

Lemma update_at_graft base op t d :
  resolve base t = Some (Dir d) →
  update_at base op t = rmap (λ d', graft base d' t) (op d).
Proof.
  revert t. induction base as [|x base IH]; intros t; simpl.
  - intros [= ->]. done.
  - destruct t as [|d0]; [done|]. destruct (d0 !! x) as [c|] eqn:Hx; [|done].
    simpl. intros Hc. rewrite (IH _ Hc). by destruct (op d).
Qed.

Lemma resolve_graft base t d d' :
  resolve base t = Some (Dir d) → resolve base (graft base d' t) = Some (Dir d').
Proof.
  revert t. induction base as [|x base IH]; intros t; simpl; [done|].
  destruct t as [|d0]; [done|]. destruct (d0 !! x) as [c|] eqn:Hx; [|done].
  simpl. intros Hc. rewrite lookup_insert_eq. simpl. by apply IH.
Qed.

Lemma graft_graft base t d d1 d2 :
  resolve base t = Some (Dir d) →
  graft base d2 (graft base d1 t) = graft base d2 t.
Proof.
  revert t. induction base as [|x base IH]; intros t; simpl; [done|].
  destruct t as [|d0]; [done|]. destruct (d0 !! x) as [c|] eqn:Hx; [|done].
  simpl. intros Hc. rewrite lookup_insert_eq, insert_insert_eq. by rewrite (IH _ Hc).
Qed.

Lemma graft_id base t d :
  resolve base t = Some (Dir d) → graft base d t = t.
Proof.
  revert t. induction base as [|x base IH]; intros t; simpl.
  - by intros [= ->].
  - destruct t as [|d0]; [done|]. destruct (d0 !! x) as [c|] eqn:Hx; [|done].
    simpl. intros Hc. by rewrite (IH _ Hc), insert_id.
Qed.
End Paths.

(** ** The calls of rename_two_phase *)

Section Calls.
Implicit Types d : gmap string node.
Implicit Types w : world.

Lemma after_calls_nil base w d :
  resolve base (tree w) = Some (Dir d) → after_calls base w [] d = w.
Proof.
  intros H. unfold after_calls. simpl. rewrite (graft_id _ _ _ H), app_nil_r.
  by destruct w.
Qed.

Lemma after_calls_app base w c1 c2 d d1 d2 :
  resolve base (tree w) = Some (Dir d) →
  after_calls base (after_calls base w c1 d1) c2 d2
  = after_calls base w (c1 ++ c2) d2.
Proof.
  intros H. unfold after_calls. simpl.
  by rewrite (graft_graft _ _ _ _ _ H), fmap_app, app_assoc.
Qed.

Lemma after_calls_resolve base w calls d d' :
  resolve base (tree w) = Some (Dir d) →
  resolve base (tree (after_calls base w calls d')) = Some (Dir d').
Proof. intros H. simpl. by eapply resolve_graft. Qed.

Lemma os_rename_spec base s t w d :
  resolve base (tree w) = Some (Dir d) →
  os_rename base s t w =
    match rename_entry s t d with
    | Ok d' => (Ok tt, after_calls base w [(s, t)] d')
    | Err e => (Err e, after_calls base w [(s, t)] d)
    end.
Proof.
  intros H. unfold os_rename, mbind, emit. simpl.
  rewrite (update_at_graft _ _ _ _ H).
  destruct (rename_entry s t d); simpl; [done|].
  unfold after_calls. simpl. by rewrite (graft_id _ _ _ H).
Qed.

Lemma exec_renames_app es1 es2 d :
  exec_renames (es1 ++ es2) d =
    let '(c1, d1, e1) := exec_renames es1 d in
    match e1 with
    | None => let '(c2, d2, e2) := exec_renames es2 d1 in (c1 ++ c2, d2, e2)
    | Some e => (c1, d1, Some e)
    end.
Proof.
  revert d. induction es1 as [|[s t] es1 IH]; intros d; simpl.
  - by destruct (exec_renames es2 d) as [[??]?].
  - destruct (rename_entry s t d) as [d1|]; [|done].
    rewrite IH. destruct (exec_renames es1 d1) as [[c1 d2] [e|]]; [done|].
    by destruct (exec_renames es2 d2) as [[??]?].
Qed.

(** Phase 1, from index [i] on. *)
Lemma phase1_exec mk base i items temps mapping w d :
  resolve base (tree w) = Some (Dir d) →
  phase1 mk base i items temps mapping w =
    let '(calls, d', e) :=
      exec_renames (imap (λ j x, (x, temp_name mk (i + j))) items) d in
    (match e with
     | None => Ok (temps ++ imap (λ j _, temp_name mk (i + j)) items,
                   mapping ++ imap (λ j x, (x, mk (i + j))) items)
     | Some e => Err e
     end, after_calls base w calls d').
Proof.
  revert i temps mapping w d.
  induction items as [|x items IH]; intros i temps mapping w d H.
  - simpl. unfold mret. by rewrite !app_nil_r, (after_calls_nil _ _ _ H).
  - cbn [phase1]. unfold mbind. rewrite (os_rename_spec _ _ _ _ _ H).
    rewrite !imap_cons. cbn [exec_renames]. rewrite Nat.add_0_r.
    fold (temp_name mk i).
    destruct (rename_entry x (temp_name mk i) d) as [d1|e]; [|done].
    rewrite (IH (S i) _ _ _ d1) by by eapply after_calls_resolve.
    rewrite (imap_ext (λ j x0, (x0, temp_name mk (S i + j)))
               ((λ j x0, (x0, temp_name mk (i + j))) ∘ S))
      by (intros; simpl; by rewrite Nat.add_succ_r).
    destruct (exec_renames _ d1) as [[calls d'] e].
    rewrite (after_calls_app _ _ _ _ _ _ _ H). simpl.
    destruct e; [done|]. do 3 f_equal.
    + rewrite <- app_assoc. simpl. do 2 f_equal.
      apply imap_ext. intros; simpl; by rewrite Nat.add_succ_r.
    + rewrite <- app_assoc. simpl. do 2 f_equal.
      apply imap_ext. intros; simpl; by rewrite Nat.add_succ_r.
Qed.

Lemma phase2_exec base pairs w d :
  resolve base (tree w) = Some (Dir d) →
  phase2 base pairs w =
    let '(calls, d', e) :=
      exec_renames ((λ '(temp, (_, final)), (temp, final)) <$> pairs) d in
    (match e with None => Ok tt | Some e => Err e end,
     after_calls base w calls d').
Proof.
  revert w d. induction pairs as [|[temp [old final]] pairs IH]; intros w d H.
  - simpl. unfold mret. by rewrite (after_calls_nil _ _ _ H).
  - unfold phase2 in *. cbn [mfor]. unfold mbind at 1.
    rewrite (os_rename_spec _ _ _ _ _ H). rewrite fmap_cons. cbn [exec_renames].
    destruct (rename_entry temp final d) as [d1|e]; [|done].
    rewrite (IH _ d1) by by eapply after_calls_resolve.
    destruct (exec_renames _ d1) as [[calls d'] e].
    by rewrite (after_calls_app _ _ _ _ _ _ _ H).
Qed.

Lemma zip_imap {A B C} (f : nat → A → B) (g : nat → A → C) (l : list A) :
  zip (imap f l) (imap g l) = imap (λ i x, (f i x, g i x)) l.
Proof.
  revert f g. induction l as [|x l IH]; intros f g; [done|].
  rewrite !imap_cons. simpl. by rewrite IH.
Qed.

(** [rename_two_phase] issues the calls of [rename_steps], in order, as
    long as they succeed, and returns [mapping_of]. *)
Lemma rename_two_phase_exec items mk base w d :
  resolve base (tree w) = Some (Dir d) →
  rename_two_phase items mk base w =
    let '(calls, d', e) := exec_renames (rename_steps items mk) d in
    (match e with None => Ok (mapping_of items mk) | Some e => Err e end,
     after_calls base w calls d').
Proof.
  intros H. unfold rename_two_phase, mbind at 1.
  rewrite (phase1_exec _ _ _ _ _ _ _ _ H). simpl.
  unfold rename_steps. rewrite exec_renames_app. fold (phase1_steps items mk).
  destruct (exec_renames (phase1_steps items mk) d) as [[c1 d1] [e|]]; [done|].
  unfold mbind. rewrite zip_imap.
  rewrite (phase2_exec _ _ _ d1) by by eapply after_calls_resolve.
  rewrite fmap_imap.
  rewrite (imap_ext _ (λ i _, (temp_name mk i, mk i))) by done.
  fold (phase2_steps items mk).
  destruct (exec_renames (phase2_steps items mk) d1) as [[c2 d2] e].
  rewrite (after_calls_app _ _ _ _ _ _ _ H).
  destruct e; [done|]. done.
Qed.

Lemma rename_two_phase_run items mk base w d d' :
  resolve base (tree w) = Some (Dir d) →
  run_renames (rename_steps items mk) d = Ok d' →
  rename_two_phase items mk base w
  = (Ok (mapping_of items mk), after_calls base w (rename_steps items mk) d').
Proof.
  intros H Hrun. rewrite (rename_two_phase_exec _ _ _ _ _ H).
  by rewrite (exec_renames_run _ _ _ Hrun).
Qed.

Lemma rename_two_phase_ok items mk base w d m w' :
  resolve base (tree w) = Some (Dir d) →
  rename_two_phase items mk base w = (Ok m, w') →
  ∃ d', run_renames (rename_steps items mk) d = Ok d'
      ∧ m = mapping_of items mk
      ∧ w' = after_calls base w (rename_steps items mk) d'.
Proof.
  intros H. rewrite (rename_two_phase_exec _ _ _ _ _ H).
  destruct (exec_renames _ d) as [[calls d'] [e|]] eqn:E; [done|].
  apply exec_renames_ok in E as [Hrun ->]. intros [= <- <-]. eauto.
Qed.
End Calls.

(** ** The sort *)

Lemma insert_by_key_perm x l l' : insert_by_key x l = Ok l' → l' ≡ₚ x :: l.
Proof.
  revert l'. induction l as [|y l IH]; intros l'; simpl.
  - by intros [= <-].
  - intros ([] & Hlt & H)%rbind_ok.
    + apply rmap_ok in H as (l1 & H & ->). rewrite (IH _ H). apply Permutation_swap.
    + by injection H as <-.
Qed.

Lemma sort_keyed_perm l l' : sort_keyed l = Ok l' → l' ≡ₚ l.
Proof.
  revert l'. induction l as [|x l IH]; intros l'; simpl.
  - by intros [= <-].
  - intros (l1 & H1 & H2)%rbind_ok. rewrite (insert_by_key_perm _ _ _ H2).
    by rewrite (IH _ H1).
Qed.

Lemma keyed_names names keyed :
  rmapM (λ x, rmap (λ k, (k, x)) (natural_sort_key x)) names = Ok keyed →
  keyed.*2 = names.
Proof.
  intros H%rmapM_ok_Forall2. induction H as [|x y l l' Hxy _ IH]; [done|].
  apply rmap_ok in Hxy as (k & _ & ->). rewrite fmap_cons. simpl. by rewrite IH.
Qed.

Lemma sort_natural_perm names sorted :
  sort_natural names = Ok sorted → sorted ≡ₚ names.
Proof.
  unfold sort_natural. intros (keyed & Hk & H)%rbind_ok.
  apply rmap_ok in H as (l' & H & ->).
  rewrite <- (keyed_names _ _ Hk). apply fmap_Permutation.
  by apply sort_keyed_perm.
Qed.

Lemma sort_natural_length names sorted :
  sort_natural names = Ok sorted → length sorted = length names.
Proof. intros H%sort_natural_perm. by rewrite H. Qed.

(** The only exception the sort raises is [ValueError] or [TypeError]. *)
Lemma key_lt_err k1 k2 e : key_lt k1 k2 = Err e → e = TypeError.
Proof.
  revert k2. induction k1 as [|a k1 IH]; intros [|b k2]; simpl; try done.
  destruct (token_eqb a b); [apply IH|]. destruct a, b; simpl; congruence.
Qed.

Lemma natural_sort_key_err x e : natural_sort_key x = Err e → e = ValueError.
Proof.
  unfold natural_sort_key. generalize (re_split_digits (lower x)).
  intros l. induction l as [|p l IH]; simpl; [done|].
  destruct (key_part p) as [tok|e'] eqn:Hp; simpl.
  - destruct (rmapM key_part l); simpl; [done|]. intros [= <-]. by apply IH.
  - intros [= <-]. unfold key_part in Hp. destruct (isdigit p); [|done].
    unfold py_int in Hp. destruct p; [by injection Hp|].
    destruct (str_forall _ _); [done | by injection Hp].
Qed.

Lemma insert_by_key_err x l e : insert_by_key x l = Err e → e = TypeError.
Proof.
  induction l as [|y l IH]; simpl; [done|].
  destruct (key_lt y.1 x.1) as [[]|e'] eqn:Hlt; simpl.
  - destruct (insert_by_key x l); simpl; [done|]. intros [= <-]. by apply IH.
  - done.
  - intros [= <-]. by eapply key_lt_err.
Qed.

Lemma sort_keyed_err l e : sort_keyed l = Err e → e = TypeError.
Proof.
  induction l as [|x l IH]; simpl; [done|].
  destruct (sort_keyed l); simpl; [apply insert_by_key_err|].
  intros [= <-]. by apply IH.
Qed.

Lemma sort_natural_err names e :
  sort_natural names = Err e → e = ValueError ∨ e = TypeError.
Proof.
  unfold sort_natural.
  destruct (rmapM _ names) as [keyed|e'] eqn:Hk; simpl.
  - destruct (sort_keyed keyed) eqn:Hs; simpl; [done|].
    intros [= <-]. right. by eapply sort_keyed_err.
  - intros [= <-]. left. clear -Hk. revert Hk.
    induction names as [|x names IH]; simpl; [done|].
    destruct (natural_sort_key x) eqn:Hx; simpl.
    + destruct (rmapM _ names); simpl; [done|]. intros [= <-]. by apply IH.
    + intros [= <-]. by eapply natural_sort_key_err.
Qed.

(** *** Sorting names whose keys are ordered like their ranks *)

Section Ranked.
Variable rank : list token * string → nat.
Variable P : list token * string → Prop.
Hypothesis key_lt_rank :
  ∀ a b, P a → P b → key_lt a.1 b.1 = Ok (rank a <? rank b).

Lemma insert_by_key_ranked x l :
  P x → Forall P l → Sorted (λ a b, rank a ≤ rank b) l →
  ∃ l', insert_by_key x l = Ok l' ∧ Sorted (λ a b, rank a ≤ rank b) l'
      ∧ (∀ y, HdRel (λ a b, rank a ≤ rank b) y l → rank y ≤ rank x →
              HdRel (λ a b, rank a ≤ rank b) y l').
Proof using key_lt_rank.
  intros Hx. induction l as [|y l IH]; intros Hl Hs.
  - exists [x]. split; [done|]. split; [by repeat constructor|].
    intros. by constructor.
  - apply Forall_cons in Hl as [Hy Hl]. apply Sorted_inv in Hs as [Hs Hhd].
    simpl. rewrite (key_lt_rank _ _ Hy Hx). simpl.
    destruct (rank y <? rank x) eqn:E.
    + apply Nat.ltb_lt in E.
      destruct (IH Hl Hs) as (l' & -> & Hs' & Hhd'). simpl.
      eexists. split; [done|]. split.
      * constructor; [done|]. apply Hhd'; [done|lia].
      * intros z Hz _. apply HdRel_inv in Hz. by constructor.
    + apply Nat.ltb_ge in E. eexists. split; [done|]. split.
      * constructor; [by constructor|]. by constructor.
      * intros z _ Hz. by constructor.
Qed.

Lemma sort_keyed_ranked l :
  Forall P l →
  ∃ l', sort_keyed l = Ok l' ∧ Sorted (λ a b, rank a ≤ rank b) l' ∧ l' ≡ₚ l.
Proof using key_lt_rank.
  induction l as [|x l IH]; intros Hl.
  - exists []. by repeat constructor.
  - apply Forall_cons in Hl as [Hx Hl].
    destruct (IH Hl) as (l1 & H1 & Hs1 & Hp1). simpl. rewrite H1. simpl.
    destruct (insert_by_key_ranked x l1 Hx) as (l' & H & Hs & _); [|done|].
    { by rewrite Hp1. }
    exists l'. split; [done|]. split; [done|].
    by rewrite (insert_by_key_perm _ _ _ H), Hp1.
Qed.
End Ranked.

Lemma Sorted_le_seq start n : Sorted le (seq start n).
Proof.
  revert start. induction n as [|n IH]; intros start; simpl; [constructor|].
  constructor; [apply IH|]. destruct n; simpl; constructor. lia.
Qed.

Lemma key_lt_irrefl k : key_lt k k = Ok false.
Proof. induction k as [|a k IH]; [done|]. simpl. by rewrite token_eqb_refl. Qed.

(** Names [g 0, ..., g (n-1)] whose keys start with the numbers 1, ..., n
    and agree after them are sorted into that order, whatever order they are
    listed in. *)
Lemma sort_natural_canonical (g : nat → string) (tail : list token) n l :
  (∀ i, i < n →
     natural_sort_key (g i) = Ok (TStr EmptyString :: TInt (N.of_nat (S i)) :: tail)) →
  l ≡ₚ g <$> seq 0 n →
  sort_natural l = Ok (g <$> seq 0 n).
Proof.
  intros Hkey Hperm.
  set (kf := λ i, TStr EmptyString :: TInt (N.of_nat (S i)) :: tail).
  set (P := λ a : list token * string, ∃ i, i < n ∧ a = (kf i, g i)).
  set (rank := λ a : list token * string, name_rank a.2).
  assert (∀ i, i < n → name_rank (g i) = i) as Hrank.
  { intros i Hi. unfold name_rank. rewrite (Hkey i Hi). lia. }
  assert (∀ x, x ∈ l → ∃ i, i < n ∧ x = g i) as Hl.
  { intros x Hx. rewrite Hperm in Hx.
    apply list_elem_of_fmap in Hx as (i & -> & Hi). apply elem_of_seq in Hi.
    exists i. split; [lia|done]. }
  assert (∃ keyed, rmapM (λ x, rmap (λ k, (k, x)) (natural_sort_key x)) l = Ok keyed
                 ∧ Forall P keyed ∧ keyed.*2 = l) as (keyed & Hk & HP & Hnames).
  { clear Hperm. induction l as [|x l IH]; [by exists []|].
    destruct IH as (keyed & Hk & HP & Hnames).
    { intros y Hy. apply Hl. by right. }
    destruct (Hl x) as (i & Hi & ->); [by left|].
    exists ((kf i, g i) :: keyed).
    split; [simpl; by rewrite (Hkey i Hi), Hk|].
    split; [constructor; [by exists i|done] | by rewrite fmap_cons, Hnames]. }
  unfold sort_natural. rewrite Hk. simpl.
  destruct (sort_keyed_ranked rank P) with (l := keyed) as (l' & -> & Hs & Hp).
  { intros a b (i & Hi & ->) (j & Hj & ->). unfold rank. cbn [fst snd].
    rewrite !Hrank by done. unfold kf. cbn [key_lt token_eqb token_lt].
    rewrite String.eqb_refl.
    destruct (N.eqb_spec (N.of_nat (S i)) (N.of_nat (S j))) as [E|E].
    - apply Nat2N.inj in E. injection E as ->.
      rewrite key_lt_irrefl. f_equal. symmetry. apply Nat.ltb_ge. lia.
    - f_equal. destruct (Nat.ltb_spec i j).
      + apply N.ltb_lt. lia.
      + apply N.ltb_ge. lia. }
  { done. }
  simpl. f_equal.
  assert (Transitive (λ x y, name_rank x ≤ name_rank y)) as Htrans
    by (intros x y z; lia).
  apply (Sorted_unique_strong (λ x y, name_rank x ≤ name_rank y)).
  - intros x1 x2 Hx1 Hx2 H1 H2.
    assert (x1 ∈ l) as Hx1' by by rewrite <- Hnames, <- Hp.
    assert (x2 ∈ l) as Hx2' by by rewrite Hperm.
    destruct (Hl _ Hx1') as (i & Hi & ->). destruct (Hl _ Hx2') as (j & Hj & ->).
    rewrite !Hrank in H1, H2 by done. f_equal. lia.
  - by apply (Sorted_fmap snd (λ a b, rank a ≤ rank b)).
  - assert (∀ k s, s + k ≤ n →
              Sorted (λ x y, name_rank x ≤ name_rank y) (g <$> seq s k)) as Hseq.
    { induction k as [|k IH]; intros s Hsk; simpl; [constructor|].
      constructor; [apply IH; lia|].
      destruct k; simpl; constructor. rewrite !Hrank by lia. lia. }
    by apply Hseq.
  - rewrite <- Hperm, <- Hnames. by apply fmap_Permutation.
Qed.

(** ** The names the tool gives *)

Lemma folder_final_name_key i :
  natural_sort_key (folder_final_name i)
  = Ok [TStr EmptyString; TInt (N.of_nat (S i)); TStr EmptyString].
Proof.
  unfold folder_final_name, natural_sort_key. rewrite Nat.add_1_r.
  rewrite lower_of_decimal by apply zfill_decimal.
  rewrite <- (str_app_nil_r (zfill 2 (S i))).
  rewrite (re_split_digits_run (zfill 2 (S i)) EmptyString);
    [|apply zfill_nonempty|apply zfill_decimal|done].
  cbn [rmapM re_split_digits]. rewrite (key_part_run (zfill 2 (S i)));
    [|apply zfill_nonempty|apply zfill_decimal].
  by rewrite digits_value_zfill.
Qed.

Lemma file_final_name_key i :
  natural_sort_key (file_final_name i)
  = Ok [TStr EmptyString; TInt (N.of_nat (S i)); TStr ".mp"; TInt 3; TStr EmptyString].
Proof.
  unfold file_final_name, natural_sort_key. rewrite Nat.add_1_r.
  rewrite lower_app, lower_of_decimal by apply zfill_decimal.
  change (lower ".mp3") with ".mp3".
  rewrite (re_split_digits_run (zfill 3 (S i)) ".mp3");
    [|apply zfill_nonempty|apply zfill_decimal|done].
  cbn [rmapM]. rewrite (key_part_run (zfill 3 (S i)));
    [|apply zfill_nonempty|apply zfill_decimal].
  by rewrite digits_value_zfill.
Qed.

Lemma folder_final_name_rank i : name_rank (folder_final_name i) = i.
Proof. unfold name_rank. rewrite folder_final_name_key. lia. Qed.

Lemma file_final_name_rank i : name_rank (file_final_name i) = i.
Proof. unfold name_rank. rewrite file_final_name_key. lia. Qed.

Lemma folder_final_name_inj i j :
  folder_final_name i = folder_final_name j → i = j.
Proof. intros H. by rewrite <- (folder_final_name_rank i), H, folder_final_name_rank. Qed.

Lemma file_final_name_inj i j : file_final_name i = file_final_name j → i = j.
Proof. intros H. by rewrite <- (file_final_name_rank i), H, file_final_name_rank. Qed.

Lemma has_temp_prefix_temp mk i : has_temp_prefix (temp_name mk i) = true.
Proof.
  unfold has_temp_prefix. apply prefix_correct. unfold temp_name, TEMP_PREFIX.
  cbv [String.length substring append]. by destruct (mk i).
Qed.

Lemma has_temp_prefix_decimal c s :
  is_decimal c = true → has_temp_prefix (String c s) = false.
Proof.
  intros Hc. unfold has_temp_prefix, TEMP_PREFIX. cbn [String.prefix].
  destruct (ascii_dec "_"%char c) as [<-|]; done.
Qed.

Lemma folder_final_name_no_prefix i : has_temp_prefix (folder_final_name i) = false.
Proof.
  unfold folder_final_name. destruct (zfill_head 2 (i + 1)) as (c & s & -> & Hc).
  by apply has_temp_prefix_decimal.
Qed.

Lemma file_final_name_no_prefix i : has_temp_prefix (file_final_name i) = false.
Proof.
  unfold file_final_name. destruct (zfill_head 3 (i + 1)) as (c & s & -> & Hc).
  rewrite str_app_cons. by apply has_temp_prefix_decimal.
Qed.

Lemma temp_name_inj mk i j : temp_name mk i = temp_name mk j → mk i = mk j.
Proof. unfold temp_name. by intros [= ?]. Qed.

Lemma is_mp3_name_app x : is_mp3_name (x +:+ ".mp3") = true.
Proof. unfold is_mp3_name. rewrite lower_app. apply endswith_app. Qed.

Lemma file_final_name_mp3 i : is_mp3_name (file_final_name i) = true.
Proof. apply is_mp3_name_app. Qed.

Lemma temp_file_name_mp3 i : is_mp3_name (temp_name file_final_name i) = true.
Proof.
  unfold temp_name, file_final_name. rewrite <- str_app_assoc. apply is_mp3_name_app.
Qed.

(** ** The two phases of rename_two_phase *)

Lemma phase1_steps_dst_free_later items mk :
  dst_free_later (phase1_steps items mk)
  ↔ (∀ i j x, i < j → items !! j = Some x → temp_name mk i ≠ x).
Proof.
  unfold phase1_steps. revert mk.
  induction items as [|y l IH]; intros mk.
  { split; [|done]. by intros _ i j x _ ?. }
  rewrite imap_cons. cbn [dst_free_later].
  rewrite fmap_imap, (imap_ext _ (const id)), imap_const, list_fmap_id by done.
  change (imap ((λ i old_name, (old_name, temp_name mk i)) ∘ S) l)
    with (imap (λ i old_name, (old_name, temp_name (mk ∘ S) i)) l).
  rewrite (IH (mk ∘ S)). split.
  - intros [Hhd Htl] i j x Hij Hx. destruct j as [|j]; [lia|]. simpl in Hx.
    destruct i as [|i].
    + intros <-. apply Hhd. by eapply list_elem_of_lookup_2.
    + apply (Htl i j x); [lia|done].
  - intros H. split.
    + intros (j & Hj)%list_elem_of_lookup. by apply (H 0 (S j) _ ltac:(lia) Hj).
    + intros i j x Hij Hx. apply (H (S i) (S j)); [lia|done].
Qed.

Section TwoPhases.
Implicit Types d : gmap string node.
Variable items : list string.
Variable mk : nat → string.

Lemma phase1_steps_fst : (phase1_steps items mk).*1 = items.
Proof.
  unfold phase1_steps. rewrite fmap_imap.
  rewrite (imap_ext _ (const id)) by done. by rewrite imap_const, list_fmap_id.
Qed.

Lemma phase1_steps_snd :
  (phase1_steps items mk).*2 = temp_name mk <$> seq 0 (length items).
Proof.
  unfold phase1_steps. rewrite fmap_imap.
  by rewrite (imap_ext _ (λ i _, temp_name mk i)), imap_seq_0 by done.
Qed.

Lemma phase2_steps_fst :
  (phase2_steps items mk).*1 = temp_name mk <$> seq 0 (length items).
Proof.
  unfold phase2_steps. rewrite fmap_imap.
  by rewrite (imap_ext _ (λ i _, temp_name mk i)), imap_seq_0 by done.
Qed.

Lemma phase2_steps_snd :
  (phase2_steps items mk).*2 = mk <$> seq 0 (length items).
Proof.
  unfold phase2_steps. rewrite fmap_imap.
  by rewrite (imap_ext _ (λ i _, mk i)), imap_seq_0 by done.
Qed.

Lemma elem_of_fmap_seq (f : nat → string) n x :
  x ∈ f <$> seq 0 n ↔ ∃ i, i < n ∧ x = f i.
Proof.
  rewrite list_elem_of_fmap. split.
  - intros (i & -> & Hi%elem_of_seq). exists i. split; [lia|done].
  - intros (i & Hi & ->). exists i. split; [done|]. apply elem_of_seq. lia.
Qed.

Lemma NoDup_fmap_seq (f : nat → string) n :
  (∀ i j, i < n → j < n → f i = f j → i = j) → NoDup (f <$> seq 0 n).
Proof.
  intros Hinj. apply NoDup_fmap_2_strong; [|apply NoDup_seq].
  intros i j Hi%elem_of_seq Hj%elem_of_seq. apply Hinj; lia.
Qed.

Lemma elem_of_phase1_steps s t :
  (s, t) ∈ phase1_steps items mk ↔ ∃ i, items !! i = Some s ∧ t = temp_name mk i.
Proof.
  unfold phase1_steps. rewrite elem_of_lookup_imap. split.
  - intros (i & x & [= -> ->] & Hi). eauto.
  - intros (i & Hi & ->). eauto.
Qed.

Lemma elem_of_phase2_steps t f :
  (t, f) ∈ phase2_steps items mk
  ↔ ∃ i, i < length items ∧ t = temp_name mk i ∧ f = mk i.
Proof.
  unfold phase2_steps. rewrite elem_of_lookup_imap. split.
  - intros (i & x & [= -> ->] & Hi). apply lookup_lt_Some in Hi. eauto.
  - intros (i & Hi & -> & ->). apply lookup_lt_is_Some in Hi as [x Hx]. eauto.
Qed.

Hypothesis Hitems : NoDup items.
Hypothesis Hinj : ∀ i j, i < length items → j < length items → mk i = mk j → i = j.
Hypothesis Hsep : ∀ i j, i < length items → j < length items → temp_name mk i ≠ mk j.

Lemma temps_NoDup : NoDup (temp_name mk <$> seq 0 (length items)).
Proof using Hinj.
  apply NoDup_fmap_seq. intros i j Hi Hj H%temp_name_inj. by apply Hinj.
Qed.

(** The calls succeed and replace nothing when the temporary names do not
    clash with names still to be renamed, and no other entry bears a
    temporary or final name. *)
Lemma two_phase_clean d :
  (∀ x, x ∈ items → is_Some (d !! x)) →
  (∀ i j x, i < j → items !! j = Some x → temp_name mk i ≠ x) →
  (∀ i x, i < length items → x = temp_name mk i ∨ x = mk i →
          is_Some (d !! x) → x ∈ items) →
  ∃ d', run_renames (rename_steps items mk) d = Ok d'
    ∧ (∀ i x, items !! i = Some x → d' !! mk i = d !! x)
    ∧ (∀ x, (∀ i, i < length items → x ≠ mk i) →
            d' !! x = if decide (x ∈ items) then None else d !! x)
    ∧ size d' = size d
    ∧ Forall2 (λ dk '(s, t), is_Some (dk !! s) ∧ (dk !! t = None ∨ s = t)
                             ∧ size dk = size d)
        (states_before (rename_steps items mk) d) (rename_steps items mk).
Proof using All.
  intros Hsrc Hfree Hother.
  destruct (two_batches_clean (phase1_steps items mk) (phase2_steps items mk))
    with (d := d) as (d1 & d' & Hrun1 & Hrun2 & Hmove & Hrest & Hsz & Hst).
  - by rewrite phase1_steps_snd, phase2_steps_fst.
  - by rewrite phase1_steps_fst.
  - rewrite phase1_steps_snd. apply temps_NoDup.
  - rewrite phase2_steps_snd. by apply NoDup_fmap_seq.
  - rewrite phase1_steps_snd, phase2_steps_snd. intros t.
    rewrite !elem_of_fmap_seq. intros (i & Hi & ->) (j & Hj & Heq).
    by apply (Hsep i j).
  - by apply phase1_steps_dst_free_later.
  - by rewrite phase1_steps_fst.
  - rewrite phase1_steps_fst, phase1_steps_snd, phase2_steps_snd.
    intros x. rewrite !elem_of_fmap_seq.
    intros [(i & Hi & ->)|(i & Hi & ->)] Hx; eapply Hother; eauto.
  - exists d'. unfold rename_steps. rewrite run_renames_app, Hrun1. simpl.
    split; [done|]. split_and!.
    + intros i x Hi. apply (Hmove x (temp_name mk i)).
      * apply elem_of_phase1_steps. eauto.
      * apply elem_of_phase2_steps. exists i. split; [|done].
        by eapply lookup_lt_Some.
    + intros x Hx. rewrite Hrest.
      * by rewrite phase1_steps_fst.
      * rewrite phase2_steps_snd, elem_of_fmap_seq. intros (i & Hi & ->).
        by apply (Hx i).
    + done.
    + by rewrite (states_before_app _ _ _ _ Hrun1).
Qed.

(** Conversely, a run that succeeded on entries of one kind replaced
    nothing, provided the entries of that kind which bear a temporary or
    final name are among the items. *)
Lemma two_phase_success d d' (K : bool) :
  run_renames (rename_steps items mk) d = Ok d' →
  (∀ x, x ∈ items → ∃ v, d !! x = Some v ∧ is_dir v = K) →
  (∀ i x v, i < length items → x = temp_name mk i ∨ x = mk i →
            x ∉ items → d !! x = Some v → is_dir v ≠ K) →
  (∀ i j x, i < j → items !! j = Some x → temp_name mk i ≠ x)
  ∧ (∀ i x, i < length items → x = temp_name mk i ∨ x = mk i →
            is_Some (d !! x) → x ∈ items).
Proof using All.
  intros Hrun Hsrc Hother.
  destruct (two_batches_success (phase1_steps items mk) (phase2_steps items mk))
    with (d := d) (d' := d') (K := K) as [Hfree Hclean].
  - by rewrite phase1_steps_snd, phase2_steps_fst.
  - by rewrite phase1_steps_fst.
  - rewrite phase1_steps_snd. apply temps_NoDup.
  - rewrite phase2_steps_snd. by apply NoDup_fmap_seq.
  - rewrite phase1_steps_snd, phase2_steps_snd. intros t.
    rewrite !elem_of_fmap_seq. intros (i & Hi & ->) (j & Hj & Heq).
    by apply (Hsep i j).
  - done.
  - by rewrite phase1_steps_fst.
  - rewrite phase1_steps_fst, phase1_steps_snd, phase2_steps_snd.
    intros x v. rewrite !elem_of_fmap_seq.
    intros [(i & Hi & ->)|(i & Hi & ->)] Hx; eapply Hother; eauto.
  - split.
    + by apply phase1_steps_dst_free_later.
    + rewrite phase1_steps_fst, phase1_steps_snd, phase2_steps_snd in Hclean.
      intros i x Hi Hx. apply Hclean. rewrite !elem_of_fmap_seq.
      destruct Hx as [->| ->]; [left|right]; eauto.
Qed.
End TwoPhases.

(** ** rename_two_phase *)

Lemma phase1_returns mk base i items temps mapping w tm w' :
  phase1 mk base i items temps mapping w = (Ok tm, w') →
  tm.2 = (mapping ++ imap (λ j x, (x, mk (i + j))) items)%list.
Proof.
  revert i temps mapping w. induction items as [|x items IH]; intros i temps mapping w.
  - simpl. unfold mret. intros [= <- _]. simpl. by rewrite app_nil_r.
  - cbn [phase1]. unfold mbind at 1.
    destruct (os_rename base x _ w) as [[[]|e] w1]; [|done].
    intros H%IH. rewrite H, <- app_assoc, imap_cons. simpl.
    rewrite Nat.add_0_r. do 2 f_equal.
    apply imap_ext. intros; simpl; by rewrite Nat.add_succ_r.
Qed.

Lemma mapping_of_lookup items mk i :
  mapping_of items mk !! i = (λ x, (x, mk i)) <$> items !! i.
Proof. unfold mapping_of. apply list_lookup_imap. Qed.

(** C7. The value [rename_two_phase] returns is the list of the pairs
    (items[i], make_final_name(i)), in the order of [items] and of the same
    length; and it does return, with that list, whenever none of its
    [os.rename] calls raises. *)
Theorem rename_two_phase_returns_mapping items mk base w :
  (∀ m w', rename_two_phase items mk base w = (Ok m, w') →
     m = mapping_of items mk
     ∧ length m = length items
     ∧ ∀ i, m !! i = (λ x, (x, mk i)) <$> items !! i)
  ∧ (∀ d d', resolve base (tree w) = Some (Dir d) →
       run_renames (rename_steps items mk) d = Ok d' →
       rename_two_phase items mk base w
       = (Ok (mapping_of items mk),
          after_calls base w (rename_steps items mk) d')).
Proof.
  split.
  - intros m w'. unfold rename_two_phase, mbind at 1.
    destruct (phase1 mk base 0 items [] [] w) as [[[temps mapping]|e] w1] eqn:E;
      [|done].
    apply phase1_returns in E. simpl in E. unfold mbind.
    destruct (phase2 base (zip temps mapping) w1) as [[[]|e] w2]; [|done].
    unfold mret. intros [= <- <-]. fold (mapping_of items mk) in E. subst mapping.
    split; [done|]. split; [apply length_imap | apply mapping_of_lookup].
  - intros d d'. apply rename_two_phase_run.
Qed.

Lemma Forall2_and_r {A B} (P : A → B → Prop) (Q : B → Prop) l k :
  Forall2 P l k → Forall Q k → Forall2 (λ a b, P a b ∧ Q b) l k.
Proof.
  induction 1; intros HQ; [constructor|].
  apply Forall_cons in HQ as [??]. constructor; auto.
Qed.

Lemma has_temp_prefix_ne x y :
  has_temp_prefix x = true → has_temp_prefix y = false → x ≠ y.
Proof. intros Hx Hy ->. congruence. Qed.

Lemma rename_steps_distinct items mk :
  (∀ x, x ∈ items → has_temp_prefix x = false) →
  (∀ i, i < length items → has_temp_prefix (mk i) = false) →
  Forall (λ '(s, t), s ≠ t) (rename_steps items mk).
Proof.
  intros Hip Hfp. unfold rename_steps. apply Forall_app. split.
  - apply Forall_forall. intros [s t] (i & Hi & ->)%elem_of_phase1_steps.
    apply not_eq_sym, has_temp_prefix_ne; [apply has_temp_prefix_temp|].
    apply Hip. by eapply list_elem_of_lookup_2.
  - apply Forall_forall. intros [s t] (i & Hi & -> & ->)%elem_of_phase2_steps.
    apply has_temp_prefix_ne; [apply has_temp_prefix_temp|]. by apply Hfp.
Qed.

(** What the two properties about collisions share: when the listed names are
    names of the directory, distinct and without the reserved prefix, the
    final names are distinct and without the prefix, and a temporary or
    final name that is in use is the name of a listed entry, then every call
    succeeds, its destination is a free name, and the directory keeps its
    size. *)
Lemma two_phase_collision_free items mk d :
  NoDup items →
  (∀ x, x ∈ items → is_Some (d !! x)) →
  (∀ i j, i < length items → j < length items → mk i = mk j → i = j) →
  (∀ x, x ∈ items → has_temp_prefix x = false) →
  (∀ i, i < length items → has_temp_prefix (mk i) = false) →
  (∀ i x, i < length items → x = temp_name mk i ∨ x = mk i →
          is_Some (d !! x) → x ∈ items) →
  ∃ d', run_renames (rename_steps items mk) d = Ok d'
    ∧ (∀ i x, items !! i = Some x → d' !! mk i = d !! x)
    ∧ (∀ x, (∀ i, i < length items → x ≠ mk i) →
            d' !! x = if decide (x ∈ items) then None else d !! x)
    ∧ size d' = size d
    ∧ Forall2 (λ dk '(s, t), is_Some (dk !! s) ∧ dk !! t = None ∧ size dk = size d)
        (states_before (rename_steps items mk) d) (rename_steps items mk).
Proof.
  intros Hnd Hin Hinj Hip Hfp Hother.
  destruct (two_phase_clean items mk Hnd Hinj) with (d := d)
    as (d' & Hrun & Hmove & Hrest & Hsz & Hst).
  - intros i j Hi Hj. apply has_temp_prefix_ne; [apply has_temp_prefix_temp|].
    by apply Hfp.
  - done.
  - intros i j x _ Hx. apply has_temp_prefix_ne; [apply has_temp_prefix_temp|].
    apply Hip. by eapply list_elem_of_lookup_2.
  - done.
  - exists d'. split_and!; [done..|].
    eapply Forall2_impl.
    + apply Forall2_and_r; [exact Hst|]. by apply rename_steps_distinct.
    + intros dk [s t] [(? & [?|?] & ?) ?]; done.
Qed.

(** C2, as the code has it. Names of entries of the directory, distinct and
    without the reserved prefix, with final names that are distinct and
    without the prefix, in a directory where a temporary or final name that
    is in use is the name of a listed entry: [rename_two_phase] returns,
    every listed entry ends under its final name, the other entries stay,
    no call has an existing name as its destination, and no destination is
    the final name of another entry. *)
Theorem rename_two_phase_no_collision items mk base w d :
  resolve base (tree w) = Some (Dir d) →
  NoDup items →
  (∀ x, x ∈ items → is_Some (d !! x)) →
  (∀ i j, i < length items → j < length items → mk i = mk j → i = j) →
  (∀ x, x ∈ items → has_temp_prefix x = false) →
  (∀ i, i < length items → has_temp_prefix (mk i) = false) →
  (∀ i x, i < length items → x = temp_name mk i ∨ x = mk i →
          is_Some (d !! x) → x ∈ items) →
  ∃ d', rename_two_phase items mk base w
        = (Ok (mapping_of items mk), after_calls base w (rename_steps items mk) d')
    ∧ (∀ i x, items !! i = Some x → d' !! mk i = d !! x)
    ∧ (∀ x, (∀ i, i < length items → x ≠ mk i) →
            d' !! x = if decide (x ∈ items) then None else d !! x)
    ∧ Forall2 (λ dk '(s, t), is_Some (dk !! s) ∧ dk !! t = None)
        (states_before (rename_steps items mk) d) (rename_steps items mk)
    ∧ (∀ i j, i < length items → j < length items →
         temp_name mk i ≠ mk j ∧ (i ≠ j → mk i ≠ mk j)).
Proof.
  intros Hres Hnd Hin Hinj Hip Hfp Hother.
  destruct (two_phase_collision_free items mk d) as (d' & Hrun & Hmove & Hrest & _ & Hst);
    [done..|].
  exists d'. split_and!; [|done..| |].
  - by apply (rename_two_phase_run _ _ _ _ d).
  - eapply Forall2_impl; [exact Hst|]. by intros dk [s t] (? & ? & _).
  - intros i j Hi Hj. split.
    + apply has_temp_prefix_ne; [apply has_temp_prefix_temp | by apply Hfp].
    + intros Hne Heq. by apply Hne, Hinj.
Qed.

(** C10, as the code has it: under the same conditions every call moves an
    existing entry to a name that no entry bears at that time, so nothing is
    replaced and the directory has the same number of entries before every
    call and at the end. *)
Theorem rename_two_phase_preserves_entries items mk base w d :
  resolve base (tree w) = Some (Dir d) →
  NoDup items →
  (∀ x, x ∈ items → is_Some (d !! x)) →
  (∀ i j, i < length items → j < length items → mk i = mk j → i = j) →
  (∀ x, x ∈ items → has_temp_prefix x = false) →
  (∀ i, i < length items → has_temp_prefix (mk i) = false) →
  (∀ i x, i < length items → x = temp_name mk i ∨ x = mk i →
          is_Some (d !! x) → x ∈ items) →
  ∃ d', rename_two_phase items mk base w
        = (Ok (mapping_of items mk), after_calls base w (rename_steps items mk) d')
    ∧ size d' = size d
    ∧ length (states_before (rename_steps items mk) d) = 2 * length items
    ∧ Forall2 (λ dk '(s, t),
         is_Some (dk !! s) ∧ (∀ x, is_Some (dk !! x) → t ≠ x) ∧ size dk = size d)
        (states_before (rename_steps items mk) d) (rename_steps items mk).
Proof.
  intros Hres Hnd Hin Hinj Hip Hfp Hother.
  destruct (two_phase_collision_free items mk d) as (d' & Hrun & _ & _ & Hsz & Hst);
    [done..|].
  exists d'. split_and!; [|done| |].
  - by apply (rename_two_phase_run _ _ _ _ d).
  - rewrite (states_before_length _ _ _ Hrun). unfold rename_steps.
    rewrite length_app. unfold phase1_steps, phase2_steps.
    rewrite !length_imap. lia.
  - eapply Forall2_impl; [exact Hst|]. intros dk [s t] (? & Hnone & ?).
    split_and!; [done| |done]. intros x [v Hx] ->. congruence.
Qed.

(** *** The swap scenario *)

Lemma swap_names x : is_Some (swap_dir !! x) → x ∈ swap_items.
Proof.
  unfold swap_items, swap_dir. rewrite !lookup_insert_is_Some', lookup_empty.
  rewrite !elem_of_cons. intros [->|[->|[? ?]]]; [by right; left|by left|done].
Qed.

Lemma swap_present x : x ∈ swap_items → is_Some (swap_dir !! x).
Proof.
  unfold swap_items. rewrite !elem_of_cons, elem_of_nil.
  intros [->|[->|[]]]; by eexists.
Qed.

Lemma swap_NoDup : NoDup swap_items.
Proof.
  unfold swap_items. apply NoDup_cons. split; [|apply NoDup_singleton].
  rewrite list_elem_of_singleton. discriminate.
Qed.

Lemma swap_no_prefix x : x ∈ swap_items → has_temp_prefix x = false.
Proof.
  unfold swap_items. rewrite !elem_of_cons, elem_of_nil.
  intros [->|[->|[]]]; by apply has_temp_prefix_decimal.
Qed.

Lemma swap_free i x :
  i < length swap_items →
  x = temp_name file_final_name i ∨ x = file_final_name i →
  is_Some (swap_dir !! x) → x ∈ swap_items.
Proof. intros _ _. apply swap_names. Qed.

Lemma rename_two_phase_returns_mapping_witness :
  [("002.mp3", "001.mp3"); ("001.mp3", "002.mp3")]
  = mapping_of swap_items file_final_name
  ∧ length [("002.mp3", "001.mp3"); ("001.mp3", "002.mp3")] = length swap_items
  ∧ ∀ i, [("002.mp3", "001.mp3"); ("001.mp3", "002.mp3")] !! i
         = (λ x, (x, file_final_name i)) <$> swap_items !! i.
Proof.
  apply (proj1 (rename_two_phase_returns_mapping swap_items file_final_name []
                  (World (Dir swap_dir) [])) _
           (rename_two_phase swap_items file_final_name []
              (World (Dir swap_dir) [])).2).
  vm_compute. reflexivity.
Defined.

Lemma rename_two_phase_no_collision_witness :
  ∃ d', rename_two_phase swap_items file_final_name [] (World (Dir swap_dir) [])
        = (Ok (mapping_of swap_items file_final_name),
           after_calls [] (World (Dir swap_dir) [])
             (rename_steps swap_items file_final_name) d')
    ∧ (∀ i x, swap_items !! i = Some x → d' !! file_final_name i = swap_dir !! x)
    ∧ (∀ x, (∀ i, i < length swap_items → x ≠ file_final_name i) →
            d' !! x = if decide (x ∈ swap_items) then None else swap_dir !! x)
    ∧ Forall2 (λ dk '(s, t), is_Some (dk !! s) ∧ dk !! t = None)
        (states_before (rename_steps swap_items file_final_name) swap_dir)
        (rename_steps swap_items file_final_name)
    ∧ (∀ i j, i < length swap_items → j < length swap_items →
         temp_name file_final_name i ≠ file_final_name j
         ∧ (i ≠ j → file_final_name i ≠ file_final_name j)).
Proof.
  apply (rename_two_phase_no_collision swap_items file_final_name []
           (World (Dir swap_dir) []) swap_dir).
  - reflexivity.
  - apply swap_NoDup.
  - apply swap_present.
  - intros i j _ _. apply file_final_name_inj.
  - apply swap_no_prefix.
  - intros i _. apply file_final_name_no_prefix.
  - apply swap_free.
Defined.

Lemma rename_two_phase_preserves_entries_witness :
  ∃ d', rename_two_phase swap_items file_final_name [] (World (Dir swap_dir) [])
        = (Ok (mapping_of swap_items file_final_name),
           after_calls [] (World (Dir swap_dir) [])
             (rename_steps swap_items file_final_name) d')
    ∧ size d' = size swap_dir
    ∧ length (states_before (rename_steps swap_items file_final_name) swap_dir)
      = 2 * length swap_items
    ∧ Forall2 (λ dk '(s, t),
         is_Some (dk !! s) ∧ (∀ x, is_Some (dk !! x) → t ≠ x)
         ∧ size dk = size swap_dir)
        (states_before (rename_steps swap_items file_final_name) swap_dir)
        (rename_steps swap_items file_final_name).
Proof.
  apply (rename_two_phase_preserves_entries swap_items file_final_name []
           (World (Dir swap_dir) []) swap_dir).
  - reflexivity.
  - apply swap_NoDup.
  - apply swap_present.
  - intros i j _ _. apply file_final_name_inj.
  - apply swap_no_prefix.
  - intros i _. apply file_final_name_no_prefix.
  - apply swap_free.
Defined.

(** The swap itself: the two files have exchanged their names. *)
Example swap_exchanged :
  rename_two_phase swap_items file_final_name [] (World (Dir swap_dir) [])
  = (Ok [("002.mp3", "001.mp3"); ("001.mp3", "002.mp3")],
     World (Dir (<["001.mp3" := File 2]> (<["002.mp3" := File 1]> ∅)))
       [ERename [] "002.mp3" "__dftemp_001.mp3";
        ERename [] "001.mp3" "__dftemp_002.mp3";
        ERename [] "__dftemp_001.mp3" "001.mp3";
        ERename [] "__dftemp_002.mp3" "002.mp3"]).
Proof. vm_compute. reflexivity. Qed.

(** C2, as stated, fails. The two names are distinct and are the names of
    the directory, the final names are distinct; the first call has the
    current name of the other file as its destination and replaces that
    file, and the third call raises: one file is lost and the other is left
    under a temporary name. *)
Lemma temp_named_entry_is_lost :
  NoDup clash_items
  ∧ (∀ x, x ∈ clash_items ↔ is_Some (clash_dir !! x))
  ∧ (∀ i j, file_final_name i = file_final_name j → i = j)
  ∧ rename_two_phase clash_items file_final_name [] (World (Dir clash_dir) [])
    = (Err FileNotFoundError,
       World (Dir (<["__dftemp_002.mp3" := File 1]> ∅))
         [ERename [] "1.mp3" "__dftemp_001.mp3";
          ERename [] "__dftemp_001.mp3" "__dftemp_002.mp3";
          ERename [] "__dftemp_001.mp3" "001.mp3"])
  ∧ (states_before (rename_steps clash_items file_final_name) clash_dir
       !! 0 = Some clash_dir
     ∧ rename_steps clash_items file_final_name !! 0
       = Some ("1.mp3", "__dftemp_001.mp3")
     ∧ clash_dir !! "__dftemp_001.mp3" = Some (File 2)).
Proof.
  split_and!.
  - unfold clash_items. apply NoDup_cons. split; [|apply NoDup_singleton].
    rewrite list_elem_of_singleton. discriminate.
  - intros x. unfold clash_items, clash_dir.
    rewrite !lookup_insert_is_Some', lookup_empty, !elem_of_cons, elem_of_nil.
    split; [intros [->|[->|[]]]; eauto|intros [->|[->|[? ?]]]; eauto; done].
  - apply file_final_name_inj.
  - vm_compute. reflexivity.
  - reflexivity.
  - reflexivity.
  - reflexivity.
Qed.

Lemma prefixed_final_name_inj i j :
  prefixed_final_name i = prefixed_final_name j → i = j.
Proof.
  destruct i as [|i], j as [|j]; simpl; [done| | |].
  - intros H. pose proof (folder_final_name_no_prefix (S j)) as Hp.
    rewrite <- H in Hp. by rewrite has_temp_prefix_temp in Hp.
  - intros H. pose proof (folder_final_name_no_prefix (S i)) as Hp.
    rewrite H in Hp. by rewrite has_temp_prefix_temp in Hp.
  - apply folder_final_name_inj.
Qed.

(** C10, as stated, fails. No listed name begins with the prefix, the names
    are distinct and are the names of the directory, the generator is
    one-to-one; but its first name is the temporary name of its second, so
    the third call has the current name of the other entry as its
    destination: that file is replaced, the call returns, and of two
    entries one is left. *)
Lemma prefixed_final_name_overwrites :
  NoDup plain_items
  ∧ (∀ x, x ∈ plain_items ↔ is_Some (plain_dir !! x))
  ∧ (∀ x, x ∈ plain_items → has_temp_prefix x = false)
  ∧ (∀ i j, prefixed_final_name i = prefixed_final_name j → i = j)
  ∧ rename_two_phase plain_items prefixed_final_name [] (World (Dir plain_dir) [])
    = (Ok [("a", "__dftemp_02"); ("b", "02")],
       World (Dir (<["02" := File 1]> ∅))
         [ERename [] "a" "__dftemp___dftemp_02";
          ERename [] "b" "__dftemp_02";
          ERename [] "__dftemp___dftemp_02" "__dftemp_02";
          ERename [] "__dftemp_02" "02"])
  ∧ (states_before (rename_steps plain_items prefixed_final_name) plain_dir !! 2
       = Some (<["__dftemp___dftemp_02" := File 1]> (<["__dftemp_02" := File 2]> ∅))
     ∧ rename_steps plain_items prefixed_final_name !! 2
       = Some ("__dftemp___dftemp_02", "__dftemp_02"))
  ∧ size plain_dir = 2
  ∧ size (<["02" := File 1]> (∅ : gmap string node)) = 1.
Proof.
  split_and!.
  - unfold plain_items. apply NoDup_cons. split; [|apply NoDup_singleton].
    rewrite list_elem_of_singleton. discriminate.
  - intros x. unfold plain_items, plain_dir.
    rewrite !lookup_insert_is_Some', lookup_empty, !elem_of_cons, elem_of_nil.
    split; [intros [->|[->|[]]]; eauto|intros [->|[->|[? ?]]]; eauto; done].
  - unfold plain_items. intros x. rewrite !elem_of_cons, elem_of_nil.
    intros [->|[->|[]]]; unfold has_temp_prefix, TEMP_PREFIX; cbn [String.prefix];
      match goal with
      | |- context [ascii_dec ?a ?b] =>
          destruct (ascii_dec a b) as [E|]; [discriminate E|done]
      end.
  - apply prefixed_final_name_inj.
  - vm_compute. reflexivity.
  - vm_compute. reflexivity.
  - reflexivity.
  - reflexivity.
  - reflexivity.
Qed.

(** ** The driver: listing, reporting *)

Section Driver.
Variable listing : gmap string node → list string.
Implicit Types d c : gmap string node.
Implicit Types w : world.

Lemma mbind_unfold {A B} (m : M A) (k : A → M B) w :
  mbind m k w = match m w with
                | (Ok a, w1) => k a w1
                | (Err e, w1) => (Err e, w1)
                end.
Proof. reflexivity. Qed.

Lemma print_spec s msg w :
  print s msg w = (Ok tt, World (tree w) (trace w ++ [EPrint s msg])).
Proof. reflexivity. Qed.

Lemma mfilter_pure {A} (p : A → M bool) (q : A → bool) l w :
  (∀ x, p x w = (Ok (q x), w)) →
  mfilter p l w = (Ok (List.filter q l), w).
Proof.
  intros Hp. induction l as [|x l IH]; [done|].
  simpl. unfold mbind. rewrite Hp, IH. unfold mret. by destruct (q x).
Qed.

Lemma resolve_snoc p x t :
  resolve (os_path_join p x) t
  = resolve p t ≫= λ n, match n with Dir c => c !! x | File _ => None end.
Proof.
  unfold os_path_join. revert t. induction p as [|y p IH]; intros t; simpl.
  - destruct t as [|c]; [done|]. by destruct (c !! x).
  - destruct t as [|c]; [done|]. destruct (c !! y) as [n|]; [|done].
    simpl. apply IH.
Qed.

Lemma collect_folders_spec root w d :
  resolve root (tree w) = Some (Dir d) →
  collect_folders listing root w = (sort_natural (folder_names listing d), w).
Proof.
  intros H. unfold collect_folders, mbind, os_listdir. rewrite H.
  rewrite (mfilter_pure _ (λ name, from_option is_dir false (d !! name))).
  - done.
  - intros x. unfold os_path_isdir. by rewrite resolve_snoc, H.
Qed.

Lemma collect_mp3s_spec folder_path w c :
  resolve folder_path (tree w) = Some (Dir c) →
  collect_mp3s listing folder_path w = (sort_natural (mp3_names listing c), w).
Proof.
  intros H. unfold collect_mp3s, mbind at 1, os_listdir. rewrite H.
  unfold mbind.
  rewrite (mfilter_pure _
    (λ name, from_option is_file false (c !! name) && is_mp3_name name)).
  - done.
  - intros x. unfold mbind, os_path_isfile, mret. by rewrite resolve_snoc, H.
Qed.

Lemma report_files_spec mapping w :
  report_files mapping w
  = (Ok tt, World (tree w) (trace w ++ (file_line <$> mapping))).
Proof.
  unfold report_files. revert w. induction mapping as [|[old new] m IH]; intros w.
  - simpl. unfold mret. rewrite app_nil_r. by destruct w.
  - cbn [mfor]. unfold mbind.
    assert (∀ msg, print Stdout msg w
              = (Ok tt, World (tree w) (trace w ++ [EPrint Stdout msg]))) as Hp by done.
    unfold file_line at 1. simpl.
    destruct (decide (old ≠ new)); rewrite Hp, IH; simpl;
      by rewrite <- app_assoc.
Qed.

Lemma report_folders_spec mapping w :
  report_folders mapping w
  = (Ok tt, World (tree w) (trace w ++ (folder_line <$> mapping))).
Proof.
  unfold report_folders. revert w. induction mapping as [|[old new] m IH]; intros w.
  - simpl. unfold mret. rewrite app_nil_r. by destruct w.
  - cbn [mfor]. unfold mbind.
    assert (∀ msg, print Stdout msg w
              = (Ok tt, World (tree w) (trace w ++ [EPrint Stdout msg]))) as Hp by done.
    unfold folder_line at 1. simpl.
    destruct (decide (old ≠ new)); rewrite Hp, IH; simpl;
      by rewrite <- app_assoc.
Qed.

(** One folder, when its files are renamed. *)
Lemma resolve_child x d c :
  d !! x = Some (Dir c) → resolve (os_path_join [] x) (Dir d) = Some (Dir c).
Proof. intros H. simpl. by rewrite H. Qed.

Lemma graft_child x d c c' :
  d !! x = Some (Dir c) → graft (os_path_join [] x) c' (Dir d) = Dir (<[x:=Dir c']> d).
Proof. intros H. simpl. by rewrite H. Qed.

(** The loop over the folders, when it runs to its end. *)
Lemma rename_files_in_ok folders total w d n w' :
  tree w = Dir d →
  rename_files_in listing [] folders total w = (Ok n, w') →
  ∃ d' tr k, files_renamed listing folders d d' tr k
           ∧ n = total + k ∧ w' = World (Dir d') (trace w ++ tr).
Proof.
  revert total w d n w'. induction folders as [|x rest IH]; intros total w d n w' Hw.
  - simpl. unfold mret. intros [= <- <-]. exists d, [], 0.
    split; [constructor|]. split; [lia|]. rewrite app_nil_r. destruct w; simpl in *.
    by subst.
  - cbn [rename_files_in]. unfold mbind at 1.
    destruct (resolve (os_path_join [] x) (tree w)) as [[|c]|] eqn:Hx.
    1,3: unfold collect_mp3s, mbind at 1, os_listdir; by rewrite Hx.
    rewrite (collect_mp3s_spec _ _ _ Hx).
    assert (d !! x = Some (Dir c)) as Hdx.
    { rewrite Hw in Hx. simpl in Hx. by destruct (d !! x). }
    destruct (sort_natural (mp3_names listing c)) as [mp3s|e] eqn:Hs; [|done].
    destruct mp3s as [|m0 mp3s].
    + unfold mbind at 1. simpl.
      intros H. apply IH with (d := d) in H as (d' & tr & k & Hfr & -> & ->); [|done].
      exists d', (EPrint Stdout (MsgNoMp3 x) :: tr), k.
      split; [by eapply files_renamed_skip|]. split; [done|].
      simpl. by rewrite <- app_assoc.
    + destruct (MAX_FILES_PER_FOLDER <? length (m0 :: mp3s)) eqn:Hlen.
      { unfold mbind. simpl. done. }
      apply Nat.ltb_ge in Hlen.
      unfold mbind at 1.
      rewrite (rename_two_phase_exec _ _ _ _ _ Hx).
      destruct (exec_renames _ c) as [[calls c'] [e|]] eqn:E; [done|].
      apply exec_renames_ok in E as [Hrun ->].
      rewrite mbind_unfold, print_spec, mbind_unfold, report_files_spec.
      intros H.
      apply IH with (d := <[x:=Dir c']> d) in H as (d' & tr & k & Hfr & -> & ->);
        [|simpl; rewrite Hw; by apply (graft_child _ _ c)].
      eexists d', _, _. split; [by eapply files_renamed_step|].
      split.
      { unfold mapping_of. rewrite length_imap. lia. }
      simpl. f_equal. rewrite <- ?app_assoc. simpl. by rewrite <- ?app_assoc.
Qed.

(** And conversely. *)
Lemma rename_files_in_run folders total w d d' tr k :
  tree w = Dir d →
  files_renamed listing folders d d' tr k →
  rename_files_in listing [] folders total w
  = (Ok (total + k), World (Dir d') (trace w ++ tr)).
Proof.
  intros Hw Hfr. revert total w Hw.
  induction Hfr as [d | x rest d c d' tr n Hx Hs Hfr IH
                      | x rest d c mp3s c' d' tr n Hx Hs Hne Hlen Hrun Hfr IH];
    intros total w Hw.
  - simpl. unfold mret. rewrite app_nil_r, Nat.add_0_r. destruct w; simpl in *.
    by subst.
  - cbn [rename_files_in]. unfold mbind at 1.
    rewrite (collect_mp3s_spec _ _ c) by (rewrite Hw; by apply resolve_child).
    rewrite Hs. unfold mbind at 1. simpl. rewrite (IH total) by done.
    simpl. by rewrite <- app_assoc.
  - cbn [rename_files_in]. unfold mbind at 1.
    assert (resolve (os_path_join [] x) (tree w) = Some (Dir c)) as Hres
      by (rewrite Hw; by apply resolve_child).
    rewrite (collect_mp3s_spec _ _ c Hres). rewrite Hs.
    destruct mp3s as [|m0 mp3s]; [done|].
    apply Nat.leb_le in Hlen as Hlen'.
    replace (MAX_FILES_PER_FOLDER <? length (m0 :: mp3s)) with false
      by (symmetry; apply Nat.ltb_ge; done).
    unfold mbind at 1. rewrite (rename_two_phase_run _ _ _ _ _ _ Hres Hrun).
    rewrite mbind_unfold, print_spec, mbind_unfold, report_files_spec.
    rewrite (IH (total + length (mapping_of (m0 :: mp3s) file_final_name))).
    2:{ simpl. rewrite Hw. by apply (graft_child _ _ c). }
    f_equal.
    { f_equal. unfold mapping_of. rewrite length_imap. lia. }
    simpl. f_equal. rewrite <- ?app_assoc. simpl. by rewrite <- ?app_assoc.
Qed.
End Driver.

Section Process.
Variable listing : gmap string node → list string.
Implicit Types d c : gmap string node.
Implicit Types w : world.

(** [process_sd_card] on a directory, when it returns. *)
Lemma process_sd_card_ok d tr0 w' :
  process_sd_card listing (World (Dir d) tr0) = (Ok tt, w') →
  ∃ folders, sort_natural (folder_names listing d) = Ok folders
    ∧ ((folders = [] ∧ w' = World (Dir d) (tr0 ++ [EPrint Stdout MsgNothingToDo]))
       ∨ (folders ≠ [] ∧ length folders ≤ MAX_FOLDERS
          ∧ ∃ d1 tr1 k d2,
              files_renamed listing folders d d1 tr1 k
              ∧ run_renames (rename_steps folders folder_final_name) d1 = Ok d2
              ∧ w' = World (Dir d2) (tr0 ++ tr1 ++ folder_phase_events folders k))).
Proof.
  unfold process_sd_card. rewrite mbind_unfold.
  change (os_path_isdir [] (World (Dir d) tr0)) with (Ok true, World (Dir d) tr0).
  cbv iota beta. change (negb true) with false. cbv iota.
  rewrite mbind_unfold, (collect_folders_spec listing [] _ d) by done.
  destruct (sort_natural (folder_names listing d)) as [folders|e] eqn:Hs; [|done].
  intros H. exists folders. split; [done|].
  destruct folders as [|f0 folders].
  { cbv beta iota in H. rewrite print_spec in H. injection H as <-. by left. }
  cbv beta iota in H. destruct (MAX_FOLDERS <? length (f0 :: folders)) eqn:Hlen.
  { by rewrite mbind_unfold, print_spec in H. }
  apply Nat.ltb_ge in Hlen. right. split; [done|]. split; [done|].
  rewrite mbind_unfold in H.
  destruct (rename_files_in listing [] (f0 :: folders) 0 _) as [[n|e] w1] eqn:Hloop;
    [|done].
  apply rename_files_in_ok with (d := d) in Hloop as (d1 & tr1 & k & Hfr & -> & ->);
    [|done].
  rewrite mbind_unfold in H.
  rewrite (rename_two_phase_exec _ _ [] _ d1) in H by done.
  destruct (exec_renames _ d1) as [[calls d2] [e|]] eqn:E; [done|].
  apply exec_renames_ok in E as [Hrun ->].
  rewrite mbind_unfold, print_spec, mbind_unfold, report_folders_spec, print_spec in H.
  injection H as <-. exists d1, tr1, k, d2. split; [done|]. split; [done|].
  simpl. f_equal. unfold folder_phase_events, mapping_of.
  rewrite length_imap. rewrite <- ?app_assoc. simpl. by rewrite <- ?app_assoc.
Qed.

(** And conversely. *)
Lemma process_sd_card_run d tr0 folders d1 tr1 k d2 :
  sort_natural (folder_names listing d) = Ok folders →
  folders ≠ [] → length folders ≤ MAX_FOLDERS →
  files_renamed listing folders d d1 tr1 k →
  run_renames (rename_steps folders folder_final_name) d1 = Ok d2 →
  process_sd_card listing (World (Dir d) tr0)
  = (Ok tt, World (Dir d2) (tr0 ++ tr1 ++ folder_phase_events folders k)).
Proof.
  intros Hs Hne Hlen Hfr Hrun.
  unfold process_sd_card. rewrite mbind_unfold.
  change (os_path_isdir [] (World (Dir d) tr0)) with (Ok true, World (Dir d) tr0).
  cbv iota beta. change (negb true) with false. cbv iota.
  rewrite mbind_unfold, (collect_folders_spec listing [] _ d) by done.
  rewrite Hs. destruct folders as [|f0 folders]; [done|]. cbv beta iota.
  replace (MAX_FOLDERS <? length (f0 :: folders)) with false
    by (symmetry; by apply Nat.ltb_ge).
  rewrite mbind_unfold.
  rewrite (rename_files_in_run listing _ 0 _ d d1 tr1 k) by done.
  rewrite mbind_unfold.
  rewrite (rename_two_phase_run _ _ [] _ d1 d2) by done.
  rewrite mbind_unfold, print_spec, mbind_unfold, report_folders_spec, print_spec.
  simpl. do 2 f_equal. unfold folder_phase_events, mapping_of.
  rewrite length_imap. rewrite <- ?app_assoc. simpl. by rewrite <- ?app_assoc.
Qed.

Lemma process_sd_card_nothing d tr0 :
  sort_natural (folder_names listing d) = Ok [] →
  process_sd_card listing (World (Dir d) tr0)
  = (Ok tt, World (Dir d) (tr0 ++ [EPrint Stdout MsgNothingToDo])).
Proof.
  intros Hs. unfold process_sd_card. rewrite mbind_unfold.
  change (os_path_isdir [] (World (Dir d) tr0)) with (Ok true, World (Dir d) tr0).
  cbv iota beta. change (negb true) with false. cbv iota.
  rewrite mbind_unfold, (collect_folders_spec listing [] _ d) by done.
  rewrite Hs. cbv beta iota. by rewrite print_spec.
Qed.
End Process.

(** ** What one call of rename_two_phase by the driver achieves *)

Section Phase.
Implicit Types d : gmap string node.
(** The driver renames the entries of one kind ([K]: directories, or
    regular files) whose names it selects ([sel]). *)
Variable K : bool.
Variable sel : string → bool.
Variable mk : nat → string.
Variable items : list string.
Variable d : gmap string node.

Hypothesis Hnd : NoDup items.
Hypothesis Hitems :
  ∀ x, x ∈ items ↔ ∃ v, d !! x = Some v ∧ is_dir v = K ∧ sel x = true.
Hypothesis Hinj : ∀ i j, mk i = mk j → i = j.
Hypothesis Hfp : ∀ i, has_temp_prefix (mk i) = false.
Hypothesis Hsel : ∀ i, sel (mk i) = true ∧ sel (temp_name mk i) = true.

Lemma phase_sep i j : temp_name mk i ≠ mk j.
Proof using Hfp. apply has_temp_prefix_ne; [apply has_temp_prefix_temp | apply Hfp]. Qed.

Lemma phase_result d' :
  run_renames (rename_steps items mk) d = Ok d' →
  (∀ i x, items !! i = Some x → d' !! mk i = d !! x)
  ∧ (∀ x, (∀ i, i < length items → x ≠ mk i) →
          d' !! x = if decide (x ∈ items) then None else d !! x)
  ∧ (∀ i, i < length items → d' !! temp_name mk i = None)
  ∧ (∀ x, (∃ v, d' !! x = Some v ∧ is_dir v = K ∧ sel x = true)
          ↔ ∃ i, i < length items ∧ x = mk i).
Proof using All.
  intros Hrun.
  destruct (two_phase_success items mk Hnd) with (d := d) (d' := d') (K := K)
    as [Hfree Hclean]; [by auto|by intros; apply phase_sep|done| | |].
  { intros x (v & Hv & Hk & _)%Hitems. eauto. }
  { intros i x v Hi Hx Hnot Hv Hk. apply Hnot, Hitems. exists v.
    split; [done|]. split; [done|]. destruct Hx as [-> | ->]; apply Hsel. }
  destruct (two_phase_clean items mk Hnd) with (d := d)
    as (d'' & Hrun' & Hmove & Hrest & _); [by auto|by intros; apply phase_sep| | | |].
  { intros x (v & Hv & _)%Hitems. eauto. }
  { done. }
  { done. }
  assert (d'' = d') as -> by congruence.
  assert (∀ i, i < length items → d' !! temp_name mk i = None) as Htemp.
  { intros i Hi. rewrite Hrest by (intros j _; apply phase_sep).
    case_decide as Hin; [done|]. destruct (d !! temp_name mk i) eqn:E; [|done].
    exfalso. apply Hin. apply (Hclean i); [done|by left|by rewrite E]. }
  split_and!; [done..|].
  intros x. split.
  - intros (v & Hv & Hk & Hs).
    destruct (decide (x ∈ mk <$> seq 0 (length items))) as [Hin|Hnot].
    { by apply elem_of_fmap_seq in Hin. }
    exfalso. rewrite Hrest in Hv.
    + case_decide as Hit; [done|]. apply Hit, Hitems. eauto.
    + intros i Hi ->. apply Hnot, elem_of_fmap_seq. eauto.
  - intros (i & Hi & ->). apply lookup_lt_is_Some in Hi as [y Hy].
    rewrite (Hmove _ _ Hy).
    assert (y ∈ items) as (v & Hv & Hk & _)%Hitems by by eapply list_elem_of_lookup_2.
    exists v. split; [done|]. split; [done|]. apply Hsel.
Qed.

(** On names that are already the final ones the calls succeed and leave
    the directory as it is. *)
Lemma phase_idle :
  items = mk <$> seq 0 (length items) →
  (∀ i, i < length items → d !! temp_name mk i = None) →
  run_renames (rename_steps items mk) d = Ok d.
Proof using Hnd Hitems Hinj Hfp.
  intros Heq Htemp.
  assert (∀ i x, items !! i = Some x → x = mk i) as Hfinal.
  { intros i x Hx. rewrite Heq in Hx. rewrite list_lookup_fmap in Hx.
    destruct (seq 0 (length items) !! i) as [j|] eqn:E; [|done].
    apply lookup_seq in E as [-> _]. by injection Hx as <-. }
  destruct (two_phase_clean items mk Hnd) with (d := d)
    as (d' & Hrun & Hmove & Hrest & _); [by auto|by intros; apply phase_sep| | | |].
  { intros x (v & Hv & _)%Hitems. eauto. }
  { intros i j x _ Hx. rewrite (Hfinal _ _ Hx). apply phase_sep. }
  { intros i x Hi [-> | ->] Hx.
    - rewrite Htemp in Hx by done. by destruct Hx.
    - rewrite Heq. apply elem_of_fmap_seq. eauto. }
  rewrite Hrun. f_equal. apply map_eq. intros x.
  destruct (decide (x ∈ items)) as [Hin|Hnot].
  - apply list_elem_of_lookup in Hin as (i & Hi).
    rewrite (Hfinal _ _ Hi). rewrite (Hmove _ _ Hi). by rewrite <- (Hfinal _ _ Hi).
  - rewrite Hrest; [by rewrite decide_False|].
    intros i Hi ->. apply Hnot. rewrite Heq. apply elem_of_fmap_seq. eauto.
Qed.
End Phase.

(** ** What the listings hold *)

Section Listing.
Variable listing : gmap string node → list string.
Hypothesis Hls : listing_ok listing.
Implicit Types d c : gmap string node.

Lemma elem_of_folder_names d x :
  x ∈ folder_names listing d
  ↔ ∃ v, d !! x = Some v ∧ is_dir v = true ∧ (λ _ : string, true) x = true.
Proof using Hls.
  unfold folder_names. rewrite list_elem_of_In, filter_In, <- list_elem_of_In.
  rewrite (proj2 (Hls d)). split.
  - intros [[v Hv] H]. rewrite Hv in H. eauto.
  - intros (v & Hv & H & _). rewrite Hv. eauto.
Qed.

Lemma elem_of_mp3_names c x :
  x ∈ mp3_names listing c
  ↔ ∃ v, c !! x = Some v ∧ is_dir v = false ∧ is_mp3_name x = true.
Proof using Hls.
  unfold mp3_names. rewrite list_elem_of_In, filter_In, <- list_elem_of_In.
  rewrite (proj2 (Hls c)). split.
  - intros [[v Hv] H]. rewrite Hv in H. apply andb_true_iff in H as [H1 H2].
    exists v. by destruct v.
  - intros (v & Hv & H1 & H2). rewrite Hv. split; [eauto|]. by destruct v.
Qed.

Lemma folder_names_NoDup d : NoDup (folder_names listing d).
Proof using Hls.
  apply NoDup_ListNoDup, List.NoDup_filter, NoDup_ListNoDup, Hls.
Qed.

Lemma mp3_names_NoDup c : NoDup (mp3_names listing c).
Proof using Hls.
  apply NoDup_ListNoDup, List.NoDup_filter, NoDup_ListNoDup, Hls.
Qed.
End Listing.

Section Loop.
Variable listing : gmap string node → list string.
Hypothesis Hls : listing_ok listing.
Implicit Types d c : gmap string node.

(** The loop leaves alone what is not one of its folders. *)
Lemma files_renamed_frame folders d d' tr n y :
  files_renamed listing folders d d' tr n → y ∉ folders → d' !! y = d !! y.
Proof.
  induction 1 as [d | x rest d c d' tr n Hx Hs Hfr IH
                    | x rest d c mp3s c' d' tr n Hx Hs Hne Hlen Hrun Hfr IH];
    [done| |]; intros [Hyx Hy]%not_elem_of_cons.
  - by apply IH.
  - rewrite IH by done. by rewrite lookup_insert_ne.
Qed.

(** Each folder holds, at the end, what the renames of its files led to. *)
Lemma files_renamed_folder folders d d' tr n x :
  files_renamed listing folders d d' tr n → NoDup folders → x ∈ folders →
  ∃ c mp3s c',
    d !! x = Some (Dir c)
    ∧ sort_natural (mp3_names listing c) = Ok mp3s
    ∧ length mp3s ≤ MAX_FILES_PER_FOLDER
    ∧ run_renames (rename_steps mp3s file_final_name) c = Ok c'
    ∧ d' !! x = Some (Dir c')
    ∧ (mp3s = [] → EPrint Stdout (MsgNoMp3 x) ∈ tr).
Proof.
  induction 1 as [d | y rest d c d' tr n Hy Hs Hfr IH
                    | y rest d c mp3s c' d' tr n Hy Hs Hne Hlen Hrun Hfr IH].
  - by intros _ ?%elem_of_nil.
  - intros [Hnot Hnd]%NoDup_cons [->|Hin]%elem_of_cons.
    + exists c, [], c. split_and!; [done..|simpl; lia|done| |].
      * by rewrite (files_renamed_frame _ _ _ _ _ _ Hfr Hnot).
      * intros _. by left.
    + destruct (IH Hnd Hin) as (c0 & mp3s & c' & ? & ? & ? & ? & ? & Hw).
      exists c0, mp3s, c'. split_and!; [done..|]. intros ?. right. by apply Hw.
  - intros [Hnot Hnd]%NoDup_cons [->|Hin]%elem_of_cons.
    + exists c, mp3s, c'. split_and!; [done..| |done].
      rewrite (files_renamed_frame _ _ _ _ _ _ Hfr Hnot). apply lookup_insert_eq.
    + destruct (IH Hnd Hin) as (c0 & mp3s0 & c0' & Hc0 & ? & ? & ? & ? & Hw).
      rewrite lookup_insert_ne in Hc0 by (intros ->; done).
      exists c0, mp3s0, c0'. split_and!; [done..|]. intros Hnil.
      apply elem_of_app. right. right. apply elem_of_app. right. by apply Hw.
Qed.

(** The renames of the loop are renames of files, inside folders that hold
    mp3 files. *)
Lemma files_renamed_renames folders d d' tr n b s t :
  files_renamed listing folders d d' tr n → NoDup folders →
  ERename b s t ∈ tr →
  ∃ x c mp3s, b = [x] ∧ x ∈ folders ∧ d !! x = Some (Dir c)
            ∧ sort_natural (mp3_names listing c) = Ok mp3s ∧ mp3s ≠ [].
Proof.
  induction 1 as [d | y rest d c d' tr n Hy Hs Hfr IH
                    | y rest d c mp3s c' d' tr n Hy Hs Hne Hlen Hrun Hfr IH].
  - by intros _ ?%elem_of_nil.
  - intros [Hnot Hnd]%NoDup_cons [?|Hin]%elem_of_cons; [done|].
    destruct (IH Hnd Hin) as (x & c0 & m & -> & ? & ? & ? & ?).
    exists x, c0, m. split_and!; [done| |done..]. by right.
  - intros [Hnot Hnd]%NoDup_cons [Hin|[?|Hin]%elem_of_cons]%elem_of_app; [|done|].
    + apply list_elem_of_fmap in Hin as ([s' t'] & [= -> -> ->] & _).
      exists y, c, mp3s. split_and!; [done| |done..]. by left.
    + apply elem_of_app in Hin as [Hin|Hin].
      { apply list_elem_of_fmap in Hin as (p & Hp & _). done. }
      destruct (IH Hnd Hin) as (x & c0 & m & -> & Hx & Hc0 & ? & ?).
      rewrite lookup_insert_ne in Hc0 by (intros ->; done).
      exists x, c0, m. split_and!; [done| |done..]. by right.
Qed.
End Loop.

Section Run.
Variable listing : gmap string node → list string.
Hypothesis Hls : listing_ok listing.
Implicit Types d c : gmap string node.

Lemma sorted_folders d folders :
  sort_natural (folder_names listing d) = Ok folders →
  NoDup folders
  ∧ ∀ x, x ∈ folders ↔ ∃ v, d !! x = Some v ∧ is_dir v = true
                             ∧ (λ _ : string, true) x = true.
Proof using Hls.
  intros Hp%sort_natural_perm. split.
  - rewrite Hp. by apply folder_names_NoDup.
  - intros x. rewrite Hp. by apply elem_of_folder_names.
Qed.

Lemma sorted_mp3s c mp3s :
  sort_natural (mp3_names listing c) = Ok mp3s →
  NoDup mp3s
  ∧ ∀ x, x ∈ mp3s ↔ ∃ v, c !! x = Some v ∧ is_dir v = false ∧ is_mp3_name x = true.
Proof using Hls.
  intros Hp%sort_natural_perm. split.
  - rewrite Hp. by apply mp3_names_NoDup.
  - intros x. rewrite Hp. by apply elem_of_mp3_names.
Qed.

(** The files of one folder after their renames. *)
Lemma folder_files_result c mp3s c' :
  sort_natural (mp3_names listing c) = Ok mp3s →
  run_renames (rename_steps mp3s file_final_name) c = Ok c' →
  (∀ j y, mp3s !! j = Some y → c' !! file_final_name j = c !! y)
  ∧ (∀ y, (∀ j, j < length mp3s → y ≠ file_final_name j) →
          c' !! y = if decide (y ∈ mp3s) then None else c !! y)
  ∧ (∀ j, j < length mp3s → c' !! temp_name file_final_name j = None)
  ∧ (∀ y, (∃ v, c' !! y = Some v ∧ is_dir v = false ∧ is_mp3_name y = true)
          ↔ ∃ j, j < length mp3s ∧ y = file_final_name j).
Proof using Hls.
  intros [Hnd Hin]%sorted_mp3s Hrun.
  apply (phase_result false is_mp3_name file_final_name mp3s c); try done.
  - apply file_final_name_inj.
  - apply file_final_name_no_prefix.
  - intros i. split; [apply file_final_name_mp3 | apply temp_file_name_mp3].
Qed.

(** The root after the renames of the folders. *)
Lemma root_folders_result d folders d1 tr1 k d2 :
  sort_natural (folder_names listing d) = Ok folders →
  files_renamed listing folders d d1 tr1 k →
  run_renames (rename_steps folders folder_final_name) d1 = Ok d2 →
  (∀ i x, folders !! i = Some x → d2 !! folder_final_name i = d1 !! x)
  ∧ (∀ y, (∀ i, i < length folders → y ≠ folder_final_name i) →
          d2 !! y = if decide (y ∈ folders) then None else d1 !! y)
  ∧ (∀ i, i < length folders → d2 !! temp_name folder_final_name i = None)
  ∧ (∀ y, (∃ v, d2 !! y = Some v ∧ is_dir v = true ∧ (λ _ : string, true) y = true)
          ↔ ∃ i, i < length folders ∧ y = folder_final_name i).
Proof using Hls.
  intros [Hnd Hin]%sorted_folders Hfr Hrun.
  apply (phase_result true (λ _, true) folder_final_name folders d1); try done.
  - intros x. split.
    + intros Hx.
      destruct (files_renamed_folder listing _ _ _ _ _ x Hfr Hnd Hx)
        as (c & mp3s & c' & _ & _ & _ & _ & Hd1 & _).
      exists (Dir c'). by rewrite Hd1.
    + intros (v & Hv & Hk & _). destruct (decide (x ∈ folders)) as [|Hnot]; [done|].
      rewrite (files_renamed_frame listing _ _ _ _ _ _ Hfr Hnot) in Hv.
      apply Hin. eauto.
  - apply folder_final_name_inj.
  - apply folder_final_name_no_prefix.
Qed.

Lemma is_dir_false v : is_dir v = false ↔ ∃ n, v = File n.
Proof. destruct v; simpl; split; eauto; try done. by intros [? ?]. Qed.

Lemma is_dir_true v : is_dir v = true ↔ ∃ c, v = Dir c.
Proof. destruct v; simpl; split; eauto; try done. by intros [? ?]. Qed.

(** What a run that returns leaves: the folders found are at most 99 and
    bear the names 01 .. NN in the order found, the mp3 files found in a
    folder are at most 255 and bear the names 001.mp3 .. MMM.mp3 in the
    order found, and the other entries are as they were. *)
Lemma process_sd_card_result d tr0 w' :
  process_sd_card listing (World (Dir d) tr0) = (Ok tt, w') →
  ∃ folders d',
    collect_folders listing [] (World (Dir d) tr0) = (Ok folders, World (Dir d) tr0)
    ∧ length folders ≤ MAX_FOLDERS
    ∧ tree w' = Dir d'
    ∧ NoDup (folder_final_name <$> seq 0 (length folders))
    ∧ (∀ x, (∃ c, d' !! x = Some (Dir c))
            ↔ ∃ i, i < length folders ∧ x = folder_final_name i)
    ∧ (∀ y, (∀ i, i < length folders → y ≠ folder_final_name i) →
            d' !! y = if decide (y ∈ folders) then None else d !! y)
    ∧ ∀ i x, folders !! i = Some x →
        ∃ c mp3s c',
          d !! x = Some (Dir c)
          ∧ collect_mp3s listing [x] (World (Dir d) tr0)
            = (Ok mp3s, World (Dir d) tr0)
          ∧ length mp3s ≤ MAX_FILES_PER_FOLDER
          ∧ d' !! folder_final_name i = Some (Dir c')
          ∧ NoDup (file_final_name <$> seq 0 (length mp3s))
          ∧ (∀ y, (∃ n, c' !! y = Some (File n) ∧ is_mp3_name y = true)
                  ↔ ∃ j, j < length mp3s ∧ y = file_final_name j)
          ∧ (∀ j y, mp3s !! j = Some y → c' !! file_final_name j = c !! y)
          ∧ (∀ y, (∀ j, j < length mp3s → y ≠ file_final_name j) →
                  c' !! y = if decide (y ∈ mp3s) then None else c !! y).
Proof using Hls.
  intros (folders & Hs & Hcase)%process_sd_card_ok.
  destruct (sorted_folders _ _ Hs) as [Hnd Hin].
  assert (collect_folders listing [] (World (Dir d) tr0)
          = (Ok folders, World (Dir d) tr0)) as Hcf
    by by rewrite (collect_folders_spec listing [] _ d), Hs.
  destruct Hcase as [[-> ->] | (Hne & Hlen & d1 & tr1 & k & d2 & Hfr & Hrun & ->)].
  - exists [], d. split_and!; [done|simpl; lia|done|constructor| | |].
    + intros x. split.
      * intros [c Hc]. exfalso. eapply elem_of_nil, Hin. eauto.
      * intros (i & Hi & _). simpl in Hi. lia.
    + intros y _. by rewrite decide_False by apply not_elem_of_nil.
    + by intros i x ?.
  - destruct (root_folders_result _ _ _ _ _ _ Hs Hfr Hrun)
      as (Hmove & Hrest & _ & Hdirs).
    exists folders, d2.
    split_and!; [done..|apply NoDup_fmap_seq; intros; by apply folder_final_name_inj
                | | |].
    + intros x. rewrite <- Hdirs. split.
      * intros [c Hc]. eauto.
      * intros (v & Hv & [c ->]%is_dir_true & _). eauto.
    + intros y Hy. rewrite (Hrest _ Hy). case_decide as Hyin; [done|].
      by apply (files_renamed_frame listing _ _ _ _ _ _ Hfr).
    + intros i x Hi.
      destruct (files_renamed_folder listing _ _ _ _ _ x Hfr Hnd)
        as (c & mp3s & c' & Hc & Hsm & Hlm & Hrunm & Hd1 & _);
        [by eapply list_elem_of_lookup_2|].
      destruct (folder_files_result _ _ _ Hsm Hrunm)
        as (Hfmove & Hfrest & _ & Hfiles).
      exists c, mp3s, c'. split_and!; [done| |done| | | |done|done].
      * rewrite (collect_mp3s_spec listing _ _ c); [by rewrite Hsm|].
        simpl. by rewrite Hc.
      * by rewrite (Hmove _ _ Hi).
      * apply NoDup_fmap_seq. intros; by apply file_final_name_inj.
      * intros y. rewrite <- Hfiles. split.
        -- intros (n & Hn & Hm). eauto.
        -- intros (v & Hv & [n ->]%is_dir_false & Hm). eauto.
Qed.

(** C8. When [process_sd_card] returns, a folder without any regular file
    with an mp3 name has had its warning printed and no rename issued
    inside it, and it has been renamed with the other folders: the two
    renames of the folder are in the trace and what the folder holds is
    now under its two-digit name. *)
Theorem folder_without_mp3 d tr0 w' folders i x c :
  process_sd_card listing (World (Dir d) tr0) = (Ok tt, w') →
  collect_folders listing [] (World (Dir d) tr0) = (Ok folders, World (Dir d) tr0) →
  folders !! i = Some x →
  d !! x = Some (Dir c) →
  (∀ y n, c !! y = Some (File n) → is_mp3_name y = false) →
  ∃ d' tr,
    w' = World (Dir d') (tr0 ++ tr)
    ∧ EPrint Stdout (MsgNoMp3 x) ∈ tr
    ∧ (∀ s t, ERename [x] s t ∉ tr)
    ∧ ERename [] x (temp_name folder_final_name i) ∈ tr
    ∧ ERename [] (temp_name folder_final_name i) (folder_final_name i) ∈ tr
    ∧ d' !! folder_final_name i = Some (Dir c).
Proof using Hls.
  intros (folders' & Hs & Hcase)%process_sd_card_ok Hcf Hi Hc Hnone.
  rewrite (collect_folders_spec listing [] _ d), Hs in Hcf by done.
  injection Hcf as <-.
  destruct (sorted_folders _ _ Hs) as [Hnd Hin].
  destruct Hcase as [[-> ->] | (Hne & Hlen & d1 & tr1 & k & d2 & Hfr & Hrun & ->)];
    [done|].
  assert (mp3_names listing c = []) as Hempty.
  { apply elem_of_nil_inv. intros y Hy.
    apply elem_of_mp3_names in Hy as (v & Hv & [n ->]%is_dir_false & Hm); [|done].
    by rewrite (Hnone _ _ Hv) in Hm. }
  assert (x ∈ folders') as Hx by by eapply list_elem_of_lookup_2.
  destruct (files_renamed_folder listing _ _ _ _ _ x Hfr Hnd Hx)
    as (c0 & mp3s & c' & Hc0 & Hsm & _ & Hrunm & Hd1 & Hwarn).
  assert (c0 = c) as -> by congruence.
  rewrite Hempty in Hsm. injection Hsm as <-. injection Hrunm as <-.
  destruct (root_folders_result _ _ _ _ _ _ Hs Hfr Hrun) as (Hmove & _).
  exists d2, (tr1 ++ folder_phase_events folders' k).
  split_and!.
  - done.
  - apply elem_of_app. left. by apply Hwarn.
  - intros s t [Hin1|Hin2]%elem_of_app.
    + destruct (files_renamed_renames listing _ _ _ _ _ _ _ _ Hfr Hnd Hin1)
        as (x' & c1 & m & [= <-] & _ & Hc1 & Hm & Hmne).
      assert (c1 = c) as -> by congruence.
      rewrite Hempty in Hm. by injection Hm as <-.
    + unfold folder_phase_events in Hin2.
      apply elem_of_app in Hin2 as [Hin2|[?|Hin2]%elem_of_cons]; [|done|].
      * by apply list_elem_of_fmap in Hin2 as ([??] & ? & _).
      * apply elem_of_app in Hin2 as [Hin2|?%list_elem_of_singleton]; [|done].
        by apply list_elem_of_fmap in Hin2 as (? & ? & _).
  - apply elem_of_app. right. unfold folder_phase_events, rename_steps.
    apply elem_of_app. left. apply list_elem_of_fmap.
    exists (x, temp_name folder_final_name i). split; [done|].
    apply elem_of_app. left. apply elem_of_phase1_steps. eauto.
  - apply elem_of_app. right. unfold folder_phase_events, rename_steps.
    apply elem_of_app. left. apply list_elem_of_fmap.
    exists (temp_name folder_final_name i, folder_final_name i). split; [done|].
    apply elem_of_app. right. apply elem_of_phase2_steps. exists i.
    split; [by eapply lookup_lt_Some | done].
  - by rewrite (Hmove _ _ Hi).
Qed.
End Run.

Lemma mapping_of_final mk n :
  mapping_of (mk <$> seq 0 n) mk = (λ j, (mk j, mk j)) <$> seq 0 n.
Proof.
  apply list_eq. intros i. rewrite mapping_of_lookup, !list_lookup_fmap.
  destruct (seq 0 n !! i) as [j|] eqn:E; [|done].
  apply lookup_seq in E as [-> _]. done.
Qed.

Lemma file_line_same x : file_line (x, x) = EPrint Stdout (MsgFileUnchanged x).
Proof. unfold file_line. simpl. by rewrite decide_False by (intros ?; done). Qed.

Lemma folder_line_same x : folder_line (x, x) = EPrint Stdout (MsgFolderUnchanged x).
Proof. unfold folder_line. simpl. by rewrite decide_False by (intros ?; done). Qed.

Section Again.
Variable listing : gmap string node → list string.
Hypothesis Hls : listing_ok listing.
Implicit Types d c : gmap string node.

Lemma canonical_folder_settled c m :
  canonical_folder c m → settled_files listing c m.
Proof using Hls.
  intros (Hm & Hfiles & Htemp).
  assert (∀ y, (∃ v, c !! y = Some v ∧ is_dir v = false ∧ is_mp3_name y = true)
               ↔ ∃ j, j < m ∧ y = file_final_name j) as Hfiles'.
  { intros y. rewrite <- Hfiles. split.
    - intros (v & Hv & [n ->]%is_dir_false & Hy). eauto.
    - intros (n & Hn & Hy). eauto. }
  assert (NoDup (file_final_name <$> seq 0 m)) as Hnd
    by (apply NoDup_fmap_seq; intros; by apply file_final_name_inj).
  assert (mp3_names listing c ≡ₚ file_final_name <$> seq 0 m) as Hperm.
  { apply NoDup_Permutation; [by apply mp3_names_NoDup|done|].
    intros y. rewrite (elem_of_mp3_names listing Hls), Hfiles'.
    by rewrite elem_of_fmap_seq. }
  assert (sort_natural (mp3_names listing c) = Ok (file_final_name <$> seq 0 m))
    as Hsorted.
  { apply (sort_natural_canonical _ [TStr ".mp"; TInt 3; TStr EmptyString]); [|done].
    intros i _. apply file_final_name_key. }
  split_and!; [done..| |].
  - apply (phase_idle false is_mp3_name file_final_name);
      [exact Hnd| |apply file_final_name_inj|apply file_final_name_no_prefix| |].
    + intros y. by rewrite elem_of_fmap_seq, Hfiles'.
    + by rewrite length_fmap, length_seq.
    + intros i. rewrite length_fmap, length_seq. apply Htemp.
  - intros y n Hy Hmp. apply Hfiles. eauto.
Qed.

(** What a run that returned leaves is canonical. *)
Lemma folder_canonical_after c mp3s c' :
  sort_natural (mp3_names listing c) = Ok mp3s →
  length mp3s ≤ MAX_FILES_PER_FOLDER →
  run_renames (rename_steps mp3s file_final_name) c = Ok c' →
  canonical_folder c' (length mp3s).
Proof using Hls.
  intros Hs Hlen Hrun.
  destruct (folder_files_result listing Hls _ _ _ Hs Hrun) as (_ & _ & Htemp & Hfiles).
  split_and!; [done| |done].
  intros y. rewrite <- Hfiles. split.
  - intros (n & Hn & Hy). eauto.
  - intros (v & Hv & [n ->]%is_dir_false & Hy). eauto.
Qed.

Lemma process_sd_card_leaves_canonical w w1 :
  process_sd_card listing w = (Ok tt, w1) →
  ∃ d, tree w1 = Dir d ∧ canonical_root d.
Proof using Hls.
  destruct w as [[n|d] tr0]; [done|].
  intros (folders & Hs & Hcase)%process_sd_card_ok.
  destruct (sorted_folders listing Hls _ _ Hs) as [Hnd Hin].
  destruct Hcase as [[-> ->] | (Hne & Hlen & d1 & tr1 & k & d2 & Hfr & Hrun & ->)].
  - exists d. split; [done|]. exists 0.
    assert (∀ x c, d !! x = Some (Dir c) → False) as Hnone.
    { intros x c Hx. eapply elem_of_nil, Hin. exists (Dir c). eauto. }
    split_and!; [lia| |intros; lia|].
    + intros x. split; [intros [c Hc]; by destruct (Hnone _ _ Hc)|].
      intros (i & Hi & _). lia.
    + intros x c Hc. by destruct (Hnone _ _ Hc).
  - destruct (root_folders_result listing Hls _ _ _ _ _ _ Hs Hfr Hrun)
      as (Hmove & _ & Htemp & Hdirs).
    exists d2. split; [done|]. exists (length folders).
    assert (∀ x, (∃ c, d2 !! x = Some (Dir c))
                 ↔ ∃ i, i < length folders ∧ x = folder_final_name i) as Hdirs'.
    { intros x. rewrite <- Hdirs. split.
      - intros [c Hc]. eauto.
      - intros (v & Hv & [c ->]%is_dir_true & _). eauto. }
    split_and!; [done..|].
    intros x c Hc. destruct (proj1 (Hdirs' x)) as (i & Hi & ->); [eauto|].
    apply lookup_lt_is_Some in Hi as [y Hy].
    destruct (files_renamed_folder listing _ _ _ _ _ y Hfr Hnd)
      as (c0 & mp3s & c' & Hc0 & Hsm & Hlm & Hrunm & Hd1 & _);
      [by eapply list_elem_of_lookup_2|].
    rewrite (Hmove _ _ Hy), Hd1 in Hc. injection Hc as <-.
    exists (length mp3s). by eapply folder_canonical_after.
Qed.

(** The loop of a further run over settled folders. *)
Lemma files_renamed_settled folders d :
  (∀ x, x ∈ folders → ∃ c m, d !! x = Some (Dir c) ∧ settled_files listing c m) →
  ∃ tr k, files_renamed listing folders d d tr k
        ∧ Forall (λ e, reports_change e = false) tr
        ∧ ∀ x c y n, x ∈ folders → d !! x = Some (Dir c) →
                     c !! y = Some (File n) → is_mp3_name y = true →
                     EPrint Stdout (MsgFileUnchanged y) ∈ tr.
Proof.
  induction folders as [|x rest IH]; intros Hall.
  { exists [], 0. split; [constructor|]. split; [constructor|].
    by intros ???? ?%elem_of_nil. }
  destruct IH as (tr & k & Hfr & Hquiet & Hlines).
  { intros y Hy. apply Hall. by right. }
  destruct (Hall x) as (c & m & Hc & Hs & Hm & Hrun & Hfiles); [by left|].
  destruct m as [|m].
  - exists (EPrint Stdout (MsgNoMp3 x) :: tr), k.
    split; [by eapply files_renamed_skip|]. split; [by constructor|].
    intros x' c' y n [->|Hx']%elem_of_cons Hc' Hy Hmp3.
    + assert (c' = c) as -> by congruence.
      destruct (Hfiles _ _ Hy Hmp3) as (j & Hj & _). lia.
    + right. by eapply Hlines.
  - eexists _, _. split.
    { eapply files_renamed_step; [done..| |exact Hrun|].
      - by rewrite length_fmap, length_seq.
      - by rewrite insert_id. }
    rewrite mapping_of_final, <- list_fmap_compose.
    split.
    + apply Forall_app. split; [by apply Forall_fmap, Forall_forall|].
      constructor; [done|]. apply Forall_app. split; [|done].
      apply Forall_fmap, Forall_forall. intros j _. unfold compose.
      by rewrite file_line_same.
    + intros x' c' y n [->|Hx']%elem_of_cons Hc' Hy Hmp3.
      * assert (c' = c) as -> by congruence.
        destruct (Hfiles _ _ Hy Hmp3) as (j & Hj & ->).
        apply elem_of_app. right. right. apply elem_of_app. left.
        apply list_elem_of_fmap. exists j. split.
        { unfold compose. by rewrite file_line_same. }
        apply elem_of_seq. lia.
      * apply elem_of_app. right. right. apply elem_of_app. right.
        by eapply Hlines.
Qed.

(** A run on a canonical root. *)
Lemma process_sd_card_on_canonical d tr1 :
  canonical_root d →
  ∃ tr2,
    process_sd_card listing (World (Dir d) tr1) = (Ok tt, World (Dir d) (tr1 ++ tr2))
    ∧ Forall (λ e, reports_change e = false) tr2
    ∧ ∀ x c, d !! x = Some (Dir c) →
        EPrint Stdout (MsgFolderUnchanged x) ∈ tr2
        ∧ ∀ y n, c !! y = Some (File n) → is_mp3_name y = true →
            EPrint Stdout (MsgFileUnchanged y) ∈ tr2.
Proof using Hls.
  intros (n & Hn & Hdirs & Htemp & Hfolders).
  set (finals := folder_final_name <$> seq 0 n).
  assert (NoDup finals) as Hndf
    by (apply NoDup_fmap_seq; intros; by apply folder_final_name_inj).
  assert (∀ x, x ∈ finals ↔ ∃ v, d !! x = Some v ∧ is_dir v = true
                               ∧ (λ _ : string, true) x = true) as Hfin.
  { intros x. unfold finals. rewrite elem_of_fmap_seq, <- Hdirs. split.
    - intros [c Hc]. exists (Dir c). eauto.
    - intros (v & Hv & [c ->]%is_dir_true & _). eauto. }
  assert (sort_natural (folder_names listing d) = Ok finals) as Hs.
  { apply (sort_natural_canonical _ [TStr EmptyString]).
    - intros i _. apply folder_final_name_key.
    - apply NoDup_Permutation; [by apply folder_names_NoDup|done|].
      intros x. rewrite (elem_of_folder_names listing Hls). symmetry. apply Hfin. }
  assert (length finals = n) as Hlenf
    by (unfold finals; by rewrite length_fmap, length_seq).
  destruct n as [|n'].
  { exists [EPrint Stdout MsgNothingToDo].
    split; [by apply process_sd_card_nothing|]. split; [by repeat constructor|].
    intros x c Hx. destruct (proj1 (Hdirs x)) as (i & Hi & _); [eauto|lia]. }
  destruct (files_renamed_settled finals d) as (tr2 & k2 & Hfr2 & Hquiet & Hlines).
  { intros x (v & Hv & [c ->]%is_dir_true & _)%Hfin.
    destruct (Hfolders _ _ Hv) as [m Hm].
    exists c, m. split; [done|]. by apply canonical_folder_settled. }
  assert (run_renames (rename_steps finals folder_final_name) d = Ok d) as Hrun.
  { apply (phase_idle true (λ _, true) folder_final_name);
      [exact Hndf|exact Hfin|apply folder_final_name_inj
      |apply folder_final_name_no_prefix| |].
    - by rewrite Hlenf.
    - intros i. rewrite Hlenf. apply Htemp. }
  exists (tr2 ++ folder_phase_events finals k2). split.
  { apply process_sd_card_run with (d1 := d); try done.
    by rewrite Hlenf. }
  split.
  - apply Forall_app. split; [done|]. unfold folder_phase_events.
    apply Forall_app. split; [by apply Forall_fmap, Forall_forall|].
    constructor; [done|]. apply Forall_app. split; [|by repeat constructor].
    unfold finals. rewrite mapping_of_final, <- list_fmap_compose.
    apply Forall_fmap, Forall_forall. intros j _. unfold compose.
    by rewrite folder_line_same.
  - intros x c Hx. split.
    + apply elem_of_app. right. unfold folder_phase_events.
      apply elem_of_app. right. right. apply elem_of_app. left.
      assert (x ∈ finals) as (i & Hi & ->)%elem_of_fmap_seq
        by (apply Hfin; exists (Dir c); eauto).
      unfold finals. rewrite mapping_of_final, <- list_fmap_compose.
      apply list_elem_of_fmap. exists i. split.
      { unfold compose. by rewrite folder_line_same. }
      apply elem_of_seq. lia.
    + intros y m Hy Hm. apply elem_of_app. left.
      eapply Hlines; [|done..]. apply Hfin. exists (Dir c). eauto.
Qed.

(** C4. On the tree a run that returned has left, and on any canonical
    tree, a run returns, leaves the tree as it is, prints no line that
    reports a changed name, and prints an "(unchanged)" line for every
    folder of the root and for every mp3 file of every folder. *)
Theorem process_sd_card_idempotent w1 :
  (∃ w, process_sd_card listing w = (Ok tt, w1))
  ∨ (∃ d, tree w1 = Dir d ∧ canonical_root d) →
  ∃ tr2,
    process_sd_card listing w1 = (Ok tt, World (tree w1) (trace w1 ++ tr2))
    ∧ Forall (λ e, reports_change e = false) tr2
    ∧ ∀ d1 x c, tree w1 = Dir d1 → d1 !! x = Some (Dir c) →
        EPrint Stdout (MsgFolderUnchanged x) ∈ tr2
        ∧ ∀ y n, c !! y = Some (File n) → is_mp3_name y = true →
            EPrint Stdout (MsgFileUnchanged y) ∈ tr2.
Proof using Hls.
  intros H.
  assert (∃ d, tree w1 = Dir d ∧ canonical_root d) as (d & Hd & Hcan).
  { destruct H as [[w Hw]|H]; [by eapply process_sd_card_leaves_canonical|done]. }
  destruct w1 as [t1 tr1]. simpl in Hd. subst t1.
  destruct (process_sd_card_on_canonical d tr1 Hcan) as (tr2 & Hrun & Hquiet & Hlines).
  exists tr2. split; [done|]. split; [done|].
  intros d1 x c [= <-]. apply Hlines.
Qed.
End Again.

(** ** The ceilings *)

Lemma length_names_size (l : list string) (m : gmap string node) :
  NoDup l → (∀ x, x ∈ l ↔ is_Some (m !! x)) → length l = size m.
Proof.
  intros Hnd Hin. rewrite <- length_map_to_list.
  rewrite <- (length_fmap fst (map_to_list m)).
  apply Permutation_length, NoDup_Permutation; [done|apply NoDup_fst_map_to_list|].
  intros x. rewrite Hin, list_elem_of_fmap. split.
  - intros [v Hv]. exists (x, v). split; [done|]. by apply elem_of_map_to_list.
  - intros ([y v] & -> & Hv%elem_of_map_to_list). eauto.
Qed.

Lemma rename_entry_err s t (d : gmap string node) e :
  rename_entry s t d = Err e → ∀ code, e ≠ SystemExit code.
Proof.
  unfold rename_entry. intros H code ->.
  repeat case_match; simplify_eq.
Qed.

Lemma exec_renames_err es (d : gmap string node) calls d' e :
  exec_renames es d = (calls, d', Some e) → ∀ code, e ≠ SystemExit code.
Proof.
  revert d calls. induction es as [|[s t] es IH]; intros d calls; simpl; [done|].
  destruct (rename_entry s t d) as [d1|e1] eqn:E.
  - destruct (exec_renames es d1) as [[c d2] e2] eqn:E2. intros [= <- <- ->].
    by eapply IH.
  - intros [= <- <- <-]. by eapply rename_entry_err.
Qed.

Lemma sort_natural_not_exit names e :
  sort_natural names = Err e → ∀ code, e ≠ SystemExit code.
Proof. intros [-> | ->]%sort_natural_err; done. Qed.

Section Ceilings.
Variable listing : gmap string node → list string.
Hypothesis Hls : listing_ok listing.
Implicit Types d c : gmap string node.

Lemma length_folder_names d :
  length (folder_names listing d) = size (subdirectories d).
Proof using Hls.
  apply length_names_size; [by apply folder_names_NoDup|].
  intros x. rewrite (elem_of_folder_names listing Hls). unfold subdirectories.
  split.
  - intros (v & Hv & Hk & _). exists v. by apply map_lookup_filter_Some.
  - intros [v [Hv Hk]%map_lookup_filter_Some]. eauto.
Qed.

Lemma length_mp3_names c :
  length (mp3_names listing c) = size (mp3_files c).
Proof using Hls.
  apply length_names_size; [by apply mp3_names_NoDup|].
  intros x. rewrite (elem_of_mp3_names listing Hls). unfold mp3_files.
  split.
  - intros (v & Hv & Hk & Hm). exists v. apply map_lookup_filter_Some.
    split; [done|]. simpl. by destruct v.
  - intros [v [Hv [Hk Hm]]%map_lookup_filter_Some]. exists v.
    split; [done|]. simpl in *. by destruct v.
Qed.

(** C5. With more than 99 subdirectories in the root the script ends with
    status 1, the tree is what it was, and the only thing the run did is one
    report on the error stream: the line about the ceiling (or, when a name
    cannot be given a sort key, the report of that exception). *)
Theorem too_many_folders d tr0 :
  MAX_FOLDERS < size (subdirectories d) →
  ∃ ev, main listing (World (Dir d) tr0) = (1%Z, World (Dir d) (tr0 ++ [ev]))
      ∧ on_stderr ev = true
      ∧ (∀ folders, sort_natural (folder_names listing d) = Ok folders →
           ev = EPrint Stderr (MsgTooManyFolders (size (subdirectories d)))).
Proof using Hls.
  intros Hmany. rewrite <- length_folder_names in *.
  unfold main, process_sd_card. rewrite mbind_unfold.
  change (os_path_isdir [] (World (Dir d) tr0)) with (Ok true, World (Dir d) tr0).
  cbv beta iota. change (negb true) with false. cbv iota.
  rewrite mbind_unfold, (collect_folders_spec listing [] _ d) by done.
  destruct (sort_natural (folder_names listing d)) as [folders|e] eqn:Hs.
  - apply sort_natural_length in Hs as Hlen. rewrite <- Hlen in *.
    destruct folders as [|f0 folders]; [simpl in Hmany; lia|].
    cbv beta iota. apply Nat.ltb_lt in Hmany as ->.
    rewrite mbind_unfold, print_spec. simpl.
    eexists. split; [done|]. split; [done|]. by intros ? [= <-].
  - pose proof (sort_natural_not_exit _ _ Hs) as Hne.
    exists (ETraceback e). split; [|split; [done|by intros ? ?]].
    by destruct e as [| | | | | |ec]; try done; destruct (Hne ec).
Qed.
End Ceilings.

Section AnyOutcome.
Variable listing : gmap string node → list string.
Hypothesis Hls : listing_ok listing.
Implicit Types d c : gmap string node.
Implicit Types w : world.

Lemma loop_post_cons_event y rest d r tr d' ev :
  (∀ b s t, ev ≠ ERename b s t) →
  y ∉ rest →
  (∀ c, d !! y = Some (Dir c) → length (mp3_names listing c) ≤ MAX_FILES_PER_FOLDER) →
  loop_post listing rest d r tr d' →
  loop_post listing (y :: rest) d r (ev :: tr) d'.
Proof.
  intros Hev Hy Hfits (Hframe & Hren & Hexit & Hover). split_and!.
  - intros z [??]%not_elem_of_cons. by apply Hframe.
  - intros b s t [?|Hin]%elem_of_cons; [by destruct (Hev b s t)|].
    destruct (Hren _ _ _ Hin) as (z & ? & ->). exists z. split; [by right|done].
  - intros code Hr. destruct (Hexit _ Hr) as (-> & tr' & m & ->).
    split; [done|]. by exists (ev :: tr'), m.
  - intros x c [->|Hx]%elem_of_cons Hc Hbig.
    + specialize (Hfits _ Hc). lia.
    + destruct (Hover _ _ Hx Hc Hbig) as (He & Hd' & Hno). split_and!; [done..|].
      intros s t [?|?]%elem_of_cons; [by destruct (Hev [x] s t)|]. by eapply Hno.
Qed.

Lemma rename_files_in_any folders total w d r w' :
  tree w = Dir d → NoDup folders →
  (∀ y, y ∈ folders → ∃ c, d !! y = Some (Dir c)) →
  rename_files_in listing [] folders total w = (r, w') →
  ∃ d' tr, w' = World (Dir d') (trace w ++ tr) ∧ loop_post listing folders d r tr d'.
Proof using Hls.
  revert total w d r w'.
  induction folders as [|y rest IH]; intros total w d r w' Hw Hnd Hdirs.
  { simpl. unfold mret. intros [= <- <-]. exists d, [].
    split; [rewrite app_nil_r; destruct w; simpl in *; by subst|].
    split_and!; [done|by intros ??? ?%elem_of_nil|done|by intros ?? ?%elem_of_nil]. }
  apply NoDup_cons in Hnd as [Hy Hnd].
  destruct (Hdirs y) as [cy Hcy]; [by left|].
  assert (resolve (os_path_join [] y) (tree w) = Some (Dir cy)) as Hres
    by (rewrite Hw; by apply resolve_child).
  cbn [rename_files_in]. rewrite mbind_unfold, (collect_mp3s_spec listing _ _ cy Hres).
  destruct (sort_natural (mp3_names listing cy)) as [mp3s|e] eqn:Hs.
  2:{ (* a name without sort key *)
    intros [= <- <-]. exists d, [].
    split; [rewrite app_nil_r; destruct w; simpl in *; by subst|].
    split_and!; [done|by intros ??? ?%elem_of_nil| |].
    - intros code [= ->]. by destruct (sort_natural_not_exit _ _ Hs code).
    - intros x c _ Hc _. split_and!; [by eexists|done|by intros ?? ?%elem_of_nil]. }
  apply sort_natural_length in Hs as Hlen.
  destruct mp3s as [|m0 mp3s].
  { (* no mp3 file: the warning, then the other folders *)
    cbv beta iota. rewrite mbind_unfold, print_spec. intros Hrest.
    apply IH with (d := d) in Hrest as (d' & tr & -> & Hpost); [|done..|].
    2:{ intros z Hz. apply Hdirs. by right. }
    exists d', (EPrint Stdout (MsgNoMp3 y) :: tr). simpl.
    split; [by rewrite <- app_assoc|].
    apply loop_post_cons_event; [done..| |done].
    intros c Hc. assert (c = cy) as -> by congruence. rewrite <- Hlen. simpl. lia. }
  cbv beta iota.
  destruct (MAX_FILES_PER_FOLDER <? length (m0 :: mp3s)) eqn:Hfit.
  { (* too many files: the message and the exit *)
    rewrite mbind_unfold, print_spec. intros [= <- <-].
    exists d, [EPrint Stderr (MsgTooManyFiles y (length (m0 :: mp3s)))].
    split; [by rewrite Hw|]. split_and!; [done| | |].
    - by intros ??? ?%list_elem_of_singleton.
    - intros code [= <-]. split; [done|]. by eexists [], _.
    - intros x c _ Hc _. split_and!; [by eexists|done|].
      by intros ?? ?%list_elem_of_singleton. }
  apply Nat.ltb_ge in Hfit.
  rewrite mbind_unfold, (rename_two_phase_exec _ _ _ _ _ Hres).
  destruct (exec_renames _ cy) as [[calls cy'] [e|]] eqn:E.
  { (* a rename raised *)
    intros [= <- <-]. exists (<[y:=Dir cy']> d), (rename_event [y] <$> calls).
    split; [unfold after_calls; by rewrite Hw, (graft_child _ _ cy)|].
    split_and!.
    - intros z [??]%not_elem_of_cons. by rewrite lookup_insert_ne.
    - intros b s t ([??] & [= -> -> ->] & _)%list_elem_of_fmap.
      exists y. split; [by left|done].
    - intros code [= ->]. by destruct (exec_renames_err _ _ _ _ _ E code).
    - intros x c [->|Hx]%elem_of_cons Hc Hbig.
      + assert (c = cy) as -> by congruence. rewrite <- Hlen in Hbig. lia.
      + split_and!; [by eexists| |].
        * rewrite lookup_insert_ne; [done|]. by intros ->.
        * intros s t ([??] & [= <- _ _] & _)%list_elem_of_fmap. done. }
  apply exec_renames_ok in E as [Hrun ->].
  rewrite mbind_unfold, print_spec, mbind_unfold, report_files_spec. intros Hrest.
  apply IH with (d := <[y:=Dir cy']> d) in Hrest as (d' & tr & -> & Hpost);
    [|simpl; rewrite Hw; by apply (graft_child _ _ cy)|done|].
  2:{ intros z Hz. destruct (Hdirs z) as [c Hc]; [by right|]. exists c.
      rewrite lookup_insert_ne; [done|]. by intros ->. }
  destruct Hpost as (Hframe & Hren & Hexit & Hover).
  exists d', ((rename_event (os_path_join [] y)
                 <$> rename_steps (m0 :: mp3s) file_final_name)
              ++ [EPrint Stdout (MsgFolderHeader y)]
              ++ (file_line <$> mapping_of (m0 :: mp3s) file_final_name) ++ tr).
  split.
  { simpl. f_equal. by rewrite <- !app_assoc. }
  split_and!.
  - intros z [??]%not_elem_of_cons. rewrite Hframe by done. by rewrite lookup_insert_ne.
  - intros b s t Hin. rewrite !elem_of_app in Hin.
    destruct Hin as [Hin|[Hin|[Hin|Hin]]].
    + apply list_elem_of_fmap in Hin as ([??] & [= -> -> ->] & _).
      exists y. split; [by left|done].
    + by apply list_elem_of_singleton in Hin.
    + by apply list_elem_of_fmap in Hin as (? & ? & _).
    + destruct (Hren _ _ _ Hin) as (z & ? & ->). exists z. split; [by right|done].
  - intros code Hr. destruct (Hexit _ Hr) as (-> & tr' & m & ->).
    split; [done|]. eexists _, m. rewrite !app_assoc. reflexivity.
  - intros x c [->|Hx]%elem_of_cons Hc Hbig.
    + assert (c = cy) as -> by congruence. rewrite <- Hlen in Hbig. lia.
    + assert (x ≠ y) as Hxy by (by intros ->).
      destruct (Hover x c Hx) as (He & Hd' & Hno); [by rewrite lookup_insert_ne|done|].
      split_and!; [done..|]. intros s t Hin. rewrite !elem_of_app in Hin.
      destruct Hin as [Hin|[Hin|[Hin|Hin]]].
      * apply list_elem_of_fmap in Hin as ([??] & [= <- _ _] & _). done.
      * by apply list_elem_of_singleton in Hin.
      * by apply list_elem_of_fmap in Hin as (? & ? & _).
      * by eapply Hno.
Qed.

Lemma rename_files_in_app l1 l2 total w :
  rename_files_in listing [] (l1 ++ l2) total w =
    match rename_files_in listing [] l1 total w with
    | (Ok n, w1) => rename_files_in listing [] l2 n w1
    | (Err e, w1) => (Err e, w1)
    end.
Proof.
  revert total w. induction l1 as [|y l1 IH]; intros total w; [done|].
  cbn [app rename_files_in]. rewrite !mbind_unfold.
  destruct (collect_mp3s listing (os_path_join [] y) w) as [[mp3s|e] w1]; [|done].
  destruct mp3s as [|m0 mp3s].
  { rewrite !mbind_unfold, !print_spec. apply IH. }
  destruct (MAX_FILES_PER_FOLDER <? length (m0 :: mp3s)).
  { by rewrite !mbind_unfold, !print_spec. }
  rewrite !mbind_unfold.
  destruct (rename_two_phase _ _ _ w1) as [[m|e] w2]; [|done].
  rewrite !mbind_unfold, !print_spec, !mbind_unfold, !report_files_spec. apply IH.
Qed.
End AnyOutcome.

Section TooManyFiles.
Variable listing : gmap string node → list string.
Hypothesis Hls : listing_ok listing.
Implicit Types d c : gmap string node.
Implicit Types w : world.

(** The loop, when it reaches a folder with too many mp3 files: it stops
    there, with the message and the exit, or with the exception of the
    sort. *)
Lemma rename_files_in_too_many x post n w d c :
  tree w = Dir d → d !! x = Some (Dir c) →
  MAX_FILES_PER_FOLDER < length (mp3_names listing c) →
  (∃ e, (∀ code, e ≠ SystemExit code)
      ∧ rename_files_in listing [] (x :: post) n w = (Err e, w))
  ∨ (∃ m, rename_files_in listing [] (x :: post) n w
          = (Err (SystemExit 1), World (tree w) (trace w ++ [EPrint Stderr m]))).
Proof.
  intros Hw Hx Hbig.
  assert (resolve (os_path_join [] x) (tree w) = Some (Dir c)) as Hres
    by (rewrite Hw; by apply resolve_child).
  cbn [rename_files_in]. rewrite mbind_unfold, (collect_mp3s_spec listing _ _ c Hres).
  destruct (sort_natural (mp3_names listing c)) as [mp3s|e] eqn:Hs.
  - right. apply sort_natural_length in Hs. rewrite <- Hs in Hbig.
    destruct mp3s as [|m0 mp3s]; [simpl in Hbig; lia|]. cbv beta iota.
    apply Nat.ltb_lt in Hbig as ->. rewrite mbind_unfold, print_spec.
    by eexists.
  - left. exists e. split; [by eapply sort_natural_not_exit|done].
Qed.

Lemma main_unfold w :
  main listing w =
    match process_sd_card listing w with
    | (Ok _, w') => (0%Z, w')
    | (Err (SystemExit code), w') => (code, w')
    | (Err e, w') => (1%Z, World (tree w') (trace w' ++ [ETraceback e]))
    end.
Proof. reflexivity. Qed.

Lemma process_sd_card_loop d tr0 folders :
  sort_natural (folder_names listing d) = Ok folders →
  folders ≠ [] → length folders ≤ MAX_FOLDERS →
  ∀ e w1, rename_files_in listing [] folders 0 (World (Dir d) tr0) = (Err e, w1) →
          process_sd_card listing (World (Dir d) tr0) = (Err e, w1).
Proof.
  intros Hs Hne Hlen e w1 Hloop.
  unfold process_sd_card. rewrite mbind_unfold.
  change (os_path_isdir [] (World (Dir d) tr0)) with (Ok true, World (Dir d) tr0).
  cbv beta iota. change (negb true) with false. cbv iota.
  rewrite mbind_unfold, (collect_folders_spec listing [] _ d) by done.
  rewrite Hs. destruct folders as [|f0 folders]; [done|]. cbv beta iota.
  replace (MAX_FOLDERS <? length (f0 :: folders)) with false
    by (symmetry; by apply Nat.ltb_ge).
  by rewrite mbind_unfold, Hloop.
Qed.

(** With more than 255 mp3 files in some folder [x] of the root the
    script ends with status 1 and a report on the error stream as its
    last event; until then no rename was issued inside [x] nor in the
    root, and [x] is as it was. *)
Lemma too_many_files_stop d tr0 x c :
  d !! x = Some (Dir c) →
  MAX_FILES_PER_FOLDER < size (mp3_files c) →
  ∃ d' tr ev,
    main listing (World (Dir d) tr0) = (1%Z, World (Dir d') (tr0 ++ tr ++ [ev]))
    ∧ on_stderr ev = true
    ∧ d' !! x = Some (Dir c)
    ∧ (∀ b s t, ERename b s t ∈ tr → b ≠ [x] ∧ b ≠ [])
    ∧ (∀ folders pre post n wk,
         collect_folders listing [] (World (Dir d) tr0)
         = (Ok folders, World (Dir d) tr0) →
         length folders ≤ MAX_FOLDERS →
         folders = pre ++ x :: post →
         rename_files_in listing [] pre 0 (World (Dir d) tr0) = (Ok n, wk) →
         wk = World (Dir d') (tr0 ++ tr)).
Proof using Hls.
  intros Hx Hbig. rewrite <- (length_mp3_names listing Hls) in Hbig.
  rewrite main_unfold.
  destruct (sort_natural (folder_names listing d)) as [folders|e] eqn:Hs.
  2:{ (* a folder name without sort key *)
    exists d, [], (ETraceback e).
    assert (process_sd_card listing (World (Dir d) tr0) = (Err e, World (Dir d) tr0))
      as ->.
    { unfold process_sd_card. rewrite mbind_unfold.
      change (os_path_isdir [] (World (Dir d) tr0)) with (Ok true, World (Dir d) tr0).
      cbv beta iota. change (negb true) with false. cbv iota.
      by rewrite mbind_unfold, (collect_folders_spec listing [] _ d), Hs by done. }
    pose proof (sort_natural_not_exit _ _ Hs) as Hne.
    split_and!; [|done|done|by intros ??? ?%elem_of_nil|].
    - by destruct e as [| | | | | |ec]; try done; destruct (Hne ec).
    - intros folders pre post n wk Hcf.
      by rewrite (collect_folders_spec listing [] _ d), Hs in Hcf by done. }
  destruct (sorted_folders listing Hls _ _ Hs) as [Hnd Hin].
  assert (x ∈ folders) as Hxin by (apply Hin; exists (Dir c); eauto).
  destruct (decide (length folders ≤ MAX_FOLDERS)) as [Hlen|Hlen].
  2:{ (* too many folders *)
    exists d, [], (EPrint Stderr (MsgTooManyFolders (length folders))).
    assert (process_sd_card listing (World (Dir d) tr0)
            = (Err (SystemExit 1),
               World (Dir d) (tr0 ++ [EPrint Stderr (MsgTooManyFolders (length folders))])))
      as ->.
    { unfold process_sd_card. rewrite mbind_unfold.
      change (os_path_isdir [] (World (Dir d) tr0)) with (Ok true, World (Dir d) tr0).
      cbv beta iota. change (negb true) with false. cbv iota.
      rewrite mbind_unfold, (collect_folders_spec listing [] _ d), Hs by done.
      destruct folders as [|f0 folders]; [simpl in Hlen; lia|]. cbv beta iota.
      replace (MAX_FOLDERS <? length (f0 :: folders)) with true
        by (symmetry; apply Nat.ltb_lt; lia).
      by rewrite mbind_unfold, print_spec. }
    split_and!; [done..|by intros ??? ?%elem_of_nil|].
    intros folders' pre post n wk Hcf Hlen'.
    rewrite (collect_folders_spec listing [] _ d), Hs in Hcf by done.
    injection Hcf as <-. lia. }
  assert (folders ≠ []) as Hne by (intros ->; by apply elem_of_nil in Hxin).
  destruct (rename_files_in listing [] folders 0 (World (Dir d) tr0))
    as [r w1] eqn:Hloop.
  destruct (rename_files_in_any listing Hls folders 0 (World (Dir d) tr0) d r w1
              eq_refl Hnd)
    as (d' & trl & -> & Hframe & Hren & Hexit & Hover); [|exact Hloop|].
  { intros y (v & Hv & [cy ->]%is_dir_true & _)%Hin. eauto. }
  destruct (Hover x c Hxin Hx Hbig) as ([e ->] & Hd' & Hno).
  rewrite (process_sd_card_loop _ _ _ Hs Hne Hlen _ _ Hloop). simpl trace in *.
  (* what the script leaves, by the kind of the exception *)
  assert (∃ tr ev,
    match e with
    | SystemExit code => (code, World (Dir d') (tr0 ++ trl))
    | _ => (1%Z, World (Dir d') ((tr0 ++ trl) ++ [ETraceback e]))
    end = (1%Z, World (Dir d') (tr0 ++ tr ++ [ev]))
    ∧ on_stderr ev = true
    ∧ (∀ b s t, ERename b s t ∈ tr → ERename b s t ∈ trl)
    ∧ (∀ e' w', (∀ code, e' ≠ SystemExit code) →
         (@Err nat e, World (Dir d') (tr0 ++ trl)) = (Err e', w') →
         w' = World (Dir d') (tr0 ++ tr))
    ∧ (∀ m w', (@Err nat e, World (Dir d') (tr0 ++ trl))
               = (Err (SystemExit 1), World (tree w') (trace w' ++ [EPrint Stderr m])) →
         w' = World (Dir d') (tr0 ++ tr)))
    as (tr & ev & Hmain & Hev & Hsub & Hraise & Hquit).
  { assert ((∃ code, e = SystemExit code) ∨ (∀ code, e ≠ SystemExit code))
      as [[code ->]|Hnot] by (destruct e; eauto; by right).
    - destruct (Hexit code eq_refl) as (-> & tr' & m & ->).
      exists tr', (EPrint Stderr m). split_and!; [done..| | |].
      + intros b s t ?. apply elem_of_app. by left.
      + intros e' w' He' [= <-]. by destruct (He' 1%Z).
      + intros m' [t' tr''] [= Ht Htr]. simpl in *. subst t'.
        rewrite app_assoc in Htr. apply app_inj_tail in Htr as [<- _]. done.
    - exists trl, (ETraceback e). split_and!; [|done..| |].
      + rewrite <- app_assoc. destruct e as [| | | | | |ec]; try done. by destruct (Hnot ec).
      + by intros e' w' _ [= <- <-].
      + intros m w' [= -> _]. by destruct (Hnot 1%Z). }
  exists d', tr, ev. split_and!; [exact Hmain|done..| |].
  - intros b s t Hin'%Hsub. destruct (Hren _ _ _ Hin') as (y & Hy & ->).
    split; [|done]. intros [= ->]. by apply (Hno s t).
  - intros folders' pre post n wk Hcf _ Hsplit Hpre.
    rewrite (collect_folders_spec listing [] _ d), Hs in Hcf by done.
    injection Hcf as <-. subst folders.
    rewrite rename_files_in_app, Hpre in Hloop.
    apply NoDup_app in Hnd as (Hndpre & Hxpre & _).
    destruct (rename_files_in_any listing Hls pre 0 (World (Dir d) tr0) d (Ok n) wk
                eq_refl Hndpre)
      as (dk & trk & Hwk & Hframek & _); [|exact Hpre|].
    { intros y Hy. destruct (proj1 (Hin y)) as (v & Hv & [cy ->]%is_dir_true & _);
        [apply elem_of_app; by left|]. eauto. }
    assert (dk !! x = Some (Dir c)) as Hxk.
    { rewrite Hframek; [done|]. intros Hxp. apply (Hxpre x Hxp). by left. }
    destruct (rename_files_in_too_many x post n wk dk c) as [(e' & He' & Hr)|(m & Hr)];
      [by rewrite Hwk|done..| |].
    + rewrite Hr in Hloop. symmetry in Hloop. by apply (Hraise _ _ He') in Hloop.
    + rewrite Hr in Hloop. symmetry in Hloop. by apply Hquit in Hloop.
Qed.
End TooManyFiles.

(** ** The samples *)

Lemma listing_sample_ok : listing_ok listing_sample.
Proof.
  intros d. unfold listing_sample. split; [apply NoDup_fst_map_to_list|].
  intros x. rewrite list_elem_of_fmap. split.
  - intros ([y v] & -> & Hv%elem_of_map_to_list). eauto.
  - intros [v Hv]. exists (x, v). split; [done|]. by apply elem_of_map_to_list.
Qed.

Example sample_card_run :
  main listing_sample (World (Dir sample_card) [])
  = (0%Z,
     World
       (Dir (list_to_map
          [("01", Dir ∅);
           ("02", Dir (list_to_map
              [("001.mp3", File 1); ("002.mp3", File 2); ("003.mp3", File 4);
               ("cover.jpg", File 3)]));
           ("readme.txt", File 9)]))
       [EPrint Stdout (MsgNoMp3 "A side");
        ERename ["B side"] "Track 1.mp3" "__dftemp_001.mp3";
        ERename ["B side"] "track 2.mp3" "__dftemp_002.mp3";
        ERename ["B side"] "Track 10.MP3" "__dftemp_003.mp3";
        ERename ["B side"] "__dftemp_001.mp3" "001.mp3";
        ERename ["B side"] "__dftemp_002.mp3" "002.mp3";
        ERename ["B side"] "__dftemp_003.mp3" "003.mp3";
        EPrint Stdout (MsgFolderHeader "B side");
        EPrint Stdout (MsgFileRenamed "Track 1.mp3" "001.mp3");
        EPrint Stdout (MsgFileRenamed "track 2.mp3" "002.mp3");
        EPrint Stdout (MsgFileRenamed "Track 10.MP3" "003.mp3");
        ERename [] "A side" "__dftemp_01";
        ERename [] "B side" "__dftemp_02";
        ERename [] "__dftemp_01" "01";
        ERename [] "__dftemp_02" "02";
        EPrint Stdout MsgFolderRenames;
        EPrint Stdout (MsgFolderRenamed "A side" "01");
        EPrint Stdout (MsgFolderRenamed "B side" "02");
        EPrint Stdout (MsgDone 2 3)]).
Proof. vm_compute. reflexivity. Qed.

Lemma process_sd_card_idempotent_witness :
  ∃ tr2,
    process_sd_card listing_sample
      (process_sd_card listing_sample (World (Dir sample_card) [])).2
    = (Ok tt,
       World (tree (process_sd_card listing_sample (World (Dir sample_card) [])).2)
         (trace (process_sd_card listing_sample (World (Dir sample_card) [])).2 ++ tr2))
    ∧ Forall (λ e, reports_change e = false) tr2
    ∧ ∀ d1 x c,
        tree (process_sd_card listing_sample (World (Dir sample_card) [])).2 = Dir d1 →
        d1 !! x = Some (Dir c) →
        EPrint Stdout (MsgFolderUnchanged x) ∈ tr2
        ∧ ∀ y n, c !! y = Some (File n) → is_mp3_name y = true →
            EPrint Stdout (MsgFileUnchanged y) ∈ tr2.
Proof.
  apply (process_sd_card_idempotent listing_sample listing_sample_ok).
  left. exists (World (Dir sample_card) []). vm_compute. reflexivity.
Defined.

Lemma too_many_folders_witness :
  ∃ ev, main listing_sample (World (Dir crowded_root) [])
        = (1%Z, World (Dir crowded_root) ([] ++ [ev]))
      ∧ on_stderr ev = true
      ∧ (∀ folders, sort_natural (folder_names listing_sample crowded_root) = Ok folders →
           ev = EPrint Stderr (MsgTooManyFolders (size (subdirectories crowded_root)))).
Proof.
  apply (too_many_folders listing_sample listing_sample_ok crowded_root []).
  vm_compute. lia.
Defined.

Lemma folder_without_mp3_witness :
  ∃ d' tr,
    (process_sd_card listing_sample (World (Dir sample_card) [])).2
    = World (Dir d') ([] ++ tr)
    ∧ EPrint Stdout (MsgNoMp3 "A side") ∈ tr
    ∧ (∀ s t, ERename ["A side"] s t ∉ tr)
    ∧ ERename [] "A side" (temp_name folder_final_name 0) ∈ tr
    ∧ ERename [] (temp_name folder_final_name 0) (folder_final_name 0) ∈ tr
    ∧ d' !! folder_final_name 0 = Some (Dir ∅).
Proof.
  apply (folder_without_mp3 listing_sample listing_sample_ok sample_card [] _
           ["A side"; "B side"] 0 "A side" ∅).
  - vm_compute. reflexivity.
  - vm_compute. reflexivity.
  - reflexivity.
  - reflexivity.
  - intros y n Hy. by rewrite lookup_empty in Hy.
Defined.

(** On the crowded card the first folder has been renamed when the run
    stops at the second. *)
Example crowded_card_run :
  ∃ w', main listing_sample (World (Dir crowded_card) []) = (1%Z, w')
      ∧ resolve ["A"; "001.mp3"] (tree w') = Some (File 1)
      ∧ resolve ["B"] (tree w') = Some (Dir crowded_folder)
      ∧ last (trace w') = Some (EPrint Stderr (MsgTooManyFiles "B" 256)).
Proof. eexists. split; [|split; [|split]]; vm_compute; reflexivity. Qed.

(** * Further properties of the code *)

(** ** The order of the keys *)

Lemma ascii_compare_lt_trans a b c :
  Ascii.compare a b = Lt → Ascii.compare b c = Lt → Ascii.compare a c = Lt.
Proof.
  unfold Ascii.compare. rewrite !N.compare_lt_iff. lia.
Qed.

Lemma str_compare_lt_trans s t u :
  String.compare s t = Lt → String.compare t u = Lt → String.compare s u = Lt.
Proof.
  revert t u. induction s as [|a s IH]; intros [|b t] [|c u]; simpl; try done.
  destruct (Ascii.compare a b) eqn:Eab; [|  |done].
  - apply Ascii.compare_eq_iff in Eab as ->.
    destruct (Ascii.compare b c) eqn:Ebc; [apply IH|done|done].
  - intros _. destruct (Ascii.compare b c) eqn:Ebc; [| |done].
    + apply Ascii.compare_eq_iff in Ebc as <-. by rewrite Eab.
    + by rewrite (ascii_compare_lt_trans _ _ _ Eab Ebc).
Qed.

Lemma str_ltb_lt s t : String.ltb s t = true ↔ String.compare s t = Lt.
Proof. unfold String.ltb. by destruct (String.compare s t). Qed.

Lemma str_ltb_trans s t u :
  String.ltb s t = true → String.ltb t u = true → String.ltb s u = true.
Proof. rewrite !str_ltb_lt. apply str_compare_lt_trans. Qed.

Lemma str_ltb_asym s t : String.ltb s t = true → String.ltb t s = false.
Proof.
  unfold String.ltb. rewrite (String.compare_antisym t s).
  by destruct (String.compare s t).
Qed.

Lemma str_ltb_connex s t :
  String.ltb s t = false → String.ltb t s = false → s = t.
Proof.
  unfold String.ltb. rewrite (String.compare_antisym t s).
  destruct (String.compare s t) eqn:E; simpl; try done.
  intros _ _. by apply String.compare_eq_iff.
Qed.

Lemma token_lt_trans a b c :
  token_lt a b = Ok true → token_lt b c = Ok true → token_lt a c = Ok true.
Proof.
  destruct a as [s|m], b as [t|n], c as [u|p]; simpl; try done.
  - intros [= H1] [= H2]. f_equal. by eapply str_ltb_trans.
  - intros [= H1%N.ltb_lt] [= H2%N.ltb_lt]. f_equal. apply N.ltb_lt. lia.
Qed.

Lemma token_lt_asym a b : token_lt a b = Ok true → token_lt b a = Ok false.
Proof.
  destruct a as [s|m], b as [t|n]; simpl; try done.
  - intros [= H]. f_equal. by apply str_ltb_asym.
  - intros [= H%N.ltb_lt]. f_equal. apply N.ltb_ge. lia.
Qed.

Lemma token_lt_connex a b :
  token_lt a b = Ok false → token_lt b a = Ok false → a = b.
Proof.
  destruct a as [s|m], b as [t|n]; simpl; try done.
  - intros [= H1] [= H2]. f_equal. by apply str_ltb_connex.
  - intros [= H1%N.ltb_ge] [= H2%N.ltb_ge]. f_equal. lia.
Qed.

Lemma token_eqb_neq a b : token_eqb a b = false ↔ a ≠ b.
Proof.
  rewrite <- token_eqb_eq. destruct (token_eqb a b); intuition congruence.
Qed.

Lemma token_eqb_sym a b : token_eqb a b = token_eqb b a.
Proof.
  destruct (token_eqb b a) eqn:E.
  - apply token_eqb_eq in E as ->. apply token_eqb_refl.
  - apply token_eqb_neq in E. apply token_eqb_neq. congruence.
Qed.

Lemma token_lt_irrefl a r : token_lt a a = Ok r → r = false.
Proof.
  destruct a as [s|n]; simpl; intros [= <-].
  - apply str_ltb_irrefl.
  - apply N.ltb_irrefl.
Qed.

Lemma aligned_cons a b k1 k2 :
  aligned (a :: k1) (b :: k2) → same_kind a b = true ∧ aligned k1 k2.
Proof.
  intros H. split; [by apply (H 0)|].
  intros i x y Hx Hy. by apply (H (S i)).
Qed.

Lemma key_lt_trans k1 k2 k3 :
  aligned k1 k2 → aligned k2 k3 →
  key_lt k1 k2 = Ok true → key_lt k2 k3 = Ok true → key_lt k1 k3 = Ok true.
Proof.
  revert k2 k3. induction k1 as [|a k1 IH]; intros [|b k2] [|c k3]; simpl; try done.
  intros [Hab H12]%aligned_cons [Hbc H23]%aligned_cons.
  destruct (token_eqb a b) eqn:Eab.
  - apply token_eqb_eq in Eab as ->.
    destruct (token_eqb b c) eqn:Ebc; [by apply IH|done].
  - destruct (token_eqb b c) eqn:Ebc.
    + apply token_eqb_eq in Ebc as <-. by rewrite Eab.
    + intros H1 H2. pose proof (token_lt_trans _ _ _ H1 H2) as H3.
      destruct (token_eqb a c) eqn:Eac; [|done].
      apply token_eqb_eq in Eac as ->.
      apply token_lt_asym in H1. congruence.
Qed.

Lemma key_lt_asym k1 k2 :
  key_lt k1 k2 = Ok true → key_lt k2 k1 = Ok false.
Proof.
  revert k2. induction k1 as [|a k1 IH]; intros [|b k2]; simpl; try done.
  rewrite (token_eqb_sym b a).
  destruct (token_eqb a b); [apply IH | apply token_lt_asym].
Qed.

Lemma key_lt_connex k1 k2 :
  key_lt k1 k2 = Ok false → key_lt k2 k1 = Ok false → k1 = k2.
Proof.
  revert k2. induction k1 as [|a k1 IH]; intros [|b k2]; simpl; try done.
  rewrite (token_eqb_sym b a).
  destruct (token_eqb a b) eqn:E.
  - apply token_eqb_eq in E as ->. intros H1 H2. f_equal. by apply IH.
  - intros H1 H2. apply token_eqb_neq in E. by destruct E; apply token_lt_connex.
Qed.

Lemma natural_sort_key_aligned a b ka kb :
  natural_sort_key a = Ok ka → natural_sort_key b = Ok kb → aligned ka kb.
Proof. intros Ha Hb i x y. by eapply keys_same_kind. Qed.

(** ** list.sort(key=natural_sort_key) *)

Lemma keyed_alternates p : keyed p → key_alternates p.1 = true.
Proof. apply natural_sort_key_alternates. Qed.

Lemma keyed_aligned p q : keyed p → keyed q → aligned p.1 q.1.
Proof. apply natural_sort_key_aligned. Qed.

Lemma keyed_lt_total p q : keyed p → keyed q → ∃ b, key_lt p.1 q.1 = Ok b.
Proof. intros Hp Hq. by apply key_lt_total; apply keyed_alternates. Qed.

Lemma key_le_trans p q r :
  keyed p → keyed q → keyed r → key_le p q → key_le q r → key_le p r.
Proof.
  unfold key_le. intros Hp Hq Hr Hpq Hqr.
  destruct (keyed_lt_total r p Hr Hp) as [[] Hrp]; [|done].
  destruct (keyed_lt_total p q Hp Hq) as [[] Hpq'].
  - pose proof (key_lt_trans _ _ _ (keyed_aligned _ _ Hr Hp)
                  (keyed_aligned _ _ Hp Hq) Hrp Hpq'). congruence.
  - pose proof (key_lt_connex _ _ Hpq' Hpq) as E. rewrite E in Hrp. congruence.
Qed.

Lemma keyed_of_names names l :
  rmapM (λ x, rmap (λ k, (k, x)) (natural_sort_key x)) names = Ok l →
  Forall keyed l.
Proof.
  intros H%rmapM_ok_Forall2. induction H as [|x y l l' Hxy _ IH]; [done|].
  constructor; [|done]. by apply rmap_ok in Hxy as (k & Hk & ->).
Qed.

Lemma keyed_names_total names :
  Forall (λ x, ∃ k, natural_sort_key x = Ok k) names →
  ∃ l, rmapM (λ x, rmap (λ k, (k, x)) (natural_sort_key x)) names = Ok l.
Proof.
  induction 1 as [|x names [k Hk] _ [l IH]]; [by exists []|].
  exists ((k, x) :: l). simpl. rewrite Hk. simpl. by rewrite IH.
Qed.

Lemma keyed_names_err names e :
  rmapM (λ x, rmap (λ k, (k, x)) (natural_sort_key x)) names = Err e →
  ∃ x, x ∈ names ∧ natural_sort_key x = Err e.
Proof.
  induction names as [|x names IH]; simpl; [done|].
  destruct (natural_sort_key x) as [k|e'] eqn:Hx; simpl.
  - destruct (rmapM _ names) as [l|e'] eqn:Hl; simpl; [done|].
    intros [= <-]. destruct IH as (y & Hy & He); [done|].
    exists y. split; [by right|done].
  - intros [= <-]. exists x. split; [by left|done].
Qed.

Lemma insert_by_key_sorted x l :
  keyed x → Forall keyed l → StronglySorted key_le l →
  ∃ l', insert_by_key x l = Ok l' ∧ StronglySorted key_le l'.
Proof.
  intros Hx. induction l as [|y l IH]; intros Hl Hs.
  - exists [x]. split; [done|]. by repeat constructor.
  - apply Forall_cons in Hl as [Hy Hl].
    apply StronglySorted_inv in Hs as [Hs Hyl]. simpl.
    destruct (keyed_lt_total y x Hy Hx) as [[] Hlt]; rewrite Hlt; simpl.
    + destruct (IH Hl Hs) as (l' & Hins & Hs'). rewrite Hins. simpl.
      exists (y :: l'). split; [done|]. constructor; [done|].
      rewrite (insert_by_key_perm _ _ _ Hins). constructor; [|done].
      by apply key_lt_asym.
    + exists (x :: y :: l). split; [done|]. constructor.
      * by constructor.
      * constructor; [done|].
        rewrite Forall_forall in Hyl, Hl |- *. intros z Hz.
        apply (key_le_trans x y z); auto.
Qed.

Lemma sort_keyed_sorted l :
  Forall keyed l → ∃ l', sort_keyed l = Ok l' ∧ StronglySorted key_le l'.
Proof.
  induction 1 as [|x l Hx Hl (l1 & H1 & Hs1)]; [exists []; split; [done|constructor]|].
  simpl. rewrite H1. simpl. apply insert_by_key_sorted; [done| |done].
  by rewrite (sort_keyed_perm _ _ H1).
Qed.

(** An element goes in before every element with the same key. *)
Lemma insert_by_key_filter k x l l' :
  insert_by_key x l = Ok l' →
  filter (λ p, p.1 = k) l' = filter (λ p, p.1 = k) (x :: l).
Proof.
  revert l'. induction l as [|y l IH]; intros l'; simpl.
  - by intros [= <-].
  - intros ([] & Hlt & H)%rbind_ok.
    + apply rmap_ok in H as (l1 & H & ->).
      rewrite filter_cons, (IH _ H), !filter_cons.
      destruct (decide (y.1 = k)) as [Ey|]; [|done].
      destruct (decide (x.1 = k)) as [Ex|]; [|done].
      rewrite Ey, Ex, key_lt_irrefl in Hlt. done.
    + by injection H as <-.
Qed.

Lemma sort_keyed_filter k l l' :
  sort_keyed l = Ok l' →
  filter (λ p, p.1 = k) l' = filter (λ p, p.1 = k) l.
Proof.
  revert l'. induction l as [|x l IH]; intros l'; simpl.
  - by intros [= <-].
  - intros (l1 & H1 & H2)%rbind_ok.
    by rewrite (insert_by_key_filter _ _ _ _ H2), !filter_cons, (IH _ H1).
Qed.

Lemma keyed_filter_names k l :
  Forall keyed l →
  filter (λ x, natural_sort_key x = Ok k) l.*2 = (filter (λ p, p.1 = k) l).*2.
Proof.
  induction 1 as [|p l Hp _ IH]; [done|].
  rewrite fmap_cons, !filter_cons, IH. unfold keyed in Hp.
  destruct (decide (p.1 = k)) as [E|E];
    [rewrite decide_True by congruence|rewrite decide_False by congruence]; done.
Qed.

(** The sort returns exactly when every name has a key. *)
Lemma sort_natural_total names :
  Forall (λ x, ∃ k, natural_sort_key x = Ok k) names →
  ∃ sorted, sort_natural names = Ok sorted.
Proof.
  intros [l Hl]%keyed_names_total. unfold sort_natural. rewrite Hl. simpl.
  destruct (sort_keyed_sorted l) as (l' & -> & _); [by eapply keyed_of_names|].
  simpl. eauto.
Qed.

Lemma sort_natural_keys names sorted :
  sort_natural names = Ok sorted →
  Forall (λ x, ∃ k, natural_sort_key x = Ok k) names.
Proof.
  unfold sort_natural. intros (l & Hl & _)%rbind_ok.
  rewrite <- (keyed_names _ _ Hl). apply keyed_of_names in Hl.
  rewrite Forall_fmap. eapply Forall_impl; [exact Hl|]. intros p Hp. by exists p.1.
Qed.

Lemma sort_natural_raises names e :
  sort_natural names = Err e →
  e = ValueError ∧ ∃ x, x ∈ names ∧ natural_sort_key x = Err ValueError.
Proof.
  unfold sort_natural.
  destruct (rmapM _ names) as [l|e'] eqn:Hl; simpl.
  - destruct (sort_keyed_sorted l) as (l' & -> & _); [by eapply keyed_of_names|].
    done.
  - intros [= <-]. apply keyed_names_err in Hl as (x & Hx & He).
    pose proof (natural_sort_key_err _ _ He) as ->. eauto.
Qed.

Lemma sort_natural_strongly_sorted names sorted :
  sort_natural names = Ok sorted →
  StronglySorted (λ x y, ¬ precedes y x) sorted.
Proof.
  unfold sort_natural. intros (l & Hl & H)%rbind_ok.
  apply rmap_ok in H as (l' & H & ->).
  pose proof (keyed_of_names _ _ Hl) as Hk.
  destruct (sort_keyed_sorted l Hk) as (l2 & H2 & Hs).
  rewrite H in H2. injection H2 as <-.
  assert (Forall keyed l') as Hk' by by rewrite (sort_keyed_perm _ _ H).
  clear -Hs Hk'. induction Hs as [|p l' Hs IH Hp]; [constructor|].
  apply Forall_cons in Hk' as [Hkp Hk']. simpl. constructor; [by apply IH|].
  rewrite Forall_forall in Hp, Hk'. apply Forall_forall. intros y Hy.
  apply list_elem_of_fmap in Hy as (q & -> & Hq).
  intros (kq & kp & Hq1 & Hp1 & Hlt).
  specialize (Hp q Hq). specialize (Hk' q Hq). unfold keyed, key_le in *.
  congruence.
Qed.

Lemma StronglySorted_lookup {A} (R : relation A) l i j x y :
  StronglySorted R l → i < j → l !! i = Some x → l !! j = Some y → R x y.
Proof.
  intros Hs. revert i j. induction Hs as [|a l Hs IH Ha]; intros i j Hij; [done|].
  destruct j as [|j]; [lia|]. destruct i as [|i]; simpl.
  - intros [= <-] Hy. rewrite Forall_forall in Ha.
    by eapply Ha, list_elem_of_lookup_2.
  - apply IH. lia.
Qed.

Lemma sort_natural_ordered names sorted :
  sort_natural names = Ok sorted →
  ∀ i j x y, i < j → sorted !! i = Some x → sorted !! j = Some y →
             ¬ precedes y x.
Proof.
  intros H i j x y Hij Hx Hy.
  by eapply (StronglySorted_lookup _ _ _ _ _ _
               (sort_natural_strongly_sorted _ _ H) Hij Hx Hy).
Qed.

(** ** When natural_sort_key raises *)

Lemma split_shape_pieces pieces :
  split_shape pieces →
  Forall (λ t, no_decimal t = true
               ∨ (t ≠ EmptyString ∧ str_forall is_decimal t = true)) pieces.
Proof.
  induction 1 as [t Ht | t d rest Ht Hd1 Hd2 _ IH].
  - constructor; [by left|constructor].
  - constructor; [by left|]. constructor; [by right|done].
Qed.

Lemma superscript_piece t :
  no_decimal t = true → str_forall isdigit_char t = true →
  str_forall is_superscript t = true.
Proof.
  unfold no_decimal. induction t as [|c t IH]; simpl; [done|].
  intros [Hc Ht]%andb_prop [Hd Ht']%andb_prop. rewrite (IH Ht Ht'), andb_true_r.
  unfold isdigit_char in Hd. unfold is_superscript.
  destruct (is_decimal c); [done|]. exact Hd.
Qed.

Lemma superscript_isdigit t :
  str_forall is_superscript t = true → str_forall isdigit_char t = true.
Proof.
  induction t as [|c t IH]; simpl; [done|].
  intros [Hc Ht]%andb_prop. rewrite (IH Ht), andb_true_r.
  unfold isdigit_char, is_superscript in *.
  apply orb_true_iff in Hc as [Hc|Hc];
    [apply orb_true_iff in Hc as [Hc|Hc]|]; rewrite Hc; by rewrite ?orb_true_r.
Qed.

Lemma superscript_not_decimal c : is_superscript c = true → is_decimal c = false.
Proof. by destruct c as [[] [] [] [] [] [] [] []]. Qed.

Lemma key_part_raises t e :
  no_decimal t = true ∨ (t ≠ EmptyString ∧ str_forall is_decimal t = true) →
  key_part t = Err e ↔
  e = ValueError ∧ t ≠ EmptyString ∧ str_forall is_superscript t = true.
Proof.
  intros Hshape. split.
  - unfold key_part. destruct (isdigit t) eqn:Hd; [|done].
    destruct Hshape as [Hn | [Hne Hdec]].
    + intros H. destruct t as [|c t]; [done|]. simpl in Hd.
      split; [|split; [done|by apply superscript_piece]].
      unfold py_int in H. destruct (str_forall is_decimal _); [done|].
      simpl in H. by injection H.
    + unfold py_int. destruct t; [done|]. by rewrite Hdec.
  - intros (-> & Hne & Hs). unfold key_part.
    destruct t as [|c t]; [done|].
    assert (isdigit (String c t) = true) as ->
      by (by apply superscript_isdigit).
    unfold py_int. simpl in Hs |- *. apply andb_prop in Hs as [Hc _].
    by rewrite (superscript_not_decimal c Hc).
Qed.

Lemma rmapM_raises {A B} (f : A → result B) l e :
  rmapM f l = Err e → ∃ x, x ∈ l ∧ f x = Err e.
Proof.
  induction l as [|x l IH]; simpl; [done|].
  destruct (f x) as [y|e'] eqn:Hx; simpl.
  - destruct (rmapM f l); simpl; [done|]. intros [= <-].
    destruct IH as (z & Hz & He); [done|]. exists z. split; [by right|done].
  - intros [= <-]. exists x. split; [by left|done].
Qed.

Lemma rmapM_raises_elem {A B} (f : A → result B) l x e :
  x ∈ l → f x = Err e → ∃ e', rmapM f l = Err e'.
Proof.
  intros Hx He. destruct (rmapM f l) as [l'|e'] eqn:H; [|eauto].
  apply rmapM_ok_Forall2 in H.
  apply list_elem_of_lookup_1 in Hx as [i Hi].
  destruct (Forall2_lookup_l _ _ _ _ _ H Hi) as (y & _ & Hy). congruence.
Qed.

Lemma re_split_digits_forall (P : ascii → bool) s :
  str_forall P s = true →
  Forall (λ t, str_forall P t = true) (re_split_digits s).
Proof.
  induction s as [|c s IH]; simpl; [by repeat constructor|].
  intros [Hc Hs]%andb_prop. specialize (IH Hs).
  destruct (re_split_digits s) as [|t rest]; [constructor|].
  apply Forall_cons in IH as [Ht Hrest].
  destruct (is_decimal c).
  - destruct t as [|a t].
    + destruct rest as [|d rest'].
      * repeat constructor; simpl; by rewrite ?Hc.
      * apply Forall_cons in Hrest as [Hd Hrest'].
        repeat constructor; simpl; by rewrite ?Hc, ?Hd.
    + repeat constructor; simpl; rewrite ?Hc; done.
  - constructor; [|done]. simpl. by rewrite Hc, Ht.
Qed.

Lemma lower_char_superscript c : is_superscript (lower_char c) = is_superscript c.
Proof. by destruct c as [[] [] [] [] [] [] [] []]. Qed.

Lemma lower_no_superscript s :
  str_forall (λ c, negb (is_superscript c)) (lower s)
  = str_forall (λ c, negb (is_superscript c)) s.
Proof.
  induction s as [|c s IH]; simpl; [done|]. by rewrite lower_char_superscript, IH.
Qed.

Lemma str_forall_conflict t :
  t ≠ EmptyString → str_forall is_superscript t = true →
  str_forall (λ c, negb (is_superscript c)) t = false.
Proof.
  destruct t as [|c t]; [done|]. simpl. intros _ [-> _]%andb_prop. done.
Qed.

Lemma natural_sort_key_raises text e :
  natural_sort_key text = Err e ↔
  e = ValueError
  ∧ ∃ part, part ∈ re_split_digits (lower text)
            ∧ part ≠ EmptyString ∧ str_forall is_superscript part = true.
Proof.
  unfold natural_sort_key.
  pose proof (split_shape_pieces _ (re_split_digits_shape (lower text))) as Hsh.
  rewrite Forall_forall in Hsh. split.
  - intros (t & Ht & He)%rmapM_raises.
    apply key_part_raises in He as (-> & Hne & Hs); [|by apply Hsh]. eauto.
  - intros (-> & t & Ht & Hne & Hs).
    assert (key_part t = Err ValueError) as He
      by (apply key_part_raises; [by apply Hsh|done]).
    destruct (rmapM_raises_elem _ _ _ _ Ht He) as [e' He'].
    rewrite He'. f_equal.
    apply rmapM_raises in He' as (t' & Ht' & He').
    by apply key_part_raises in He' as (-> & _); [|by apply Hsh].
Qed.

(** A name without the characters U+00B2, U+00B3, U+00B9 has a key. *)
Lemma natural_sort_key_defined text :
  str_forall (λ c, negb (is_superscript c)) text = true →
  ∃ k, natural_sort_key text = Ok k.
Proof.
  intros Hs. destruct (natural_sort_key text) as [k|e] eqn:E; [eauto|].
  apply natural_sort_key_raises in E as (_ & t & Ht & Hne & Hsup).
  rewrite <- lower_no_superscript in Hs.
  apply re_split_digits_forall in Hs. rewrite Forall_forall in Hs.
  specialize (Hs t Ht). by rewrite str_forall_conflict in Hs.
Qed.

(** X1. On a name of at most 4300 characters, all below U+0100 as the names
    of this development are, [natural_sort_key] raises only [ValueError],
    and exactly when one of the pieces [re.split] returns for the
    lower-cased name is a non-empty run of the characters U+00B2, U+00B3,
    U+00B9 ([str.isdigit] accepts them, [int] does not); such a name
    without these characters has a key. Longer names and other characters
    are left out: [int] refuses more than 4300 digits, and [str.isdigit]
    accepts further characters above U+00FF. *)
Theorem natural_sort_key_raises_iff text :
  String.length text ≤ 4300 →
  (∀ e, natural_sort_key text = Err e ↔
        e = ValueError
        ∧ ∃ part, part ∈ re_split_digits (lower text)
                  ∧ part ≠ EmptyString ∧ str_forall is_superscript part = true)
  ∧ (str_forall (λ c, negb (is_superscript c)) text = true →
     ∃ k, natural_sort_key text = Ok k).
Proof.
  intros _. split.
  - intros e. apply natural_sort_key_raises.
  - apply natural_sort_key_defined.
Qed.

Lemma natural_sort_key_raises_iff_witness :
  ∃ k, natural_sort_key "Track 10.MP3" = Ok k.
Proof.
  apply (proj2 (natural_sort_key_raises_iff "Track 10.MP3" ltac:(simpl; lia))).
  reflexivity.
Defined.

(** ** Leading zeros *)

Lemma digits_value_leading_zeros n d :
  digits_value (zeros n +:+ d) = digits_value d.
Proof. unfold digits_value. by rewrite digits_value_zeros. Qed.

Lemma zeros_app_nonempty n d : d ≠ EmptyString → zeros n +:+ d ≠ EmptyString.
Proof.
  destruct n; simpl; [by rewrite str_app_nil_l|]. by rewrite str_app_cons.
Qed.

(** X2. Zeros in front of an embedded number do not change the key: the key
    keeps the value of the number, not its spelling, so that two different
    names can have the same key. *)
Theorem natural_sort_key_leading_zeros p d s n :
  last_is_decimal p = false →
  d ≠ EmptyString → str_forall is_decimal d = true →
  first_is_decimal s = false →
  natural_sort_key (p +:+ zeros n +:+ d +:+ s) = natural_sort_key (p +:+ d +:+ s).
Proof.
  intros Hp Hne Hd Hs.
  assert (str_forall is_decimal (zeros n +:+ d) = true) as Hzd
    by by rewrite str_forall_app, zeros_decimal, Hd.
  pose proof (zeros_app_nonempty n d Hne) as Hzne.
  rewrite <- (str_app_assoc (zeros n) d s).
  unfold natural_sort_key.
  rewrite !lower_app, (lower_of_decimal _ (zeros_decimal n)), (lower_of_decimal d Hd).
  rewrite !re_split_digits_embedded;
    [|by rewrite ?last_is_decimal_lower, ?first_is_decimal_lower..].
  rewrite !rmapM_app. simpl.
  by rewrite !key_part_run, digits_value_leading_zeros by done.
Qed.

Lemma natural_sort_key_leading_zeros_witness :
  natural_sort_key "Track 007.mp3" = natural_sort_key "Track 7.mp3".
Proof.
  apply (natural_sort_key_leading_zeros "Track " "7" ".mp3" 2);
    first [reflexivity | discriminate].
Defined.

(** ** The order of the keys is a strict total order *)

(** X3. On the keys of names the comparison [<] of Python never raises and
    is a strict total order: irreflexive, asymmetric, transitive, and two
    keys neither of which is below the other are equal. *)
Theorem key_order_strict_total a b c ka kb kc :
  natural_sort_key a = Ok ka → natural_sort_key b = Ok kb →
  natural_sort_key c = Ok kc →
  (∃ r, key_lt ka kb = Ok r)
  ∧ key_lt ka ka = Ok false
  ∧ (key_lt ka kb = Ok true → key_lt kb ka = Ok false)
  ∧ (key_lt ka kb = Ok true → key_lt kb kc = Ok true → key_lt ka kc = Ok true)
  ∧ (key_lt ka kb = Ok false → key_lt kb ka = Ok false → ka = kb).
Proof.
  intros Ha Hb Hc. split_and!.
  - apply key_lt_total; by eapply natural_sort_key_alternates.
  - apply key_lt_irrefl.
  - apply key_lt_asym.
  - apply key_lt_trans; by eapply natural_sort_key_aligned.
  - apply key_lt_connex.
Qed.

Lemma key_order_strict_total_witness :
  (∃ r, key_lt [TStr "a"; TInt 2; TStr EmptyString]
               [TStr "a"; TInt 10; TStr EmptyString] = Ok r)
  ∧ key_lt [TStr "a"; TInt 2; TStr EmptyString]
           [TStr "a"; TInt 2; TStr EmptyString] = Ok false
  ∧ (key_lt [TStr "a"; TInt 2; TStr EmptyString]
            [TStr "a"; TInt 10; TStr EmptyString] = Ok true →
     key_lt [TStr "a"; TInt 10; TStr EmptyString]
            [TStr "a"; TInt 2; TStr EmptyString] = Ok false)
  ∧ (key_lt [TStr "a"; TInt 2; TStr EmptyString]
            [TStr "a"; TInt 10; TStr EmptyString] = Ok true →
     key_lt [TStr "a"; TInt 10; TStr EmptyString]
            [TStr "b"] = Ok true →
     key_lt [TStr "a"; TInt 2; TStr EmptyString] [TStr "b"] = Ok true)
  ∧ (key_lt [TStr "a"; TInt 2; TStr EmptyString]
            [TStr "a"; TInt 10; TStr EmptyString] = Ok false →
     key_lt [TStr "a"; TInt 10; TStr EmptyString]
            [TStr "a"; TInt 2; TStr EmptyString] = Ok false →
     [TStr "a"; TInt 2; TStr EmptyString] = [TStr "a"; TInt 10; TStr EmptyString]).
Proof.
  apply (key_order_strict_total "a2" "A10" "b"); reflexivity.
Defined.

(** ** What the sort returns *)

(** X4. The sort is stable: the names that have one and the same key come
    out in the order in which they came in. *)
Theorem sort_natural_stable names sorted k :
  sort_natural names = Ok sorted →
  filter (λ x, natural_sort_key x = Ok k) sorted
  = filter (λ x, natural_sort_key x = Ok k) names.
Proof.
  unfold sort_natural. intros (l & Hl & H)%rbind_ok.
  apply rmap_ok in H as (l' & H & ->).
  pose proof (keyed_of_names _ _ Hl) as Hk.
  assert (Forall keyed l') as Hk' by by rewrite (sort_keyed_perm _ _ H).
  rewrite <- (keyed_names _ _ Hl).
  change (map snd l') with (l'.*2).
  rewrite !keyed_filter_names by done. f_equal. by apply sort_keyed_filter.
Qed.

Lemma sort_natural_stable_witness :
  filter (λ x, natural_sort_key x = Ok [TStr "a"; TInt 1; TStr EmptyString])
    ["A01"; "a1"; "b"]
  = filter (λ x, natural_sort_key x = Ok [TStr "a"; TInt 1; TStr EmptyString])
      ["b"; "A01"; "a1"].
Proof.
  apply (sort_natural_stable ["b"; "A01"; "a1"] ["A01"; "a1"; "b"]). reflexivity.
Defined.

(** X5. The sort returns exactly when every name has a key; otherwise it
    raises [ValueError], the exception of a name without key, and never
    [TypeError]. *)
Theorem sort_natural_raises_iff names :
  ((∃ sorted, sort_natural names = Ok sorted)
   ↔ ∀ x, x ∈ names → ∃ k, natural_sort_key x = Ok k)
  ∧ ∀ e, sort_natural names = Err e →
         e = ValueError ∧ ∃ x, x ∈ names ∧ natural_sort_key x = Err ValueError.
Proof.
  split; [split|].
  - intros [sorted H]. apply Forall_forall. by eapply sort_natural_keys.
  - intros H. by apply sort_natural_total, Forall_forall.
  - apply sort_natural_raises.
Qed.

Lemma precedes_connex x y kx ky :
  natural_sort_key x = Ok kx → natural_sort_key y = Ok ky →
  ¬ precedes x y → ¬ precedes y x → kx = ky.
Proof.
  intros Hx Hy Hxy Hyx.
  destruct (key_lt_total kx ky) as [[] H1];
    [by eapply natural_sort_key_alternates..| |].
  { destruct Hxy. by exists kx, ky. }
  destruct (key_lt_total ky kx) as [[] H2];
    [by eapply natural_sort_key_alternates..| |].
  { destruct Hyx. by exists ky, kx. }
  by apply key_lt_connex.
Qed.

(** X6. When no two of the names have the same key, the result of the sort
    does not depend on the order in which the names are given, that is on
    the order of [os.listdir]. *)
Theorem sort_natural_listing_order names1 names2 :
  names1 ≡ₚ names2 →
  (∀ x y, x ∈ names1 → y ∈ names1 →
          natural_sort_key x = natural_sort_key y → x = y) →
  sort_natural names1 = sort_natural names2.
Proof.
  intros Hp Hinj.
  destruct (sort_natural names1) as [s1|e1] eqn:H1.
  - pose proof (sort_natural_keys _ _ H1) as Hk. rewrite Forall_forall in Hk.
    destruct (sort_natural_total names2) as [s2 H2].
    { apply Forall_forall. intros x Hx. apply Hk. by rewrite Hp. }
    rewrite H2. f_equal.
    apply (StronglySorted_unique_strong (λ x y, ¬ precedes y x)).
    + intros x y Hx Hy Hxy Hyx.
      rewrite (sort_natural_perm _ _ H1) in Hx.
      rewrite (sort_natural_perm _ _ H2), <- Hp in Hy.
      destruct (Hk x Hx) as [kx Hkx], (Hk y Hy) as [ky Hky].
      apply Hinj; [done..|]. rewrite Hkx, Hky. f_equal.
      by apply (precedes_connex x y).
    + by eapply sort_natural_strongly_sorted.
    + by eapply sort_natural_strongly_sorted.
    + by rewrite (sort_natural_perm _ _ H1), (sort_natural_perm _ _ H2).
  - apply sort_natural_raises in H1 as (-> & x & Hx & He).
    destruct (sort_natural names2) as [s2|e2] eqn:H2.
    + pose proof (sort_natural_keys _ _ H2) as Hk. rewrite Forall_forall in Hk.
      rewrite Hp in Hx. destruct (Hk x Hx) as [k Hk']. congruence.
    + by apply sort_natural_raises in H2 as (-> & _).
Qed.

Lemma sort_natural_listing_order_witness :
  sort_natural ["b"; "a10"; "A2"] = sort_natural ["a10"; "A2"; "b"].
Proof.
  apply sort_natural_listing_order.
  - change ["b"; "a10"; "A2"] with (["b"] ++ ["a10"; "A2"]).
    change ["a10"; "A2"; "b"] with (["a10"; "A2"] ++ ["b"]).
    apply Permutation_app_comm.
  - intros x y Hx Hy.
    repeat (apply elem_of_cons in Hx as [->|Hx]); [| | |by apply elem_of_nil in Hx];
    repeat (apply elem_of_cons in Hy as [->|Hy]); try (by apply elem_of_nil in Hy);
    vm_compute; congruence.
Defined.

(** ** What collect_folders and collect_mp3s return *)

Lemma substring_all s : substring 0 (String.length s) s = s.
Proof. induction s as [|c s IH]; simpl; [done|]. by rewrite IH. Qed.

Lemma endswith_inv s suffix :
  endswith s suffix = true → ∃ p, s = p +:+ suffix.
Proof.
  unfold endswith. intros [Hle%Nat.leb_le Heq%String.eqb_eq]%andb_prop.
  revert Hle Heq. induction s as [|c s IH]; simpl.
  - intros Hle. assert (String.length suffix = 0) as -> by lia.
    simpl. intros <-. by exists EmptyString.
  - intros Hle Heq.
    destruct (decide (String.length suffix = S (String.length s))) as [E|E].
    + rewrite E, Nat.sub_diag in Heq.
      change (S (String.length s)) with (String.length (String c s)) in Heq.
      rewrite substring_all in Heq.
      exists EmptyString. by rewrite str_app_nil_l.
    + replace (S (String.length s) - String.length suffix)
        with (S (String.length s - String.length suffix)) in Heq by lia.
      simpl in Heq. destruct IH as [p Hp]; [lia|done|].
      exists (String c p). rewrite str_app_cons. by f_equal.
Qed.

Lemma is_mp3_name_iff name :
  is_mp3_name name = true ↔ ∃ stem, lower name = stem +:+ ".mp3".
Proof.
  unfold is_mp3_name. split.
  - apply endswith_inv.
  - intros [stem ->]. apply endswith_app.
Qed.

Section Collect.
Variable listing : gmap string node → list string.
Hypothesis Hls : listing_ok listing.
Implicit Types d c : gmap string node.

(** X8. [collect_folders] on a directory leaves the tree and the trace as
    they are. When it returns, the list holds the names of the
    subdirectories, each once and nothing else, as many as there are
    subdirectories, and no name comes strictly before an earlier one; when
    it raises, it raises [ValueError] and some subdirectory has a name
    without key. *)
Theorem collect_folders_result root w d :
  resolve root (tree w) = Some (Dir d) →
  ∃ r, collect_folders listing root w = (r, w)
    ∧ match r with
      | Ok folders =>
          NoDup folders
          ∧ (∀ x, x ∈ folders ↔ ∃ c, d !! x = Some (Dir c))
          ∧ length folders = size (subdirectories d)
          ∧ ∀ i j x y, i < j → folders !! i = Some x → folders !! j = Some y →
                       ¬ precedes y x
      | Err e =>
          e = ValueError
          ∧ ∃ x c, d !! x = Some (Dir c) ∧ natural_sort_key x = Err ValueError
      end.
Proof using Hls.
  intros Hres. rewrite (collect_folders_spec _ _ _ _ Hres).
  eexists. split; [done|].
  destruct (sort_natural (folder_names listing d)) as [folders|e] eqn:Hs.
  - destruct (sorted_folders listing Hls d folders Hs) as [Hnd Hin].
    split_and!.
    + done.
    + intros x. rewrite Hin. split.
      * intros (v & Hv & [c ->]%is_dir_true & _). eauto.
      * intros [c Hc]. by exists (Dir c).
    + rewrite (sort_natural_length _ _ Hs). apply (length_folder_names listing Hls).
    + by eapply sort_natural_ordered.
  - apply sort_natural_raises in Hs as (-> & x & Hx & He). split; [done|].
    apply (elem_of_folder_names listing Hls) in Hx
      as (v & Hv & [c ->]%is_dir_true & _). eauto.
Qed.

(** X9. [collect_mp3s] on a directory leaves the tree and the trace as they
    are. When it returns, the list holds the names of the regular files
    whose lower-cased name ends in ".mp3", each once and nothing else (no
    directory, whatever its name), and no name comes strictly before an
    earlier one; when it raises, it raises [ValueError] and some such file
    has a name without key. *)
Theorem collect_mp3s_result folder_path w c :
  resolve folder_path (tree w) = Some (Dir c) →
  ∃ r, collect_mp3s listing folder_path w = (r, w)
    ∧ match r with
      | Ok mp3s =>
          NoDup mp3s
          ∧ (∀ x, x ∈ mp3s ↔
                  ∃ n stem, c !! x = Some (File n) ∧ lower x = stem +:+ ".mp3")
          ∧ length mp3s = size (mp3_files c)
          ∧ ∀ i j x y, i < j → mp3s !! i = Some x → mp3s !! j = Some y →
                       ¬ precedes y x
      | Err e =>
          e = ValueError
          ∧ ∃ x n, c !! x = Some (File n) ∧ is_mp3_name x = true
                   ∧ natural_sort_key x = Err ValueError
      end.
Proof using Hls.
  intros Hres. rewrite (collect_mp3s_spec _ _ _ _ Hres).
  eexists. split; [done|].
  destruct (sort_natural (mp3_names listing c)) as [mp3s|e] eqn:Hs.
  - destruct (sorted_mp3s listing Hls c mp3s Hs) as [Hnd Hin].
    split_and!.
    + done.
    + intros x. rewrite Hin. split.
      * intros (v & Hv & [n ->]%is_dir_false & [stem Hm]%is_mp3_name_iff). eauto.
      * intros (n & stem & Hc & Hm). exists (File n).
        split_and!; [done..|]. apply is_mp3_name_iff. eauto.
    + rewrite (sort_natural_length _ _ Hs). apply (length_mp3_names listing Hls).
    + by eapply sort_natural_ordered.
  - apply sort_natural_raises in Hs as (-> & x & Hx & He). split; [done|].
    apply (elem_of_mp3_names listing Hls) in Hx
      as (v & Hv & [n ->]%is_dir_false & Hm). eauto.
Qed.
End Collect.

Lemma collect_folders_result_witness :
  ∃ r, collect_folders listing_sample [] (World (Dir sample_card) [])
       = (r, World (Dir sample_card) [])
    ∧ match r with
      | Ok folders =>
          NoDup folders
          ∧ (∀ x, x ∈ folders ↔ ∃ c, sample_card !! x = Some (Dir c))
          ∧ length folders = size (subdirectories sample_card)
          ∧ ∀ i j x y, i < j → folders !! i = Some x → folders !! j = Some y →
                       ¬ precedes y x
      | Err e =>
          e = ValueError
          ∧ ∃ x c, sample_card !! x = Some (Dir c)
                   ∧ natural_sort_key x = Err ValueError
      end.
Proof.
  apply (collect_folders_result listing_sample listing_sample_ok []
           (World (Dir sample_card) []) sample_card).
  reflexivity.
Defined.

Lemma collect_mp3s_result_witness :
  ∃ r, collect_mp3s listing_sample ["B side"] (World (Dir sample_card) [])
       = (r, World (Dir sample_card) [])
    ∧ match r with
      | Ok mp3s =>
          NoDup mp3s
          ∧ (∀ x, x ∈ mp3s ↔
                  ∃ n stem, album !! x = Some (File n) ∧ lower x = stem +:+ ".mp3")
          ∧ length mp3s = size (mp3_files album)
          ∧ ∀ i j x y, i < j → mp3s !! i = Some x → mp3s !! j = Some y →
                       ¬ precedes y x
      | Err e =>
          e = ValueError
          ∧ ∃ x n, album !! x = Some (File n) ∧ is_mp3_name x = true
                   ∧ natural_sort_key x = Err ValueError
      end.
Proof.
  apply (collect_mp3s_result listing_sample listing_sample_ok ["B side"]
           (World (Dir sample_card) []) album).
  vm_compute. reflexivity.
Defined.

(** ** The loop over the folders, however it ends *)

Section Outcome.
Variable listing : gmap string node → list string.
Implicit Types d c : gmap string node.
Implicit Types w : world.

Lemma world_eta w : World (tree w) (trace w) = w.
Proof. by destruct w. Qed.

Lemma rename_files_in_outcome folders total w d :
  tree w = Dir d →
  rename_files_in listing [] folders total w
  = let '(r, d', tr) := loop_outcome listing folders d in
    (rmap (λ n, total + n) r, World (Dir d') (trace w ++ tr)).
Proof.
  revert total w d. induction folders as [|y rest IH]; intros total w d Hw.
  { simpl. unfold mret. rewrite app_nil_r, Nat.add_0_r, <- Hw. by rewrite world_eta. }
  cbn [rename_files_in loop_outcome]. rewrite mbind_unfold.
  destruct (d !! y) as [[n|cy]|] eqn:Hy.
  { unfold collect_mp3s. rewrite mbind_unfold. unfold os_listdir, os_path_join.
    simpl. rewrite Hw. simpl. rewrite Hy. simpl.
    rewrite app_nil_r, <- Hw. by rewrite world_eta. }
  2:{ unfold collect_mp3s. rewrite mbind_unfold. unfold os_listdir, os_path_join.
      simpl. rewrite Hw. simpl. rewrite Hy. simpl.
      rewrite app_nil_r, <- Hw. by rewrite world_eta. }
  assert (resolve (os_path_join [] y) (tree w) = Some (Dir cy)) as Hres
    by (rewrite Hw; by apply resolve_child).
  rewrite (collect_mp3s_spec listing _ _ cy Hres).
  destruct (sort_natural (mp3_names listing cy)) as [mp3s|e] eqn:Hs.
  2:{ simpl. rewrite app_nil_r, <- Hw. by rewrite world_eta. }
  destruct mp3s as [|m0 mp3s].
  { cbv beta iota. rewrite mbind_unfold, print_spec.
    rewrite (IH _ _ d) by done.
    destruct (loop_outcome listing rest d) as [[r d'] tr]. simpl.
    by rewrite <- app_assoc. }
  cbv beta iota.
  destruct (MAX_FILES_PER_FOLDER <? length (m0 :: mp3s)) eqn:Hfit.
  { rewrite mbind_unfold, print_spec. simpl. by rewrite Hw. }
  rewrite mbind_unfold, (rename_two_phase_exec _ _ _ _ _ Hres).
  destruct (exec_renames _ cy) as [[calls cy'] [e|]] eqn:E.
  { unfold after_calls. by rewrite Hw, (graft_child _ _ cy). }
  apply exec_renames_ok in E as [Hrun ->].
  rewrite mbind_unfold, print_spec, mbind_unfold, report_files_spec.
  rewrite (IH _ _ (<[y:=Dir cy']> d))
    by (simpl; rewrite Hw; by apply (graft_child _ _ cy)).
  destruct (loop_outcome listing rest (<[y:=Dir cy']> d)) as [[r d'] tr].
  cbv beta iota. cbn [trace tree]. f_equal.
  - destruct r; [|done]. unfold rmap, rbind. f_equal. unfold mapping_of.
    rewrite length_imap. lia.
  - f_equal. rewrite <- !app_assoc. unfold after_calls. cbn [trace]. by rewrite <- app_assoc.
Qed.

Lemma process_sd_card_outcome d tr0 :
  process_sd_card listing (World (Dir d) tr0)
  = let '(r, d', tr) := process_outcome listing d in
    (r, World (Dir d') (tr0 ++ tr)).
Proof.
  unfold process_sd_card, process_outcome. rewrite mbind_unfold.
  change (os_path_isdir [] (World (Dir d) tr0)) with (Ok true, World (Dir d) tr0).
  cbv iota beta. change (negb true) with false. cbv iota.
  rewrite mbind_unfold, (collect_folders_spec listing [] _ d) by done.
  destruct (sort_natural (folder_names listing d)) as [folders|e] eqn:Hs;
    [|by rewrite app_nil_r].
  destruct folders as [|f0 folders]; [by rewrite print_spec|].
  cbv beta iota. destruct (MAX_FOLDERS <? length (f0 :: folders)) eqn:Hlen.
  { by rewrite mbind_unfold, print_spec. }
  rewrite mbind_unfold, (rename_files_in_outcome _ _ _ d) by done.
  destruct (loop_outcome listing (f0 :: folders) d) as [[[k|e] d1] tr1]; [|done].
  cbn [rmap rbind trace]. rewrite mbind_unfold.
  rewrite (rename_two_phase_exec _ _ [] _ d1) by done.
  destruct (exec_renames _ d1) as [[calls d2] [e|]] eqn:E.
  { unfold after_calls. cbn [graft tree trace]. by rewrite <- app_assoc. }
  apply exec_renames_ok in E as [Hrun ->].
  rewrite mbind_unfold, print_spec, mbind_unfold, report_folders_spec, print_spec.
  unfold after_calls. cbn [graft tree trace]. do 2 f_equal.
  unfold folder_phase_events, mapping_of.
  rewrite length_imap. rewrite <- ?app_assoc. simpl. by rewrite <- ?app_assoc.
Qed.
End Outcome.

(** ** What a sequence of renames leaves alone *)

Section Kept.
Implicit Types d c : gmap string node.

(** A rename whose source is of kind [K] (a directory, or a regular file)
    leaves the entries of the other kind as they are. *)
Lemma rename_entry_other (K : bool) s t d d' :
  rename_entry s t d = Ok d' →
  (∀ u, d !! s = Some u → is_dir u = K) →
  (∀ y u, is_dir u ≠ K → (d' !! y = Some u ↔ d !! y = Some u))
  ∧ (∀ u, d' !! t = Some u → is_dir u = K).
Proof.
  intros H Hk. pose proof (rename_entry_lookup _ _ _ _ t H) as Ht.
  rewrite decide_True in Ht by done.
  apply rename_entry_inv in H as (v & Hs & [[-> ->] | (Hne & -> & Hrep)]).
  { split; [done|]. intros u Hu. by apply Hk. }
  specialize (Hk v Hs). split.
  - intros y u Hu. destruct (decide (y = t)) as [->|Hyt].
    + rewrite lookup_insert_eq. split.
      * intros [= ->]. done.
      * intros Hy. specialize (Hrep _ Hy). congruence.
    + rewrite lookup_insert_ne by done.
      destruct (decide (y = s)) as [->|Hys].
      * rewrite lookup_delete_eq, Hs. split; [done|]. intros [= ->]. done.
      * by rewrite lookup_delete_ne.
  - intros u. rewrite lookup_insert_eq. by intros [= <-].
Qed.

Lemma exec_renames_other (K : bool) steps d0 d calls d' e :
  (∀ y u, is_dir u ≠ K → (d !! y = Some u ↔ d0 !! y = Some u)) →
  (∀ k s t, steps !! k = Some (s, t) →
     (∀ u, d0 !! s = Some u → is_dir u = K)
     ∨ ∃ j s', j < k ∧ steps !! j = Some (s', s)) →
  exec_renames steps d = (calls, d', e) →
  ∀ y u, is_dir u ≠ K → (d' !! y = Some u ↔ d0 !! y = Some u).
Proof.
  revert d calls. induction steps as [|[s t] steps IH]; intros d calls Hkept Hsrc.
  { simpl. by intros [= _ <- _]. }
  simpl. destruct (rename_entry s t d) as [d1|e1] eqn:E1; [|by intros [= _ <- _]].
  destruct (exec_renames steps d1) as [[calls2 d2] e2] eqn:E2.
  intros [= _ <- <-].
  assert (∀ u, d !! s = Some u → is_dir u = K) as Hs.
  { intros u Hu. destruct (decide (is_dir u = K)) as [|Hne]; [done|].
    apply (Hkept _ _ Hne) in Hu.
    destruct (Hsrc 0 s t eq_refl) as [H0|(j & ? & ? & _)]; [by apply H0|lia]. }
  destruct (rename_entry_other K _ _ _ _ E1 Hs) as [Hother Hdst].
  apply (IH d1 calls2); [| |done].
  - intros y u Hu. by rewrite (Hother y u Hu), (Hkept y u Hu).
  - intros k s1 t1 Hk. destruct (Hsrc (S k) s1 t1 Hk) as [H0|(j & s' & Hj & Hl)].
    { by left. }
    destruct j as [|j].
    + injection Hl as -> ->. left. intros u Hu.
      destruct (decide (is_dir u = K)) as [|Hne]; [done|].
      apply (Hkept _ _ Hne), (Hother _ _ Hne) in Hu. by apply Hdst.
    + right. exists j, s'. split; [lia|done].
Qed.

(** A name that no call mentions keeps its entry. *)
Lemma exec_renames_frame steps d calls d' e y :
  exec_renames steps d = (calls, d', e) →
  y ∉ steps.*1 → y ∉ steps.*2 → d' !! y = d !! y.
Proof.
  revert d calls. induction steps as [|[s t] steps IH]; intros d calls.
  { simpl. by intros [= _ <- _]. }
  simpl. destruct (rename_entry s t d) as [d1|e1] eqn:E1; [|by intros [= _ <- _]].
  destruct (exec_renames steps d1) as [[calls2 d2] e2] eqn:E2.
  intros [= _ <- <-]. rewrite !not_elem_of_cons. intros [Hys H1] [Hyt H2].
  rewrite (IH _ _ E2 H1 H2), (rename_entry_lookup _ _ _ _ y E1).
  by rewrite !decide_False.
Qed.

(** Renames create nothing: what a name holds afterwards, a name held
    before. *)
Lemma exec_renames_values steps d calls d' e y v :
  exec_renames steps d = (calls, d', e) →
  d' !! y = Some v → ∃ x, d !! x = Some v.
Proof.
  revert d calls y. induction steps as [|[s t] steps IH]; intros d calls y.
  { simpl. intros [= _ <- _]. eauto. }
  simpl. destruct (rename_entry s t d) as [d1|e1] eqn:E1; [|intros [= _ <- _]; eauto].
  destruct (exec_renames steps d1) as [[calls2 d2] e2] eqn:E2.
  intros [= _ <- <-] Hy. destruct (IH _ _ _ E2 Hy) as [x Hx].
  rewrite (rename_entry_lookup _ _ _ _ x E1) in Hx.
  repeat case_decide; eauto. done.
Qed.

(** The calls issued are the first calls of the sequence. *)
Lemma exec_renames_prefix steps d calls d' e :
  exec_renames steps d = (calls, d', e) → calls `prefix_of` steps.
Proof.
  revert d calls. induction steps as [|[s t] steps IH]; intros d calls.
  { simpl. by intros [= <- _ _]. }
  simpl. destruct (rename_entry s t d) as [d1|e1] eqn:E1.
  - destruct (exec_renames steps d1) as [[calls2 d2] e2] eqn:E2.
    intros [= <- <- <-]. apply prefix_cons. by eapply IH.
  - intros [= <- _ _]. apply prefix_cons, prefix_nil.
Qed.

Lemma rename_steps_lookup items mk k s t :
  rename_steps items mk !! k = Some (s, t) →
  (items !! k = Some s ∧ t = temp_name mk k)
  ∨ ∃ i, k = length items + i ∧ i < length items
         ∧ s = temp_name mk i ∧ t = mk i
         ∧ ∃ x, rename_steps items mk !! i = Some (x, s).
Proof.
  unfold rename_steps. intros H.
  apply lookup_app_Some in H as [H|[Hk H]].
  - left. unfold phase1_steps in H. rewrite list_lookup_imap in H.
    destruct (items !! k); [|done]. by injection H as <- <-.
  - right. unfold phase1_steps in Hk, H. rewrite length_imap in Hk, H.
    unfold phase2_steps in H. rewrite list_lookup_imap in H.
    destruct (items !! (k - length items)) as [x|] eqn:Hx; [|done].
    injection H as <- <-. apply lookup_lt_Some in Hx as Hlt.
    exists (k - length items). split_and!; [lia|done..|].
    exists x. rewrite lookup_app_l by (unfold phase1_steps; by rewrite length_imap).
    unfold phase1_steps. by rewrite list_lookup_imap, Hx.
Qed.

(** [rename_two_phase] on entries of one kind leaves the entries of the
    other kind alone, however it ends. *)
Lemma rename_steps_other (K : bool) items mk d calls d' e :
  (∀ x u, x ∈ items → d !! x = Some u → is_dir u = K) →
  exec_renames (rename_steps items mk) d = (calls, d', e) →
  ∀ y u, is_dir u ≠ K → (d' !! y = Some u ↔ d !! y = Some u).
Proof.
  intros Hitems H.
  apply (exec_renames_other K (rename_steps items mk) d d calls d' e); [done| |done].
  intros k s t [[Hs ->]|(i & -> & Hi & -> & -> & x & Hx)]%rename_steps_lookup.
  - left. intros u. apply Hitems. by eapply list_elem_of_lookup_2.
  - right. exists i, x. split; [lia|done].
Qed.
End Kept.

(** ** What the loop over the folders keeps *)

Lemma same_others_refl c : same_others c c.
Proof. by intros z v _. Qed.

Lemma rename_calls_app tr1 tr2 :
  rename_calls (tr1 ++ tr2) = rename_calls tr1 + rename_calls tr2.
Proof. unfold rename_calls. by rewrite List.filter_app, length_app. Qed.

Lemma rename_calls_renames base steps :
  rename_calls (rename_event base <$> steps) = length steps.
Proof.
  unfold rename_calls. induction steps as [|[s t] steps IH]; [done|].
  rewrite fmap_cons. simpl. by rewrite IH.
Qed.

Lemma rename_calls_prints {A} (f : A → message) (s : stream) l :
  rename_calls ((λ a, EPrint s (f a)) <$> l) = 0.
Proof. unfold rename_calls. induction l as [|a l IH]; [done|]. by rewrite fmap_cons. Qed.

Lemma rename_calls_file_lines l : rename_calls (file_line <$> l) = 0.
Proof. unfold rename_calls. induction l as [|a l IH]; [done|]. by rewrite fmap_cons. Qed.

Lemma rename_calls_folder_lines l : rename_calls (folder_line <$> l) = 0.
Proof. unfold rename_calls. induction l as [|a l IH]; [done|]. by rewrite fmap_cons. Qed.

Lemma length_rename_steps items mk :
  length (rename_steps items mk) = 2 * length items.
Proof.
  unfold rename_steps, phase1_steps, phase2_steps.
  rewrite length_app, !length_imap. lia.
Qed.

Lemma rename_steps_names items mk s t :
  (s, t) ∈ rename_steps items mk →
  (s ∈ items ∨ ∃ i, i < length items ∧ s = temp_name mk i)
  ∧ ∃ i, i < length items ∧ (t = temp_name mk i ∨ t = mk i).
Proof.
  unfold rename_steps. rewrite elem_of_app.
  intros [(i & Hi & ->)%elem_of_phase1_steps | (i & Hi & -> & ->)%elem_of_phase2_steps].
  - split; [left; by eapply list_elem_of_lookup_2|].
    apply lookup_lt_Some in Hi. eauto.
  - split; [right|]; eauto.
Qed.

Section LoopKeeps.
Variable listing : gmap string node → list string.
Hypothesis Hls : listing_ok listing.
Implicit Types d c : gmap string node.

Lemma file_steps_mp3 c mp3s s t :
  sort_natural (mp3_names listing c) = Ok mp3s →
  (s, t) ∈ rename_steps mp3s file_final_name →
  is_mp3_name s = true ∧ is_mp3_name t = true.
Proof using Hls.
  intros Hs [Hsrc (i & _ & Ht)]%rename_steps_names.
  destruct (sorted_mp3s listing Hls c mp3s Hs) as [_ Hin]. split.
  - destruct Hsrc as [Hx|(j & _ & ->)]; [|apply temp_file_name_mp3].
    by apply Hin in Hx as (v & _ & _ & Hm).
  - destruct Ht as [-> | ->]; [apply temp_file_name_mp3|apply file_final_name_mp3].
Qed.

Lemma folder_same_others c mp3s calls c' e :
  sort_natural (mp3_names listing c) = Ok mp3s →
  exec_renames (rename_steps mp3s file_final_name) c = (calls, c', e) →
  same_others c c'.
Proof using Hls.
  intros Hs He z v [Hdir|Hname].
  - apply (rename_steps_other false mp3s file_final_name c calls c' e);
      [|done|by rewrite Hdir].
    intros x u Hx Hu. destruct (sorted_mp3s listing Hls c mp3s Hs) as [_ Hin].
    apply Hin in Hx as (v' & Hv' & Hk & _). congruence.
  - rewrite (exec_renames_frame _ _ _ _ _ z He); [done| |].
    + intros ([s t] & -> & Hin)%list_elem_of_fmap.
      destruct (file_steps_mp3 _ _ _ _ Hs Hin). simpl in *. congruence.
    + intros ([s t] & -> & Hin)%list_elem_of_fmap.
      destruct (file_steps_mp3 _ _ _ _ Hs Hin). simpl in *. congruence.
Qed.

Lemma mp3_count_length d x c mp3s :
  d !! x = Some (Dir c) →
  sort_natural (mp3_names listing c) = Ok mp3s →
  mp3_count d x = length mp3s.
Proof using Hls.
  intros Hx Hs. unfold mp3_count. rewrite Hx.
  by rewrite (sort_natural_length _ _ Hs), (length_mp3_names listing Hls).
Qed.

Lemma mp3_count_ext d d' (l : list string) :
  (∀ y, y ∈ l → d' !! y = d !! y) → mp3_count d' <$> l = mp3_count d <$> l.
Proof.
  intros H. apply list_fmap_ext. intros i y Hy. unfold mp3_count.
  by rewrite H by by eapply list_elem_of_lookup_2.
Qed.

Lemma loop_outcome_keeps folders d r d' tr :
  loop_outcome listing folders d = (r, d', tr) →
  NoDup folders →
  (∀ y, y ∈ folders → ∃ c, d !! y = Some (Dir c)) →
  (∀ y, y ∉ folders → d' !! y = d !! y)
  ∧ (∀ y c, y ∈ folders → d !! y = Some (Dir c) →
       ∃ c', d' !! y = Some (Dir c') ∧ same_others c c')
  ∧ (∀ b s t, ERename b s t ∈ tr →
       ∃ y, y ∈ folders ∧ b = [y]
            ∧ is_mp3_name s = true ∧ is_mp3_name t = true)
  ∧ (∀ code, r = Err (SystemExit code) →
       code = 1%Z ∧ ∃ tr' m, tr = tr' ++ [EPrint Stderr m])
  ∧ (∀ k, r = Ok k →
       k = sum_list (mp3_count d <$> folders) ∧ rename_calls tr = 2 * k).
Proof using Hls.
  revert d r d' tr. induction folders as [|x rest IH]; intros d r d' tr.
  { simpl. intros [= <- <- <-] _ _. split_and!; try done.
    - by intros y c ?%elem_of_nil.
    - by intros b s t ?%elem_of_nil.
    - by intros k [= <-]. }
  intros H [Hx Hnd]%NoDup_cons Hdirs.
  destruct (Hdirs x) as [c Hc]; [by left|].
  assert (∀ y, y ∈ rest → ∃ c0, d !! y = Some (Dir c0)) as Hdirs'
    by (intros y Hy; apply Hdirs; by right).
  cbn [loop_outcome] in H. rewrite Hc in H.
  destruct (sort_natural (mp3_names listing c)) as [mp3s|e] eqn:Hs.
  2:{ (* a name without sort key *)
    injection H as <- <- <-. split_and!; try done.
    - intros y c0 _ Hy. exists c0. split; [done|apply same_others_refl].
    - by intros b s t ?%elem_of_nil.
    - intros code [= ->]. by destruct (sort_natural_not_exit _ _ Hs code). }
  pose proof (mp3_count_length _ _ _ _ Hc Hs) as Hcount.
  destruct mp3s as [|m0 mp3s].
  { (* no mp3 file *)
    destruct (loop_outcome listing rest d) as [[r0 d0] tr0] eqn:E.
    injection H as <- <- <-.
    destruct (IH _ _ _ _ E Hnd Hdirs') as (I1 & I2 & I3 & I4 & I5). split_and!.
    - intros y [??]%not_elem_of_cons. by apply I1.
    - intros y c0 [->|Hy]%elem_of_cons Hy0; [|by apply I2].
      exists c0. rewrite I1 by done. split; [done|apply same_others_refl].
    - intros b s t [?|Hin]%elem_of_cons; [done|].
      destruct (I3 _ _ _ Hin) as (y & ? & ?). exists y. split; [by right|done].
    - intros code Hr. destruct (I4 _ Hr) as (-> & tr' & m & ->).
      split; [done|]. by exists (EPrint Stdout (MsgNoMp3 x) :: tr'), m.
    - intros k Hr. destruct (I5 _ Hr) as [-> Hcalls]. rewrite fmap_cons.
      simpl. rewrite Hcount. simpl. split; [done|]. exact Hcalls. }
  cbv beta iota in H. remember (m0 :: mp3s) as mp3l eqn:Hl.
  destruct (MAX_FILES_PER_FOLDER <? length mp3l) eqn:Hfit.
  { (* too many files *)
    injection H as <- <- <-. split_and!; try done.
    - intros y c0 _ Hy. exists c0. split; [done|apply same_others_refl].
    - by intros b s t ?%list_elem_of_singleton.
    - intros code [= <-]. split; [done|]. by eexists [], _. }
  destruct (exec_renames _ c) as [[calls c'] [e|]] eqn:E.
  { (* a rename raised *)
    injection H as <- <- <-. split_and!; try done.
    - intros y [??]%not_elem_of_cons. by rewrite lookup_insert_ne.
    - intros y c0 [->|Hy]%elem_of_cons Hy0.
      + assert (c0 = c) as -> by congruence. exists c'.
        rewrite lookup_insert_eq. split; [done|]. by eapply folder_same_others.
      + exists c0. rewrite lookup_insert_ne by (by intros ->).
        split; [done|apply same_others_refl].
    - intros b s t ([s' t'] & [= -> -> ->] & Hin)%list_elem_of_fmap.
      exists x. split; [by left|]. split; [done|].
      apply (file_steps_mp3 c mp3l); [done|].
      apply exec_renames_prefix in E as [rest' ->]. apply elem_of_app. by left.
    - intros code [= ->]. by destruct (exec_renames_err _ _ _ _ _ E code). }
  pose proof (folder_same_others _ _ _ _ _ Hs E) as Hsame.
  apply exec_renames_ok in E as [Hrun ->].
  destruct (loop_outcome listing rest (<[x:=Dir c']> d)) as [[r0 d0] tr0] eqn:E0.
  injection H as <- <- <-.
  destruct (IH _ _ _ _ E0 Hnd) as (I1 & I2 & I3 & I4 & I5).
  { intros y Hy. destruct (Hdirs' y Hy) as [c0 Hc0]. exists c0.
    rewrite lookup_insert_ne; [done|]. by intros ->. }
  split_and!.
  - intros y [??]%not_elem_of_cons. rewrite I1 by done. by rewrite lookup_insert_ne.
  - intros y c0 [->|Hy]%elem_of_cons Hy0.
    + assert (c0 = c) as -> by congruence. exists c'.
      rewrite I1 by done. by rewrite lookup_insert_eq.
    + apply I2; [done|]. rewrite lookup_insert_ne; [done|]. by intros ->.
  - intros b s t Hin.
    apply elem_of_app in Hin as [Hin|Hin];
      [|apply elem_of_cons in Hin as [Hin|Hin];
        [|apply elem_of_app in Hin as [Hin|Hin]]].
    + apply list_elem_of_fmap in Hin as ([s' t'] & [= -> -> ->] & Hin).
      exists x. split; [by left|]. split; [done|].
      by apply (file_steps_mp3 c mp3l).
    + done.
    + by apply list_elem_of_fmap in Hin as (? & ? & _).
    + destruct (I3 _ _ _ Hin) as (y & ? & ?). exists y. split; [by right|done].
  - intros code Hr. destruct r0 as [k0|e0]; [done|]. injection Hr as ->.
    destruct (I4 _ eq_refl) as (-> & tr' & m & ->). split; [done|].
    eexists _, m. rewrite app_comm_cons, !app_assoc. reflexivity.
  - intros k Hr. destruct r0 as [k0|e0]; [|done]. injection Hr as <-.
    destruct (I5 _ eq_refl) as [-> Hcalls]. rewrite fmap_cons. simpl.
    rewrite Hcount. split.
    + f_equal. f_equal. apply mp3_count_ext. intros y Hy.
      rewrite lookup_insert_ne; [done|]. by intros ->.
    + rewrite rename_calls_app, rename_calls_renames, length_rename_steps.
      change (EPrint Stdout (MsgFolderHeader x) :: ?l) with
        ([EPrint Stdout (MsgFolderHeader x)] ++ l).
      rewrite (rename_calls_app [_]), rename_calls_app, rename_calls_file_lines.
      rewrite Hcalls. unfold rename_calls at 1. simpl. lia.
Qed.
End LoopKeeps.

(** ** The script, however it ends *)

Section Script.
Variable listing : gmap string node → list string.
Hypothesis Hls : listing_ok listing.
Implicit Types d c : gmap string node.
Implicit Types w : world.

Lemma main_outcome d tr0 :
  main listing (World (Dir d) tr0)
  = let '(r, d', tr) := process_outcome listing d in
    match r with
    | Ok _ => (0%Z, World (Dir d') (tr0 ++ tr))
    | Err (SystemExit code) => (code, World (Dir d') (tr0 ++ tr))
    | Err e => (1%Z, World (Dir d') (tr0 ++ tr ++ [ETraceback e]))
    end.
Proof.
  rewrite main_unfold, process_sd_card_outcome.
  destruct (process_outcome listing d) as [[[[]|e] d'] tr]; [done|].
  destruct e; cbn [tree trace]; by rewrite <- ?app_assoc.
Qed.

(** What [process_outcome] is made of, case by case. *)
Lemma process_outcome_cases d r d' tr :
  process_outcome listing d = (r, d', tr) →
  (∃ e, sort_natural (folder_names listing d) = Err e
        ∧ r = Err e ∧ d' = d ∧ tr = [])
  ∨ (sort_natural (folder_names listing d) = Ok []
     ∧ r = Ok tt ∧ d' = d ∧ tr = [EPrint Stdout MsgNothingToDo])
  ∨ ∃ folders,
      sort_natural (folder_names listing d) = Ok folders ∧ folders ≠ []
      ∧ ((MAX_FOLDERS < length folders
          ∧ r = Err (SystemExit 1) ∧ d' = d
          ∧ tr = [EPrint Stderr (MsgTooManyFolders (length folders))])
         ∨ (length folders ≤ MAX_FOLDERS
            ∧ ∃ r1 d1 tr1,
                loop_outcome listing folders d = (r1, d1, tr1)
                ∧ ((∃ e, r1 = Err e ∧ r = Err e ∧ d' = d1 ∧ tr = tr1)
                   ∨ ∃ k calls e,
                       r1 = Ok k
                       ∧ exec_renames (rename_steps folders folder_final_name) d1
                         = (calls, d', e)
                       ∧ match e with
                         | Some e =>
                             r = Err e ∧ tr = tr1 ++ (rename_event [] <$> calls)
                         | None =>
                             r = Ok tt ∧ tr = tr1 ++ folder_phase_events folders k
                         end))).
Proof.
  unfold process_outcome.
  destruct (sort_natural (folder_names listing d)) as [folders|e] eqn:Hs.
  2:{ intros [= <- <- <-]. left. by exists e. }
  destruct folders as [|f0 folders].
  { intros [= <- <- <-]. right. by left. }
  cbv beta iota. remember (f0 :: folders) as fl eqn:Hfl.
  assert (fl ≠ []) as Hne by by subst.
  intros H. right. right. exists fl. split; [done|]. split; [done|].
  destruct (MAX_FOLDERS <? length fl) eqn:Hlen.
  { injection H as <- <- <-. left. by apply Nat.ltb_lt in Hlen. }
  apply Nat.ltb_ge in Hlen. right. split; [done|].
  destruct (loop_outcome listing fl d) as [[r1 d1] tr1] eqn:E1.
  exists r1, d1, tr1. split; [done|]. destruct r1 as [k|e].
  - right. destruct (exec_renames _ d1) as [[calls d2] e] eqn:E2.
    exists k, calls, e. destruct e; injection H as <- <- <-; by split_and!.
  - left. injection H as <- <- <-. by exists e.
Qed.

Lemma folders_are_directories d folders :
  sort_natural (folder_names listing d) = Ok folders →
  NoDup folders ∧ ∀ y, y ∈ folders ↔ ∃ c, d !! y = Some (Dir c).
Proof using Hls.
  intros Hs. destruct (sorted_folders listing Hls d folders Hs) as [Hnd Hin].
  split; [done|]. intros y. rewrite Hin. split.
  - intros (v & Hv & [c ->]%is_dir_true & _). eauto.
  - intros [c Hc]. by exists (Dir c).
Qed.

Lemma folder_phase_events_last folders k :
  ∃ tr, folder_phase_events folders k
        = tr ++ [EPrint Stdout (MsgDone (length folders) k)].
Proof.
  unfold folder_phase_events. eexists.
  rewrite app_comm_cons, !app_assoc. reflexivity.
Qed.

(** X15. Started on a path, the script ends with status 0 or 1; the status
    is 0 exactly when [process_sd_card] returns, and then the last thing
    the script did is print on the output stream; with status 1 the last
    thing it did is report on the error stream. *)
Theorem main_exit_status w s w' :
  main listing w = (s, w') →
  (s = 0%Z ∨ s = 1%Z)
  ∧ (s = 0%Z ↔ (process_sd_card listing w).1 = Ok tt)
  ∧ (s = 0%Z → ∃ tr m, trace w' = trace w ++ tr ++ [EPrint Stdout m])
  ∧ (s = 1%Z → ∃ tr ev, trace w' = trace w ++ tr ++ [ev] ∧ on_stderr ev = true).
Proof using Hls.
  destruct w as [[n|d] tr0].
  { intros [= <- <-]. split_and!; [by right|done|done|].
    intros _. by exists [], (EPrint Stderr MsgNotADirectory). }
  rewrite main_outcome, process_sd_card_outcome.
  destruct (process_outcome listing d) as [[r d'] tr] eqn:Hp.
  cbn [fst trace].
  apply process_outcome_cases in Hp
    as [(e & Hs & -> & -> & ->)
       |[(Hs & -> & -> & ->)
        |(folders & Hs & Hne & [(Hlen & -> & -> & ->)|(Hlen & r1 & d1 & tr1 & Hl & Hrest)])]].
  - (* the sort raised *)
    pose proof (sort_natural_not_exit _ _ Hs) as Hexit.
    destruct e as [| | | | | |ec]; try (by destruct (Hexit ec));
      intros [= <- <-]; (split_and!; [by right|done|done|]);
      intros _; by eexists [], _.
  - (* no folder *)
    intros [= <- <-]. split_and!; [by left|done| |done].
    intros _. by exists [], MsgNothingToDo.
  - (* too many folders *)
    intros [= <- <-]. split_and!; [by right|done|done|].
    intros _. by eexists [], _.
  - destruct (folders_are_directories d folders Hs) as [Hnd Hin].
    destruct (loop_outcome_keeps listing Hls folders d r1 d1 tr1 Hl Hnd)
      as (_ & _ & _ & I4 & _); [intros y; apply Hin|].
    destruct Hrest as [(e & -> & -> & -> & ->)|(k & calls & e & -> & He & Hr)].
    + (* the loop raised *)
      destruct e as [| | | | | |code].
      7:{ destruct (I4 code eq_refl) as (-> & tr' & m & ->).
          intros [= <- <-]. split_and!; [by right|done|done|].
          intros _. by exists tr', (EPrint Stderr m). }
      all: intros [= <- <-]; (split_and!; [by right|done|done|]);
        intros _; by eexists tr1, _.
    + destruct e as [e|]; destruct Hr as [-> ->].
      * (* a folder rename raised *)
        pose proof (exec_renames_err _ _ _ _ _ He) as Hexit.
        destruct e as [| | | | | |ec]; try (by destruct (Hexit ec));
          intros [= <- <-]; (split_and!; [by right|done|done|]);
          intros _; by eexists _, _.
      * intros [= <- <-]. split_and!; [by left|done| |done].
        intros _. destruct (folder_phase_events_last folders k) as [tr2 ->].
        eexists (tr1 ++ tr2), _. by rewrite <- app_assoc.
Qed.

(** X14. Without any subdirectory in the root the script prints one line,
    does nothing else and ends with status 0, whatever else the root
    holds. *)
Theorem main_no_subdirectories d tr0 :
  subdirectories d = ∅ →
  main listing (World (Dir d) tr0)
  = (0%Z, World (Dir d) (tr0 ++ [EPrint Stdout MsgNothingToDo])).
Proof using Hls.
  intros Hd. rewrite main_unfold.
  assert (folder_names listing d = []) as Hnil.
  { apply length_zero_iff_nil. rewrite (length_folder_names listing Hls), Hd.
    apply map_size_empty. }
  rewrite (process_sd_card_nothing listing d tr0); [done|]. by rewrite Hnil.
Qed.

(** X16. Every [os.rename] call of a run is issued in the root or in one of
    its subdirectories, never deeper; inside a subdirectory both names of
    the call are mp3 names; and the calls inside the subdirectories all
    come before the calls in the root. *)
Theorem main_renames_files_then_folders d tr0 s w' :
  main listing (World (Dir d) tr0) = (s, w') →
  ∃ tr1 tr2,
    trace w' = tr0 ++ tr1 ++ tr2
    ∧ (∀ b src dst, ERename b src dst ∈ tr1 →
         ∃ x c, b = [x] ∧ d !! x = Some (Dir c)
                ∧ is_mp3_name src = true ∧ is_mp3_name dst = true)
    ∧ (∀ b src dst, ERename b src dst ∈ tr2 → b = []).
Proof using Hls.
  rewrite main_outcome.
  destruct (process_outcome listing d) as [[r d'] tr] eqn:Hp.
  assert (∃ tr1 tr2, tr = tr1 ++ tr2
    ∧ (∀ b src dst, ERename b src dst ∈ tr1 →
         ∃ x c, b = [x] ∧ d !! x = Some (Dir c)
                ∧ is_mp3_name src = true ∧ is_mp3_name dst = true)
    ∧ (∀ b src dst, ERename b src dst ∈ tr2 → b = [])) as (tr1 & tr2 & -> & H1 & H2).
  { apply process_outcome_cases in Hp
      as [(e & Hs & -> & -> & ->)
         |[(Hs & -> & -> & ->)
          |(folders & Hs & Hne & [(Hlen & -> & -> & ->)|(Hlen & r1 & d1 & tr1 & Hl & Hrest)])]].
    - exists [], []. split_and!; [done|by intros ??? ?%elem_of_nil..].
    - exists [], [EPrint Stdout MsgNothingToDo].
      split_and!; [done|by intros ??? ?%elem_of_nil|].
      by intros ??? ?%list_elem_of_singleton.
    - exists [], [EPrint Stderr (MsgTooManyFolders (length folders))].
      split_and!; [done|by intros ??? ?%elem_of_nil|].
      by intros ??? ?%list_elem_of_singleton.
    - destruct (folders_are_directories d folders Hs) as [Hnd Hin].
      destruct (loop_outcome_keeps listing Hls folders d r1 d1 tr1 Hl Hnd)
        as (_ & _ & I3 & _ & _); [intros y; apply Hin|].
      assert (∀ b src dst, ERename b src dst ∈ tr1 →
         ∃ x c, b = [x] ∧ d !! x = Some (Dir c)
                ∧ is_mp3_name src = true ∧ is_mp3_name dst = true) as H1.
      { intros b src dst Hev. destruct (I3 _ _ _ Hev) as (x & Hx & -> & ? & ?).
        apply Hin in Hx as [c Hc]. by exists x, c. }
      destruct Hrest as [(e & -> & -> & -> & ->)|(k & calls & e & -> & He & Hr)].
      + exists tr1, []. split_and!; [by rewrite app_nil_r|done|].
        by intros ??? ?%elem_of_nil.
      + destruct e as [e|]; destruct Hr as [-> ->].
        * exists tr1, (rename_event [] <$> calls). split_and!; [done..|].
          by intros b src dst ([??] & [= -> _ _] & _)%list_elem_of_fmap.
        * exists tr1, (folder_phase_events folders k). split_and!; [done..|].
          intros b src dst. unfold folder_phase_events.
          rewrite elem_of_app, elem_of_cons, elem_of_app.
          intros [([??] & [= -> _ _] & _)%list_elem_of_fmap
                 |[?|[(? & ? & _)%list_elem_of_fmap|?%list_elem_of_singleton]]];
            done. }
  destruct r as [[]|e].
  - intros [= <- <-]. by exists tr1, tr2.
  - destruct e as [| | | | | |code]; intros [= <- <-].
    7:{ by exists tr1, tr2. }
    all: lazymatch goal with
         | |- context [ETraceback ?e] => exists tr1, (tr2 ++ [ETraceback e])
         end;
      (split_and!; [cbn [trace]; by rewrite <- !app_assoc|done|]);
      intros b src dst [?|?%list_elem_of_singleton]%elem_of_app; [by eapply H2|done].
Qed.

(** X17. However the run ends, the regular files of the root are what they
    were, and every directory of the root is one of the directories found
    at the start, with the same sub-directories and the same entries
    without an mp3 name. *)
Theorem main_keeps_other_entries d tr0 s w' :
  main listing (World (Dir d) tr0) = (s, w') →
  ∃ d', tree w' = Dir d'
    ∧ (∀ y n, d' !! y = Some (File n) ↔ d !! y = Some (File n))
    ∧ (∀ y' c', d' !! y' = Some (Dir c') →
         ∃ y c, d !! y = Some (Dir c)
           ∧ ∀ z v, is_dir v = true ∨ is_mp3_name z = false →
                    (c' !! z = Some v ↔ c !! z = Some v)).
Proof using Hls.
  rewrite main_outcome.
  destruct (process_outcome listing d) as [[r d'] tr] eqn:Hp.
  assert ((∀ y n, d' !! y = Some (File n) ↔ d !! y = Some (File n))
    ∧ (∀ y' c', d' !! y' = Some (Dir c') →
         ∃ y c, d !! y = Some (Dir c) ∧ same_others c c')) as Hkeep.
  { assert ((∀ y n, d !! y = Some (File n) ↔ d !! y = Some (File n))
      ∧ (∀ y' c', d !! y' = Some (Dir c') →
           ∃ y c, d !! y = Some (Dir c) ∧ same_others c c')) as Hsame.
    { split; [done|]. intros y c Hy. exists y, c. split; [done|apply same_others_refl]. }
    apply process_outcome_cases in Hp
      as [(e & Hs & -> & -> & ->)
         |[(Hs & -> & -> & ->)
          |(folders & Hs & Hne & [(Hlen & -> & -> & ->)|(Hlen & r1 & d1 & tr1 & Hl & Hrest)])]];
      [done..|].
    destruct (folders_are_directories d folders Hs) as [Hnd Hin].
    destruct (loop_outcome_keeps listing Hls folders d r1 d1 tr1 Hl Hnd)
      as (I1 & I2 & _); [intros y; apply Hin|].
    assert (∀ y c1, d1 !! y = Some (Dir c1) →
              ∃ c, d !! y = Some (Dir c) ∧ same_others c c1) as Hdirs.
    { intros y c1 Hy. destruct (decide (y ∈ folders)) as [Hyf|Hyf].
      - apply Hin in Hyf as Hc. destruct Hc as [c Hc].
        destruct (I2 y c Hyf Hc) as (c1' & Hc1 & Hsame'). exists c.
        split; [done|]. by assert (c1 = c1') as -> by congruence.
      - exists c1. rewrite <- (I1 y Hyf). split; [done|apply same_others_refl]. }
    assert (∀ y n, d1 !! y = Some (File n) ↔ d !! y = Some (File n)) as Hfiles.
    { intros y n. destruct (decide (y ∈ folders)) as [Hyf|Hyf]; [|by rewrite I1].
      apply Hin in Hyf as Hc. destruct Hc as [c Hc].
      destruct (I2 y c Hyf Hc) as (c1 & Hc1 & _). rewrite Hc, Hc1. done. }
    destruct Hrest as [(e & -> & -> & -> & ->)|(k & calls & e & -> & He & Hr)].
    { split; [done|]. intros y c1 Hy. destruct (Hdirs y c1 Hy) as (c & ? & ?).
      by exists y, c. }
    split.
    - intros y n. rewrite <- Hfiles.
      apply (rename_steps_other true folders folder_final_name d1 calls d' e);
        [|done|done].
      intros x u Hx Hu. apply Hin in Hx as [c Hc].
      destruct u as [m|c1]; [|done]. apply Hfiles in Hu. congruence.
    - intros y' c' Hy'.
      destruct (exec_renames_values _ _ _ _ _ _ _ He Hy') as [y Hy].
      destruct (Hdirs y c' Hy) as (c & ? & ?). by exists y, c. }
  destruct Hkeep as [Hf Hd].
  destruct r as [[]|e]; [|destruct e]; intros [= <- <-]; by exists d'.
Qed.
End Script.

(** ** The numbers of the last line *)

Lemma mp3_total_insert (d : gmap string node) i v :
  d !! i = None →
  mp3_total (<[i:=v]> d)
  = match v with Dir c => size (mp3_files c) | File _ => 0 end + mp3_total d.
Proof.
  intros Hi. unfold mp3_total. by rewrite (map_to_list_insert d i v Hi).
Qed.

Lemma mp3_total_folders (d : gmap string node) folders :
  NoDup folders →
  (∀ y, y ∈ folders ↔ ∃ c, d !! y = Some (Dir c)) →
  sum_list (mp3_count d <$> folders) = mp3_total d.
Proof.
  revert folders. induction d as [|i v m Hi IH] using map_ind; intros folders Hnd Hin.
  { destruct folders as [|x folders]; [done|].
    destruct (proj1 (Hin x)) as [c Hc]; [by left|]. by rewrite lookup_empty in Hc. }
  rewrite (mp3_total_insert m i v Hi).
  destruct v as [n|c].
  - rewrite <- (IH folders Hnd).
    + simpl. f_equal. apply mp3_count_ext. intros y Hy.
      apply Hin in Hy as [c Hc]. rewrite lookup_insert_ne; [done|].
      intros ->. by rewrite lookup_insert_eq in Hc.
    + intros y. rewrite Hin. split.
      * intros [c Hc]. exists c. rewrite lookup_insert_ne in Hc; [done|].
        intros ->. by rewrite lookup_insert_eq in Hc.
      * intros [c Hc]. exists c. rewrite lookup_insert_ne; [done|].
        intros ->. congruence.
  - assert (i ∈ folders) as Hif
      by (apply Hin; exists c; by rewrite lookup_insert_eq).
    apply elem_of_Permutation in Hif as [rest Hrest].
    rewrite Hrest in Hnd. apply NoDup_cons in Hnd as [Hirest Hnd].
    rewrite Hrest, fmap_cons. simpl.
    unfold mp3_count at 1. rewrite lookup_insert_eq. f_equal.
    rewrite <- (IH rest Hnd).
    + f_equal. apply mp3_count_ext. intros y Hy.
      rewrite lookup_insert_ne; [done|]. by intros ->.
    + intros y. split.
      * intros Hy. assert (y ≠ i) as Hyi by (by intros ->).
        assert (y ∈ folders) as Hyf by (rewrite Hrest; by right).
        apply Hin in Hyf as [c0 Hc0]. exists c0. by rewrite lookup_insert_ne in Hc0.
      * intros [c0 Hc0]. assert (y ≠ i) as Hyi by (intros ->; congruence).
        assert (y ∈ folders) as Hyf
          by (apply Hin; exists c0; by rewrite lookup_insert_ne).
        rewrite Hrest in Hyf. by apply elem_of_cons in Hyf as [?|?].
Qed.

Section Done.
Variable listing : gmap string node → list string.
Hypothesis Hls : listing_ok listing.
Implicit Types d c : gmap string node.

Lemma rename_calls_folder_phase folders k :
  ∃ tr, folder_phase_events folders k
        = tr ++ [EPrint Stdout (MsgDone (length folders) k)]
      ∧ rename_calls tr = 2 * length folders.
Proof.
  unfold folder_phase_events.
  exists ((rename_event [] <$> rename_steps folders folder_final_name)
          ++ [EPrint Stdout MsgFolderRenames]
          ++ (folder_line <$> mapping_of folders folder_final_name)).
  split; [by rewrite <- !app_assoc|].
  rewrite !rename_calls_app, rename_calls_renames, length_rename_steps,
    rename_calls_folder_lines.
  unfold rename_calls at 1. simpl. lia.
Qed.

(** X18. When the script ends with status 0 on a root with at least one
    subdirectory, its last line gives the number of subdirectories of the
    root and the number of mp3 files in all of them, and the run has
    issued two [os.rename] calls for each of these folders and files,
    whether their names change or not. *)
Theorem main_done_line d tr0 w' :
  main listing (World (Dir d) tr0) = (0%Z, w') →
  subdirectories d ≠ ∅ →
  ∃ tr,
    trace w' = tr0 ++ tr
                 ++ [EPrint Stdout (MsgDone (size (subdirectories d)) (mp3_total d))]
    ∧ rename_calls tr = 2 * (size (subdirectories d) + mp3_total d).
Proof using Hls.
  rewrite main_outcome.
  destruct (process_outcome listing d) as [[r d'] tr] eqn:Hp.
  intros H Hsub.
  apply process_outcome_cases in Hp
    as [(e & Hs & -> & -> & ->)
       |[(Hs & -> & -> & ->)
        |(folders & Hs & Hne & [(Hlen & -> & -> & ->)|(Hlen & r1 & d1 & tr1 & Hl & Hrest)])]].
  - pose proof (sort_natural_not_exit _ _ Hs) as Hexit.
    destruct e; try done. injection H as -> _. by destruct (Hexit 0%Z).
  - destruct Hsub. apply map_size_empty_inv.
    rewrite <- (length_folder_names listing Hls).
    by rewrite <- (sort_natural_length _ _ Hs).
  - done.
  - destruct (folders_are_directories listing Hls d folders Hs) as [Hnd Hin].
    destruct (loop_outcome_keeps listing Hls folders d r1 d1 tr1 Hl Hnd)
      as (_ & _ & _ & I4 & I5); [intros y; apply Hin|].
    assert (length folders = size (subdirectories d)) as Hn
      by (rewrite (sort_natural_length _ _ Hs); apply (length_folder_names listing Hls)).
    destruct Hrest as [(e & -> & -> & -> & ->)|(k & calls & e & -> & He & Hr)].
    + destruct e as [| | | | | |code]; try done.
      destruct (I4 code eq_refl) as (-> & _). done.
    + destruct e as [e|]; destruct Hr as [-> ->].
      * pose proof (exec_renames_err _ _ _ _ _ He) as Hexit.
        destruct e; try done. injection H as -> _. by destruct (Hexit 0%Z).
      * injection H as <-. destruct (I5 k eq_refl) as [Hk Hcalls].
        rewrite (mp3_total_folders d folders Hnd Hin) in Hk. subst k.
        destruct (rename_calls_folder_phase folders (mp3_total d)) as (tr2 & -> & H2).
        exists (tr1 ++ tr2). cbn [trace]. rewrite Hn. split.
        -- by rewrite <- !app_assoc.
        -- rewrite rename_calls_app, Hcalls, H2, Hn. lia.
Qed.
End Done.

(** ** Cards on which the run cannot fail *)

Section Clean.
Variable listing : gmap string node → list string.
Hypothesis Hls : listing_ok listing.
Implicit Types d c : gmap string node.

Lemma clean_folder_sorts c :
  clean_folder c →
  ∃ mp3s, sort_natural (mp3_names listing c) = Ok mp3s
        ∧ length mp3s ≤ MAX_FILES_PER_FOLDER.
Proof using Hls.
  intros (Hmax & Hnames & _).
  destruct (sort_natural_total (mp3_names listing c)) as [mp3s Hs].
  { apply Forall_forall. intros x Hx.
    apply (elem_of_mp3_names listing Hls) in Hx as (v & Hv & [n ->]%is_dir_false & Hm).
    by destruct (Hnames x n Hv Hm). }
  exists mp3s. split; [done|].
  by rewrite (sort_natural_length _ _ Hs), (length_mp3_names listing Hls).
Qed.

Lemma clean_folder_runs c mp3s :
  clean_folder c →
  sort_natural (mp3_names listing c) = Ok mp3s →
  ∃ c', run_renames (rename_steps mp3s file_final_name) c = Ok c'.
Proof using Hls.
  intros (Hmax & Hnames & Hdirs) Hs.
  destruct (sorted_mp3s listing Hls c mp3s Hs) as [Hnd Hin].
  destruct (two_phase_collision_free mp3s file_final_name c) as (c' & Hrun & _);
    [done| | | | | |by exists c'].
  - intros x (v & Hv & _)%Hin. by exists v.
  - intros i j _ _. apply file_final_name_inj.
  - intros x (v & Hv & [n ->]%is_dir_false & Hm)%Hin. by destruct (Hnames x n Hv Hm).
  - intros i _. apply file_final_name_no_prefix.
  - intros i x Hi Hx [v Hv]. destruct v as [n|cc].
    + apply Hin. exists (File n). split_and!; [done..|].
      destruct Hx as [-> | ->]; [apply temp_file_name_mp3|apply file_final_name_mp3].
    + rewrite (sort_natural_length _ _ Hs), (length_mp3_names listing Hls) in Hi.
      destruct (Hdirs i x cc Hi Hv). by destruct Hx.
Qed.

Lemma loop_outcome_clean folders d :
  NoDup folders →
  (∀ y, y ∈ folders → ∃ c, d !! y = Some (Dir c) ∧ clean_folder c) →
  ∃ k d' tr, loop_outcome listing folders d = (Ok k, d', tr).
Proof using Hls.
  revert d. induction folders as [|x rest IH]; intros d Hnd Hclean.
  { by exists 0, d, []. }
  apply NoDup_cons in Hnd as [Hx Hnd].
  destruct (Hclean x) as (c & Hc & Hcc); [by left|].
  destruct (clean_folder_sorts c Hcc) as (mp3s & Hs & Hlen).
  cbn [loop_outcome]. rewrite Hc, Hs.
  destruct mp3s as [|m0 mp3s].
  { destruct (IH d Hnd) as (k & d' & tr & ->); [|by eexists _, _, _].
    intros y Hy. apply Hclean. by right. }
  cbv beta iota. remember (m0 :: mp3s) as mp3l eqn:Hl.
  replace (MAX_FILES_PER_FOLDER <? length mp3l) with false
    by (symmetry; by apply Nat.ltb_ge).
  destruct (clean_folder_runs c mp3l Hcc Hs) as [c' Hrun].
  rewrite (exec_renames_run _ _ _ Hrun).
  destruct (IH (<[x:=Dir c']> d) Hnd) as (k & d' & tr & ->); [|by eexists _, _, _].
  intros y Hy. destruct (Hclean y) as (cy & Hcy & Hclean'); [by right|].
  exists cy. rewrite lookup_insert_ne; [done|]. by intros ->.
Qed.

(** X20. On a clean card (at most 99 folders and 255 mp3 files in each, names
    with keys and without the reserved prefix, no entry of the other kind
    in the way of a temporary or final name) the script ends with status 0
    and leaves the card in canonical form. *)
Theorem main_clean_card d tr0 :
  clean_card d →
  ∃ d' tr, main listing (World (Dir d) tr0) = (0%Z, World (Dir d') (tr0 ++ tr))
         ∧ canonical_root d'.
Proof using Hls.
  intros (Hmax & Hfolders & Hfiles).
  assert (∃ d' tr, process_sd_card listing (World (Dir d) tr0)
                   = (Ok tt, World (Dir d') (tr0 ++ tr))) as (d' & tr & Hrun).
  { rewrite process_sd_card_outcome. unfold process_outcome.
    destruct (sort_natural_total (folder_names listing d)) as [folders Hs].
    { apply Forall_forall. intros x Hx.
      apply (elem_of_folder_names listing Hls) in Hx
        as (v & Hv & [c ->]%is_dir_true & _).
      by destruct (Hfolders x c Hv) as (_ & ? & _). }
    rewrite Hs. destruct folders as [|f0 folders]; [by eexists _, _|].
    cbv beta iota. remember (f0 :: folders) as fl eqn:Hfl.
    destruct (folders_are_directories listing Hls d fl Hs) as [Hnd Hin].
    assert (length fl = size (subdirectories d)) as Hn
      by (rewrite (sort_natural_length _ _ Hs); apply (length_folder_names listing Hls)).
    replace (MAX_FOLDERS <? length fl) with false
      by (symmetry; apply Nat.ltb_ge; lia).
    destruct (loop_outcome_clean fl d Hnd) as (k & d1 & tr1 & Hl).
    { intros y [c Hc]%Hin. exists c. split; [done|]. by apply (Hfolders y c). }
    rewrite Hl.
    destruct (loop_outcome_keeps listing Hls fl d _ d1 tr1 Hl Hnd)
      as (I1 & I2 & _); [intros y; apply Hin|].
    destruct (two_phase_collision_free fl folder_final_name d1) as (d2 & Hrun & _).
    - done.
    - intros x Hx. apply Hin in Hx as Hc. destruct Hc as [c Hc].
      destruct (I2 x c Hx Hc) as (c' & -> & _). done.
    - intros i j _ _. apply folder_final_name_inj.
    - intros x [c Hc]%Hin. by destruct (Hfolders x c Hc).
    - intros i _. apply folder_final_name_no_prefix.
    - intros i x Hi Hx [v Hv]. destruct (decide (x ∈ fl)) as [|Hxf]; [done|].
      rewrite (I1 x Hxf) in Hv. destruct v as [n|c].
      + rewrite Hn in Hi. destruct (Hfiles i x n Hi Hv). by destruct Hx.
      + destruct Hxf. apply Hin. by exists c.
    - rewrite (exec_renames_run _ _ _ Hrun). by eexists _, _. }
  exists d', tr. split; [by rewrite main_unfold, Hrun|].
  destruct (process_sd_card_leaves_canonical listing Hls _ _ Hrun) as (d2 & [= <-] & Hcan).
  done.
Qed.
End Clean.

(** ** rename_two_phase, however it ends *)

Lemma exec_renames_raised steps (d : gmap string node) calls d' e :
  exec_renames steps d = (calls, d', Some e) →
  ∃ pre s t, calls = pre ++ [(s, t)]
           ∧ run_renames pre d = Ok d'
           ∧ rename_entry s t d' = Err e.
Proof.
  revert d calls. induction steps as [|[s t] steps IH]; intros d calls; [done|].
  simpl. destruct (rename_entry s t d) as [d1|e1] eqn:E1.
  - destruct (exec_renames steps d1) as [[calls2 d2] e2] eqn:E2.
    intros [= <- <- ->].
    destruct (IH _ _ E2) as (pre & s' & t' & -> & Hrun & Herr).
    exists ((s, t) :: pre), s', t'. split; [done|]. simpl. by rewrite E1.
  - intros [= <- <- <-]. by exists [], s, t.
Qed.

(** X10. [rename_two_phase] does nothing but [os.rename] calls in
    [base_dir], the first calls of its sequence (the items to their
    temporary names, in order, then the temporary names to the final
    names). When a call raises, the function raises that exception at once
    and undoes nothing: the directory is left as the calls before have
    made it. Whatever happens, an entry whose name is not part of the
    sequence is untouched, and what a name holds afterwards some name held
    before. *)
Theorem rename_two_phase_any items mk base w d r w' :
  resolve base (tree w) = Some (Dir d) →
  rename_two_phase items mk base w = (r, w') →
  ∃ calls d',
    w' = after_calls base w calls d'
    ∧ calls `prefix_of` rename_steps items mk
    ∧ match r with
      | Ok m =>
          m = mapping_of items mk ∧ calls = rename_steps items mk
          ∧ run_renames calls d = Ok d'
      | Err e =>
          (∀ code, e ≠ SystemExit code)
          ∧ ∃ pre src dst, calls = pre ++ [(src, dst)]
                           ∧ run_renames pre d = Ok d'
                           ∧ rename_entry src dst d' = Err e
      end
    ∧ (∀ y, y ∉ (rename_steps items mk).*1 → y ∉ (rename_steps items mk).*2 →
            d' !! y = d !! y)
    ∧ (∀ y v, d' !! y = Some v → ∃ x, d !! x = Some v).
Proof.
  intros Hres. rewrite (rename_two_phase_exec _ _ _ _ _ Hres).
  destruct (exec_renames (rename_steps items mk) d) as [[calls d'] e] eqn:E.
  intros [= <- <-]. exists calls, d'. split_and!.
  - done.
  - by eapply exec_renames_prefix.
  - destruct e as [e|].
    + split; [by eapply exec_renames_err|]. by apply exec_renames_raised in E.
    + by apply exec_renames_ok in E as [? ->].
  - intros y. by eapply exec_renames_frame.
  - intros y v. by eapply exec_renames_values.
Qed.

(** ** The final names *)

Lemma length_zeros k : String.length (zeros k) = k.
Proof. induction k as [|k IH]; simpl; [done|]. by rewrite IH. Qed.

Lemma length_zfill w n :
  String.length (zfill w n) = w `max` String.length (str_of_nat n).
Proof. unfold zfill. rewrite str_length_app, length_zeros. lia. Qed.

Lemma str_of_nat_short n :
  n < 1000 → String.length (str_of_nat n) ≤ 3
             ∧ (n < 100 → String.length (str_of_nat n) ≤ 2).
Proof.
  intros Hn.
  assert (forallb (λ n, (String.length (str_of_nat n) <=? 3)
                        && ((100 <=? n) || (String.length (str_of_nat n) <=? 2)))
            (seq 0 1000) = true) as H by (vm_compute; reflexivity).
  rewrite forallb_forall in H. specialize (H n).
  destruct (andb_prop _ _ (H ltac:(apply in_seq; lia))) as [H3%Nat.leb_le H2].
  split; [done|]. intros Hn2.
  apply orb_prop in H2 as [H2%Nat.leb_le|H2%Nat.leb_le]; [lia|done].
Qed.

Lemma py_int_zfill w n : py_int (zfill w n) = Ok (N.of_nat n).
Proof.
  unfold py_int. destruct (zfill_head w n) as (c & s & E & _).
  pose proof (zfill_decimal w n) as Hd. pose proof (digits_value_zfill w n) as Hv.
  rewrite E in *. by rewrite Hd, Hv.
Qed.

(** X11. The entry at position [i] (from 0) gets the number [i + 1]; within
    the ceilings a folder name is exactly two decimal digits and a file
    name exactly three decimal digits followed by ".mp3". *)
Theorem final_names_format i :
  py_int (folder_final_name i) = Ok (N.of_nat (i + 1))
  ∧ (∃ stem, file_final_name i = stem +:+ ".mp3"
             ∧ py_int stem = Ok (N.of_nat (i + 1))
             ∧ (i < MAX_FILES_PER_FOLDER → String.length stem = 3))
  ∧ (i < MAX_FOLDERS → String.length (folder_final_name i) = 2).
Proof.
  unfold folder_final_name, file_final_name, MAX_FOLDERS, MAX_FILES_PER_FOLDER.
  split_and!.
  - apply py_int_zfill.
  - exists (zfill 3 (i + 1)). split_and!; [done|apply py_int_zfill|].
    intros Hi. rewrite length_zfill.
    destruct (str_of_nat_short (i + 1)) as [H3 _]; lia.
  - intros Hi. rewrite length_zfill.
    destruct (str_of_nat_short (i + 1)) as [_ H2]; [lia|].
    specialize (H2 ltac:(lia)). lia.
Qed.

(** X12. Naturally sorted, the final names come in the order of their
    numbers, in whatever order the directory lists them and however many
    they are. *)
Theorem final_names_sort_in_order n l :
  (l ≡ₚ folder_final_name <$> seq 0 n →
   sort_natural l = Ok (folder_final_name <$> seq 0 n))
  ∧ (l ≡ₚ file_final_name <$> seq 0 n →
     sort_natural l = Ok (file_final_name <$> seq 0 n)).
Proof.
  split; intros Hl.
  - apply (sort_natural_canonical _ [TStr EmptyString]); [|done].
    intros i _. apply folder_final_name_key.
  - apply (sort_natural_canonical _ [TStr ".mp"; TInt 3; TStr EmptyString]); [|done].
    intros i _. apply file_final_name_key.
Qed.

(** ** Sorting what is sorted *)

Lemma insert_by_key_head x l :
  Forall (key_le x) l → insert_by_key x l = Ok (x :: l).
Proof.
  destruct l as [|y l]; [done|]. intros [Hy _]%Forall_cons. simpl.
  unfold key_le in Hy. by rewrite Hy.
Qed.

Lemma sort_keyed_sorted_id l :
  StronglySorted key_le l → sort_keyed l = Ok l.
Proof.
  induction 1 as [|x l Hs IH Hx]; [done|]. simpl. rewrite IH. simpl.
  by apply insert_by_key_head.
Qed.

Lemma sort_keyed_ok_sorted l l' :
  Forall keyed l → sort_keyed l = Ok l' → StronglySorted key_le l'.
Proof.
  intros Hk H. destruct (sort_keyed_sorted l Hk) as (l2 & H2 & Hs). congruence.
Qed.

(** X7. Sorting again a list the sort has returned gives the same list. *)
Theorem sort_natural_idempotent names sorted :
  sort_natural names = Ok sorted → sort_natural sorted = Ok sorted.
Proof.
  unfold sort_natural. intros (l & Hl & H)%rbind_ok.
  apply rmap_ok in H as (l' & H & ->).
  pose proof (keyed_of_names _ _ Hl) as Hk.
  assert (Forall keyed l') as Hk' by by rewrite (sort_keyed_perm _ _ H).
  assert (rmapM (λ x, rmap (λ k, (k, x)) (natural_sort_key x)) (map snd l') = Ok l')
    as ->.
  { clear -Hk'. induction Hk' as [|[k x] l' Hp _ IH]; [done|].
    simpl. unfold keyed in Hp. simpl in Hp. rewrite Hp. simpl. by rewrite IH. }
  simpl. by rewrite (sort_keyed_sorted_id l' (sort_keyed_ok_sorted _ _ Hk H)).
Qed.

(** ** The lines of the report *)

Lemma elem_of_mapping_of items mk old new :
  (old, new) ∈ mapping_of items mk ↔ ∃ i, items !! i = Some old ∧ new = mk i.
Proof.
  unfold mapping_of. rewrite elem_of_lookup_imap. split.
  - intros (i & x & [= -> ->] & Hi). eauto.
  - intros (i & Hi & ->). eauto.
Qed.

Lemma file_line_inv p m :
  file_line p = EPrint Stdout m →
  (m = MsgFileRenamed p.1 p.2 ∧ p.1 ≠ p.2) ∨ (m = MsgFileUnchanged p.1 ∧ p.1 = p.2).
Proof.
  unfold file_line. destruct (decide (p.1 ≠ p.2)) as [Hne|Heq].
  - intros [= <-]. by left.
  - intros [= <-]. right. split; [done|]. by apply dec_stable.
Qed.

Lemma folder_line_inv p m :
  folder_line p = EPrint Stdout m →
  (m = MsgFolderRenamed p.1 p.2 ∧ p.1 ≠ p.2)
  ∨ (m = MsgFolderUnchanged p.1 ∧ p.1 = p.2).
Proof.
  unfold folder_line. destruct (decide (p.1 ≠ p.2)) as [Hne|Heq].
  - intros [= <-]. by left.
  - intros [= <-]. right. split; [done|]. by apply dec_stable.
Qed.

Section Report.
Variable listing : gmap string node → list string.
Hypothesis Hls : listing_ok listing.
Implicit Types d c : gmap string node.

(** What the loop over the folders prints on the output stream. *)
Lemma loop_outcome_lines folders d r d' tr :
  loop_outcome listing folders d = (r, d', tr) →
  NoDup folders →
  (∀ y, y ∈ folders → ∃ c, d !! y = Some (Dir c)) →
  ∀ m, EPrint Stdout m ∈ tr →
    (∃ x, x ∈ folders ∧ (m = MsgNoMp3 x ∨ m = MsgFolderHeader x))
    ∨ ∃ x c mp3s i old,
        x ∈ folders ∧ d !! x = Some (Dir c)
        ∧ sort_natural (mp3_names listing c) = Ok mp3s
        ∧ mp3s !! i = Some old
        ∧ EPrint Stdout m = file_line (old, file_final_name i).
Proof.
  revert d r d' tr. induction folders as [|x rest IH]; intros d r d' tr.
  { simpl. intros [= <- <- <-] _ _ m Hm. by apply elem_of_nil in Hm. }
  intros H [Hx Hnd]%NoDup_cons Hdirs.
  destruct (Hdirs x) as [c Hc]; [by left|].
  assert (∀ y, y ∈ rest → ∃ c0, d !! y = Some (Dir c0)) as Hdirs'
    by (intros y Hy; apply Hdirs; by right).
  assert (∀ d0 r0 d1 tr0 m,
            loop_outcome listing rest d0 = (r0, d1, tr0) →
            (∀ y, y ∈ rest → d0 !! y = d !! y) →
            EPrint Stdout m ∈ tr0 →
            (∃ x0, x0 ∈ x :: rest ∧ (m = MsgNoMp3 x0 ∨ m = MsgFolderHeader x0))
            ∨ ∃ x0 c0 mp3s i old,
                x0 ∈ x :: rest ∧ d !! x0 = Some (Dir c0)
                ∧ sort_natural (mp3_names listing c0) = Ok mp3s
                ∧ mp3s !! i = Some old
                ∧ EPrint Stdout m = file_line (old, file_final_name i)) as Hrest.
  { intros d0 r0 d1 tr0 m E Hsame Hm.
    destruct (IH _ _ _ _ E Hnd) with (m := m)
      as [(x0 & Hx0 & Hm0)|(x0 & c0 & mp3s & i & old & Hx0 & Hc0 & Hs0 & Hi & Hl)];
      [|done| |].
    - intros y Hy. rewrite (Hsame y Hy). by apply Hdirs'.
    - left. exists x0. split; [by right|done].
    - right. exists x0, c0, mp3s, i, old. rewrite <- (Hsame x0 Hx0).
      split_and!; [by right|done..]. }
  cbn [loop_outcome] in H. rewrite Hc in H.
  destruct (sort_natural (mp3_names listing c)) as [mp3s|e] eqn:Hs.
  2:{ injection H as <- <- <-. intros m Hm. by apply elem_of_nil in Hm. }
  destruct mp3s as [|m0 mp3s].
  { destruct (loop_outcome listing rest d) as [[r0 d0] tr0] eqn:E.
    injection H as <- <- <-. intros m [[= ->]|Hm]%elem_of_cons.
    - left. exists x. split; [by left|by left].
    - by eapply Hrest. }
  cbv beta iota in H. remember (m0 :: mp3s) as mp3l eqn:Hl.
  destruct (MAX_FILES_PER_FOLDER <? length mp3l) eqn:Hfit.
  { injection H as <- <- <-. by intros m ?%list_elem_of_singleton. }
  destruct (exec_renames _ c) as [[calls c'] [e|]] eqn:E.
  { injection H as <- <- <-.
    by intros m ([??] & ? & _)%list_elem_of_fmap. }
  destruct (loop_outcome listing rest (<[x:=Dir c']> d)) as [[r0 d0] tr0] eqn:E0.
  injection H as <- <- <-. intros m Hm.
  apply elem_of_app in Hm as [Hm|Hm];
    [|apply elem_of_cons in Hm as [Hm|Hm];
      [|apply elem_of_app in Hm as [Hm|Hm]]].
  - by apply list_elem_of_fmap in Hm as ([??] & ? & _).
  - injection Hm as ->. left. exists x. split; [by left|by right].
  - apply list_elem_of_fmap in Hm as ([old new] & Hline & Hin).
    apply elem_of_mapping_of in Hin as (i & Hi & ->).
    right. exists x, c, mp3l, i, old. split_and!; [by left|done..].
  - eapply Hrest; [done| |done]. intros y Hy.
    rewrite lookup_insert_ne; [done|]. by intros ->.
Qed.

Lemma collect_mp3s_of_sort d tr0 x c mp3s :
  d !! x = Some (Dir c) →
  sort_natural (mp3_names listing c) = Ok mp3s →
  collect_mp3s listing [x] (World (Dir d) tr0) = (Ok mp3s, World (Dir d) tr0).
Proof.
  intros Hc Hs. rewrite (collect_mp3s_spec listing [x] _ c); [by rewrite Hs|].
  by apply (resolve_child x d c).
Qed.

(** X19. When the script ends with status 0 the report is true: a line
    "old/ -> new/" is printed exactly for the folders found whose final
    name differs from their name, a line "old/ (unchanged)" exactly for
    the others; and a line about a file names an mp3 file found in one of
    the folders, with the final name of its position, "(unchanged)" when
    that is its name already. *)
Theorem main_report_lines d tr0 w' folders :
  main listing (World (Dir d) tr0) = (0%Z, w') →
  collect_folders listing [] (World (Dir d) tr0) = (Ok folders, World (Dir d) tr0) →
  ∃ tr,
    trace w' = tr0 ++ tr
    ∧ (∀ old new, EPrint Stdout (MsgFolderRenamed old new) ∈ tr ↔
         ∃ i, folders !! i = Some old ∧ new = folder_final_name i ∧ old ≠ new)
    ∧ (∀ old, EPrint Stdout (MsgFolderUnchanged old) ∈ tr ↔
         ∃ i, folders !! i = Some old ∧ old = folder_final_name i)
    ∧ (∀ m, EPrint Stdout m ∈ tr →
         (∀ old new, m = MsgFileRenamed old new →
            old ≠ new
            ∧ ∃ x c mp3s i,
                d !! x = Some (Dir c)
                ∧ collect_mp3s listing [x] (World (Dir d) tr0)
                  = (Ok mp3s, World (Dir d) tr0)
                ∧ mp3s !! i = Some old ∧ new = file_final_name i)
         ∧ (∀ old, m = MsgFileUnchanged old →
              ∃ x c mp3s i,
                d !! x = Some (Dir c)
                ∧ collect_mp3s listing [x] (World (Dir d) tr0)
                  = (Ok mp3s, World (Dir d) tr0)
                ∧ mp3s !! i = Some old ∧ old = file_final_name i)).
Proof using Hls.
  rewrite main_outcome, (collect_folders_spec listing [] _ d) by done.
  destruct (process_outcome listing d) as [[r d'] tr] eqn:Hp.
  intros H [= Hsort].
  apply process_outcome_cases in Hp
    as [(e & Hs & -> & -> & ->)
       |[(Hs & -> & -> & ->)
        |(fl & Hs & Hne & [(Hlen & -> & -> & ->)|(Hlen & r1 & d1 & tr1 & Hl & Hrest)])]].
  - congruence.
  - injection H as <-. rewrite Hs in Hsort. injection Hsort as <-.
    exists [EPrint Stdout MsgNothingToDo]. split_and!; [done|..].
    + intros old new. rewrite list_elem_of_singleton. split; [done|].
      by intros (i & ? & _).
    + intros old. rewrite list_elem_of_singleton. split; [done|].
      by intros (i & ? & _).
    + intros m [= ->]%list_elem_of_singleton. done.
  - done.
  - rewrite Hs in Hsort. injection Hsort as ->.
    destruct (folders_are_directories listing Hls d folders Hs) as [Hnd Hin].
    destruct (loop_outcome_keeps listing Hls folders d r1 d1 tr1 Hl Hnd)
      as (_ & _ & _ & I4 & _); [intros y; apply Hin|].
    pose proof (loop_outcome_lines folders d r1 d1 tr1 Hl Hnd) as Hlines.
    destruct Hrest as [(e & -> & -> & -> & ->)|(k & calls & e & -> & He & Hr)].
    { destruct e as [| | | | | |code]; try done.
      destruct (I4 code eq_refl) as (-> & _). done. }
    destruct e as [e|]; destruct Hr as [-> ->].
    { pose proof (exec_renames_err _ _ _ _ _ He) as Hexit.
      destruct e; try done. injection H as -> _. by destruct (Hexit 0%Z). }
    injection H as <-. exists (tr1 ++ folder_phase_events folders k).
    split; [done|].
    assert (∀ m, EPrint Stdout m ∈ folder_phase_events folders k ↔
              m = MsgFolderRenames ∨ m = MsgDone (length folders) k
              ∨ EPrint Stdout m ∈ folder_line <$> mapping_of folders folder_final_name)
      as Hphase.
    { intros m. unfold folder_phase_events.
      rewrite elem_of_app, elem_of_cons, elem_of_app, list_elem_of_singleton.
      split.
      - intros [Hm|[[= ->]|[Hm|[= ->]]]];
          [by apply list_elem_of_fmap in Hm as ([??] & ? & _)|auto..].
      - intros [->|[->|?]]; auto. }
    assert (∀ m, EPrint Stdout m ∈ tr1 →
              (∀ old new, m ≠ MsgFolderRenamed old new)
              ∧ (∀ old, m ≠ MsgFolderUnchanged old)) as Hloop.
    { intros m Hm.
      destruct (Hlines ltac:(intros y; apply Hin) m Hm)
        as [(x & _ & [->| ->])|(x & c & mp3s & i & old & _ & _ & _ & _ & Hline)];
        [done..|].
      symmetry in Hline. apply file_line_inv in Hline as [[-> _]|[-> _]]; done. }
    split_and!.
    + intros old new. rewrite elem_of_app, Hphase. split.
      * intros [Hm|[?|[?|Hm]]]; [by destruct (Hloop _ Hm) as [Hno _]; destruct (Hno old new)|done..|].
        apply list_elem_of_fmap in Hm as ([o n] & Hline & Hm).
        apply elem_of_mapping_of in Hm as (i & Hi & ->).
        symmetry in Hline. apply folder_line_inv in Hline as [[[= -> ->] Hdiff]|[? _]];
          [|done]. by exists i.
      * intros (i & Hi & -> & Hdiff). right. right. right.
        apply list_elem_of_fmap. exists (old, folder_final_name i).
        split; [|apply elem_of_mapping_of; eauto].
        unfold folder_line. simpl. by rewrite decide_True.
    + intros old. rewrite elem_of_app, Hphase. split.
      * intros [Hm|[?|[?|Hm]]]; [by destruct (Hloop _ Hm) as [_ Hno]; destruct (Hno old)|done..|].
        apply list_elem_of_fmap in Hm as ([o n] & Hline & Hm).
        apply elem_of_mapping_of in Hm as (i & Hi & ->).
        symmetry in Hline. apply folder_line_inv in Hline as [[? _]|[[= ->] Heq]];
          [done|]. by exists i.
      * intros (i & Hi & Heq). right. right. right.
        apply list_elem_of_fmap. exists (old, folder_final_name i).
        split; [|apply elem_of_mapping_of; eauto].
        unfold folder_line. simpl. rewrite decide_False; [done|]. by intros [].
    + intros m [Hm|Hm]%elem_of_app.
      * destruct (Hlines ltac:(intros y; apply Hin) m Hm)
          as [(x & _ & [->| ->])|(x & c & mp3s & i & old & _ & Hc & Hs' & Hi & Hline)];
          [done..|].
        symmetry in Hline. apply file_line_inv in Hline as [[-> Hdiff]|[-> Heq]];
          simpl in *.
        -- split; [|done]. intros o n [= <- <-]. split; [done|].
           exists x, c, mp3s, i. split_and!; [done| |done..].
           by apply (collect_mp3s_of_sort d tr0 x c).
        -- split; [done|]. intros o [= <-].
           exists x, c, mp3s, i. split_and!; [done| |done..].
           by apply (collect_mp3s_of_sort d tr0 x c).
      * apply Hphase in Hm as [->|[->|Hm]]; [done..|].
        apply list_elem_of_fmap in Hm as ([o n] & Hline & _).
        symmetry in Hline. apply folder_line_inv in Hline as [[-> _]|[-> _]]; done.
Qed.
End Report.

(** ** The properties on the sample cards *)

Lemma sort_natural_raises_iff_witness :
  ValueError = ValueError
  ∧ ∃ x, x ∈ ["a"; "x2" +:+ String "178"%char EmptyString]
         ∧ natural_sort_key x = Err ValueError.
Proof.
  apply (proj2 (sort_natural_raises_iff
                  ["a"; "x2" +:+ String "178"%char EmptyString]) ValueError).
  vm_compute. reflexivity.
Defined.

Lemma sort_natural_idempotent_witness :
  sort_natural ["A2"; "a10"; "b"] = Ok ["A2"; "a10"; "b"].
Proof.
  apply (sort_natural_idempotent ["a10"; "b"; "A2"]). vm_compute. reflexivity.
Defined.

Lemma final_names_format_witness :
  py_int (folder_final_name 98) = Ok (N.of_nat (98 + 1))
  ∧ (∃ stem, file_final_name 98 = stem +:+ ".mp3"
             ∧ py_int stem = Ok (N.of_nat (98 + 1))
             ∧ (98 < MAX_FILES_PER_FOLDER → String.length stem = 3))
  ∧ (98 < MAX_FOLDERS → String.length (folder_final_name 98) = 2).
Proof. apply (final_names_format 98). Defined.

Lemma final_names_sort_in_order_witness :
  sort_natural ["002.mp3"; "001.mp3"] = Ok (file_final_name <$> seq 0 2).
Proof.
  apply (proj2 (final_names_sort_in_order 2 ["002.mp3"; "001.mp3"])).
  apply Permutation_swap.
Defined.

Lemma rename_two_phase_any_witness :
  ∃ calls d',
    (rename_two_phase clash_items file_final_name [] (World (Dir clash_dir) [])).2
    = after_calls [] (World (Dir clash_dir) []) calls d'
    ∧ calls `prefix_of` rename_steps clash_items file_final_name
    ∧ ((∀ code, FileNotFoundError ≠ SystemExit code)
       ∧ ∃ pre src dst, calls = pre ++ [(src, dst)]
                        ∧ run_renames pre clash_dir = Ok d'
                        ∧ rename_entry src dst d' = Err FileNotFoundError)
    ∧ (∀ y, y ∉ (rename_steps clash_items file_final_name).*1 →
            y ∉ (rename_steps clash_items file_final_name).*2 →
            d' !! y = clash_dir !! y)
    ∧ (∀ y v, d' !! y = Some v → ∃ x, clash_dir !! x = Some v).
Proof.
  apply (rename_two_phase_any clash_items file_final_name []
           (World (Dir clash_dir) []) clash_dir (Err FileNotFoundError)).
  - reflexivity.
  - vm_compute. reflexivity.
Defined.

Lemma main_exit_status_witness :
  (0%Z = 0%Z ∨ 0%Z = 1%Z)
  ∧ (0%Z = 0%Z ↔ (process_sd_card listing_sample (World (Dir sample_card) [])).1 = Ok tt)
  ∧ (0%Z = 0%Z →
     ∃ tr m, trace (main listing_sample (World (Dir sample_card) [])).2
             = trace (World (Dir sample_card) []) ++ tr ++ [EPrint Stdout m])
  ∧ (0%Z = 1%Z →
     ∃ tr ev, trace (main listing_sample (World (Dir sample_card) [])).2
              = trace (World (Dir sample_card) []) ++ tr ++ [ev]
              ∧ on_stderr ev = true).
Proof.
  apply (main_exit_status listing_sample listing_sample_ok
           (World (Dir sample_card) [])).
  vm_compute. reflexivity.
Defined.

Lemma main_no_subdirectories_witness :
  main listing_sample (World (Dir loose_card) [])
  = (0%Z, World (Dir loose_card) ([] ++ [EPrint Stdout MsgNothingToDo])).
Proof.
  apply (main_no_subdirectories listing_sample listing_sample_ok loose_card []).
  vm_compute. reflexivity.
Defined.

Lemma main_renames_files_then_folders_witness :
  ∃ tr1 tr2,
    trace (main listing_sample (World (Dir sample_card) [])).2 = [] ++ tr1 ++ tr2
    ∧ (∀ b src dst, ERename b src dst ∈ tr1 →
         ∃ x c, b = [x] ∧ sample_card !! x = Some (Dir c)
                ∧ is_mp3_name src = true ∧ is_mp3_name dst = true)
    ∧ (∀ b src dst, ERename b src dst ∈ tr2 → b = []).
Proof.
  apply (main_renames_files_then_folders listing_sample listing_sample_ok
           sample_card [] 0%Z).
  vm_compute. reflexivity.
Defined.

Lemma main_keeps_other_entries_witness :
  ∃ d', tree (main listing_sample (World (Dir sample_card) [])).2 = Dir d'
    ∧ (∀ y n, d' !! y = Some (File n) ↔ sample_card !! y = Some (File n))
    ∧ (∀ y' c', d' !! y' = Some (Dir c') →
         ∃ y c, sample_card !! y = Some (Dir c)
           ∧ ∀ z v, is_dir v = true ∨ is_mp3_name z = false →
                    (c' !! z = Some v ↔ c !! z = Some v)).
Proof.
  apply (main_keeps_other_entries listing_sample listing_sample_ok
           sample_card [] 0%Z).
  vm_compute. reflexivity.
Defined.

Lemma sample_card_has_folders : subdirectories sample_card ≠ ∅.
Proof.
  intros H. apply (f_equal (λ m, m !! "A side")) in H. vm_compute in H. discriminate H.
Qed.

Lemma main_done_line_witness :
  ∃ tr,
    trace (main listing_sample (World (Dir sample_card) [])).2
    = [] ++ tr
        ++ [EPrint Stdout (MsgDone (size (subdirectories sample_card))
                             (mp3_total sample_card))]
    ∧ rename_calls tr
      = 2 * (size (subdirectories sample_card) + mp3_total sample_card).
Proof.
  apply (main_done_line listing_sample listing_sample_ok sample_card []).
  - vm_compute. reflexivity.
  - apply sample_card_has_folders.
Defined.

Lemma main_report_lines_witness :
  ∃ tr,
    trace (main listing_sample (World (Dir sample_card) [])).2 = [] ++ tr
    ∧ (∀ old new, EPrint Stdout (MsgFolderRenamed old new) ∈ tr ↔
         ∃ i, ["A side"; "B side"] !! i = Some old
              ∧ new = folder_final_name i ∧ old ≠ new)
    ∧ (∀ old, EPrint Stdout (MsgFolderUnchanged old) ∈ tr ↔
         ∃ i, ["A side"; "B side"] !! i = Some old ∧ old = folder_final_name i)
    ∧ (∀ m, EPrint Stdout m ∈ tr →
         (∀ old new, m = MsgFileRenamed old new →
            old ≠ new
            ∧ ∃ x c mp3s i,
                sample_card !! x = Some (Dir c)
                ∧ collect_mp3s listing_sample [x] (World (Dir sample_card) [])
                  = (Ok mp3s, World (Dir sample_card) [])
                ∧ mp3s !! i = Some old ∧ new = file_final_name i)
         ∧ (∀ old, m = MsgFileUnchanged old →
              ∃ x c mp3s i,
                sample_card !! x = Some (Dir c)
                ∧ collect_mp3s listing_sample [x] (World (Dir sample_card) [])
                  = (Ok mp3s, World (Dir sample_card) [])
                ∧ mp3s !! i = Some old ∧ old = file_final_name i)).
Proof.
  apply (main_report_lines listing_sample listing_sample_ok sample_card []).
  - vm_compute. reflexivity.
  - vm_compute. reflexivity.
Defined.

Lemma album_clean : clean_folder album.
Proof.
  split_and!.
  - vm_compute. lia.
  - intros y n Hy%elem_of_list_to_map_2 _.
    repeat (apply elem_of_cons in Hy as [[= -> ->]|Hy]);
      [..|by apply elem_of_nil in Hy];
      (split; [by vm_compute | eexists; vm_compute; reflexivity]).
  - intros j y cc _ Hy%elem_of_list_to_map_2.
    repeat (apply elem_of_cons in Hy as [Hy|Hy]; [done|]).
    by apply elem_of_nil in Hy.
Qed.

Lemma empty_folder_clean : clean_folder ∅.
Proof.
  split_and!.
  - vm_compute. lia.
  - intros y n Hy. by rewrite lookup_empty in Hy.
  - intros j y cc _ Hy. by rewrite lookup_empty in Hy.
Qed.

Lemma sample_card_clean : clean_card sample_card.
Proof.
  split_and!.
  - vm_compute. lia.
  - intros x c Hx%elem_of_list_to_map_2.
    repeat (apply elem_of_cons in Hx as [Hx|Hx]);
      [..|by apply elem_of_nil in Hx]; try done; injection Hx as -> ->.
    + split_and!; [by vm_compute|eexists; vm_compute; reflexivity|apply album_clean].
    + split_and!; [by vm_compute|eexists; vm_compute; reflexivity|
                   apply empty_folder_clean].
  - intros i y n Hi Hy%elem_of_list_to_map_2.
    repeat (apply elem_of_cons in Hy as [Hy|Hy]);
      [..|by apply elem_of_nil in Hy]; try done; injection Hy as -> ->.
    change (size (subdirectories sample_card)) with 2 in Hi.
    destruct i as [|[|i]]; [by vm_compute..|lia].
Qed.

Lemma main_clean_card_witness :
  ∃ d' tr, main listing_sample (World (Dir sample_card) [])
           = (0%Z, World (Dir d') ([] ++ tr))
         ∧ canonical_root d'.
Proof.
  apply (main_clean_card listing_sample listing_sample_ok sample_card []).
  apply sample_card_clean.
Defined.

(** ** The error messages *)

Section Errors.
Variable listing : gmap string node → list string.
Hypothesis Hls : listing_ok listing.
Implicit Types d c : gmap string node.
Implicit Types w : world.

(** What the loop over the folders prints on the error stream. *)
Lemma loop_outcome_stderr folders d r d' tr :
  loop_outcome listing folders d = (r, d', tr) →
  NoDup folders →
  (∀ y, y ∈ folders → ∃ c, d !! y = Some (Dir c)) →
  ∀ m, EPrint Stderr m ∈ tr →
    ∃ x c, x ∈ folders ∧ d !! x = Some (Dir c)
           ∧ m = MsgTooManyFiles x (size (mp3_files c))
           ∧ MAX_FILES_PER_FOLDER < size (mp3_files c).
Proof using Hls.
  revert d r d' tr. induction folders as [|x rest IH]; intros d r d' tr.
  { simpl. intros [= <- <- <-] _ _ m Hm. by apply elem_of_nil in Hm. }
  intros H [Hx Hnd]%NoDup_cons Hdirs.
  destruct (Hdirs x) as [c Hc]; [by left|].
  assert (∀ y, y ∈ rest → ∃ c0, d !! y = Some (Dir c0)) as Hdirs'
    by (intros y Hy; apply Hdirs; by right).
  assert (∀ d0 r0 d1 tr0 m,
            loop_outcome listing rest d0 = (r0, d1, tr0) →
            (∀ y, y ∈ rest → d0 !! y = d !! y) →
            EPrint Stderr m ∈ tr0 →
            ∃ x0 c0, x0 ∈ x :: rest ∧ d !! x0 = Some (Dir c0)
                     ∧ m = MsgTooManyFiles x0 (size (mp3_files c0))
                     ∧ MAX_FILES_PER_FOLDER < size (mp3_files c0)) as Hrest.
  { intros d0 r0 d1 tr0 m E Hsame Hm.
    destruct (IH _ _ _ _ E Hnd) with (m := m) as (x0 & c0 & Hx0 & Hc0 & Hm0 & Hbig);
      [|done|].
    - intros y Hy. rewrite (Hsame y Hy). by apply Hdirs'.
    - exists x0, c0. rewrite <- (Hsame x0 Hx0). split_and!; [by right|done..]. }
  cbn [loop_outcome] in H. rewrite Hc in H.
  destruct (sort_natural (mp3_names listing c)) as [mp3s|e] eqn:Hs.
  2:{ injection H as <- <- <-. intros m Hm. by apply elem_of_nil in Hm. }
  assert (length mp3s = size (mp3_files c)) as Hlen
    by (by rewrite (sort_natural_length _ _ Hs), (length_mp3_names listing Hls)).
  destruct mp3s as [|m0 mp3s].
  { destruct (loop_outcome listing rest d) as [[r0 d0] tr0] eqn:E.
    injection H as <- <- <-. intros m [?|Hm]%elem_of_cons; [done|].
    by eapply Hrest. }
  cbv beta iota in H. remember (m0 :: mp3s) as mp3l eqn:Hl.
  destruct (MAX_FILES_PER_FOLDER <? length mp3l) eqn:Hfit.
  { injection H as <- <- <-. intros m [= ->]%list_elem_of_singleton.
    apply Nat.ltb_lt in Hfit. exists x, c. rewrite <- Hlen.
    split_and!; [by left|done..]. }
  destruct (exec_renames _ c) as [[calls c'] [e|]] eqn:E.
  { injection H as <- <- <-.
    by intros m ([??] & ? & _)%list_elem_of_fmap. }
  destruct (loop_outcome listing rest (<[x:=Dir c']> d)) as [[r0 d0] tr0] eqn:E0.
  injection H as <- <- <-. intros m Hm.
  apply elem_of_app in Hm as [Hm|Hm];
    [|apply elem_of_cons in Hm as [Hm|Hm];
      [|apply elem_of_app in Hm as [Hm|Hm]]].
  - by apply list_elem_of_fmap in Hm as ([??] & ? & _).
  - done.
  - apply list_elem_of_fmap in Hm as ([old new] & Hline & _).
    unfold file_line in Hline. by destruct (decide _).
  - eapply Hrest; [done| |done]. intros y Hy.
    rewrite lookup_insert_ne; [done|]. by intros ->.
Qed.

(** X13. Every message on the error stream is true. "Not a valid directory"
    is printed exactly when the path is not a directory, and then nothing
    else happens and the status is 1; the message about the folders gives
    the number of subdirectories of the root, which is above 99; a
    message about the files of a folder gives the number of mp3 files of
    that folder, which is above 255: 99 folders, or 255 files in a
    folder, draw no message. *)
Theorem main_error_messages w s w' :
  main listing w = (s, w') →
  ∃ tr,
    trace w' = trace w ++ tr
    ∧ (is_dir (tree w) = false →
       s = 1%Z ∧ tree w' = tree w ∧ tr = [EPrint Stderr MsgNotADirectory])
    ∧ ∀ m, EPrint Stderr m ∈ tr →
        (m = MsgNotADirectory ∧ is_dir (tree w) = false)
        ∨ (∃ d, tree w = Dir d
                ∧ m = MsgTooManyFolders (size (subdirectories d))
                ∧ MAX_FOLDERS < size (subdirectories d))
        ∨ (∃ d x c, tree w = Dir d ∧ d !! x = Some (Dir c)
                    ∧ m = MsgTooManyFiles x (size (mp3_files c))
                    ∧ MAX_FILES_PER_FOLDER < size (mp3_files c)).
Proof using Hls.
  destruct w as [[n|d] tr0].
  { intros [= <- <-]. exists [EPrint Stderr MsgNotADirectory].
    split_and!; [done|done|]. intros m [= ->]%list_elem_of_singleton. by left. }
  rewrite main_outcome.
  destruct (process_outcome listing d) as [[r d'] tr] eqn:Hp.
  cbn [tree trace is_dir].
  assert (∀ m, EPrint Stderr m ∈ tr →
            (∃ d0, Dir d = Dir d0
                   ∧ m = MsgTooManyFolders (size (subdirectories d0))
                   ∧ MAX_FOLDERS < size (subdirectories d0))
            ∨ (∃ d0 x c, Dir d = Dir d0 ∧ d0 !! x = Some (Dir c)
                         ∧ m = MsgTooManyFiles x (size (mp3_files c))
                         ∧ MAX_FILES_PER_FOLDER < size (mp3_files c))) as Herr.
  { apply process_outcome_cases in Hp
      as [(e & Hs & -> & -> & ->)
         |[(Hs & -> & -> & ->)
          |(folders & Hs & Hne & [(Hlen & -> & -> & ->)|(Hlen & r1 & d1 & tr1 & Hl & Hrest)])]].
    - by intros m ?%elem_of_nil.
    - by intros m ?%list_elem_of_singleton.
    - intros m [= ->]%list_elem_of_singleton. left. exists d.
      assert (length folders = size (subdirectories d)) as <-
        by (rewrite (sort_natural_length _ _ Hs);
            apply (length_folder_names listing Hls)).
      done.
    - destruct (folders_are_directories listing Hls d folders Hs) as [Hnd Hin].
      pose proof (loop_outcome_stderr folders d r1 d1 tr1 Hl Hnd
                    ltac:(intros y; apply Hin)) as Hloop.
      assert (∀ m, EPrint Stderr m ∈ tr1 →
                ∃ d0 x c, Dir d = Dir d0 ∧ d0 !! x = Some (Dir c)
                          ∧ m = MsgTooManyFiles x (size (mp3_files c))
                          ∧ MAX_FILES_PER_FOLDER < size (mp3_files c)) as Hloop'.
      { intros m Hm. destruct (Hloop m Hm) as (x & c & _ & ? & ? & ?).
        by exists d, x, c. }
      destruct Hrest as [(e & -> & -> & -> & ->)|(k & calls & e & -> & He & Hr)].
      { intros m Hm. right. by apply Hloop'. }
      destruct e as [e|]; destruct Hr as [-> ->].
      + intros m [Hm|Hm]%elem_of_app; [right; by apply Hloop'|].
        by apply list_elem_of_fmap in Hm as ([??] & ? & _).
      + intros m [Hm|Hm]%elem_of_app; [right; by apply Hloop'|].
        unfold folder_phase_events in Hm.
        apply elem_of_app in Hm as [Hm|Hm];
          [|apply elem_of_cons in Hm as [Hm|Hm];
            [|apply elem_of_app in Hm as [Hm|Hm]]].
        * by apply list_elem_of_fmap in Hm as ([??] & ? & _).
        * done.
        * apply list_elem_of_fmap in Hm as ([old new] & Hline & _).
          unfold folder_line in Hline. by destruct (decide _).
        * by apply list_elem_of_singleton in Hm. }
  destruct r as [[]|e].
  - intros [= <- <-]. exists tr. split_and!; [done|done|].
    intros m Hm. right. by apply Herr.
  - destruct e as [| | | | | |ec]; intros [= <- <-].
    7:{ exists tr. split_and!; [done|done|]. intros m Hm. right. by apply Herr. }
    all: lazymatch goal with
         | |- context [ETraceback ?e] => exists (tr ++ [ETraceback e])
         end;
      (split_and!; [done|done|]);
      intros m [Hm|Hm%list_elem_of_singleton]%elem_of_app; [|done];
      right; by apply Herr.
Qed.
End Errors.

Lemma main_error_messages_witness :
  ∃ tr,
    trace (main listing_sample (World (Dir crowded_root) [])).2
    = trace (World (Dir crowded_root) []) ++ tr
    ∧ (is_dir (tree (World (Dir crowded_root) [])) = false →
       1%Z = 1%Z
       ∧ tree (main listing_sample (World (Dir crowded_root) [])).2
         = tree (World (Dir crowded_root) [])
       ∧ tr = [EPrint Stderr MsgNotADirectory])
    ∧ ∀ m, EPrint Stderr m ∈ tr →
        (m = MsgNotADirectory ∧ is_dir (tree (World (Dir crowded_root) [])) = false)
        ∨ (∃ d, tree (World (Dir crowded_root) []) = Dir d
                ∧ m = MsgTooManyFolders (size (subdirectories d))
                ∧ MAX_FOLDERS < size (subdirectories d))
        ∨ (∃ d x c, tree (World (Dir crowded_root) []) = Dir d
                    ∧ d !! x = Some (Dir c)
                    ∧ m = MsgTooManyFiles x (size (mp3_files c))
                    ∧ MAX_FILES_PER_FOLDER < size (mp3_files c)).
Proof.
  apply (main_error_messages listing_sample listing_sample_ok
           (World (Dir crowded_root) []) 1%Z).
  vm_compute. reflexivity.
Defined.

(** * The natural order of names *)

(** ** Letters *)





(** ** Pieces of text *)








(** * The card after a run that returns *)

Section Canonical.
Variable listing : gmap string node → list string.
Hypothesis Hls : listing_ok listing.
Implicit Types d c : gmap string node.

(** The folders found: each directory of the root once, no name before a
    name that precedes it. *)
Lemma collect_folders_sorted d tr0 folders :
  collect_folders listing [] (World (Dir d) tr0) = (Ok folders, World (Dir d) tr0) →
  NoDup folders
  ∧ (∀ x, x ∈ folders ↔ ∃ c, d !! x = Some (Dir c))
  ∧ ∀ i j x y, i < j → folders !! i = Some x → folders !! j = Some y →
               ¬ precedes y x.
Proof using Hls.
  rewrite (collect_folders_spec listing [] _ d) by done. intros [= Hs].
  destruct (folders_are_directories listing Hls d folders Hs) as [Hnd Hin].
  split_and!; [done..|]. by eapply sort_natural_ordered.
Qed.

(** The mp3 files found in a folder: each regular file with an mp3 name
    once, no name before a name that precedes it. *)
Lemma collect_mp3s_sorted d tr0 x c mp3s :
  d !! x = Some (Dir c) →
  collect_mp3s listing [x] (World (Dir d) tr0) = (Ok mp3s, World (Dir d) tr0) →
  NoDup mp3s
  ∧ (∀ y, y ∈ mp3s ↔ ∃ n, c !! y = Some (File n) ∧ is_mp3_name y = true)
  ∧ ∀ i j y z, i < j → mp3s !! i = Some y → mp3s !! j = Some z →
               ¬ precedes z y.
Proof using Hls.
  intros Hc. rewrite (collect_mp3s_spec listing [x] _ c) by (simpl; by rewrite Hc).
  intros [= Hs].
  destruct (sorted_mp3s listing Hls c mp3s Hs) as [Hnd Hin].
  split_and!; [done| |by eapply sort_natural_ordered].
  intros y. rewrite Hin. split.
  - intros (v & Hv & [n ->]%is_dir_false & Hm). eauto.
  - intros (n & Hn & Hm). exists (File n). by split_and!.
Qed.

(** C1. When [process_sd_card] returns on a root directory, the folders
    found, [folders], are the directories of the root, each once, in the
    natural order: no folder stands before one whose key is smaller.
    They are at most 99, and afterwards the directories of the root are
    exactly 01 .. NN, without duplicates, the folder found at place i
    under the name of i + 1; the entries of the root that are not folders
    are as they were. In each folder the mp3 files found, [mp3s], are its
    regular files with an mp3 name, each once, in the natural order.
    They are at most 255, and afterwards the regular files of the folder
    with an mp3 name are exactly 001.mp3 .. MMM.mp3, without duplicates,
    the file found at place j under the name of j + 1; the other entries
    of the folder are as they were. *)
Theorem process_sd_card_canonical d tr0 w' :
  process_sd_card listing (World (Dir d) tr0) = (Ok tt, w') →
  ∃ folders d',
    collect_folders listing [] (World (Dir d) tr0) = (Ok folders, World (Dir d) tr0)
    ∧ NoDup folders
    ∧ (∀ x, x ∈ folders ↔ ∃ c, d !! x = Some (Dir c))
    ∧ (∀ i j x y, i < j → folders !! i = Some x → folders !! j = Some y →
                  ¬ precedes y x)
    ∧ length folders ≤ MAX_FOLDERS
    ∧ tree w' = Dir d'
    ∧ NoDup (folder_final_name <$> seq 0 (length folders))
    ∧ (∀ x, (∃ c, d' !! x = Some (Dir c))
            ↔ ∃ i, i < length folders ∧ x = folder_final_name i)
    ∧ (∀ y, (∀ i, i < length folders → y ≠ folder_final_name i) →
            d' !! y = if decide (y ∈ folders) then None else d !! y)
    ∧ ∀ i x, folders !! i = Some x →
        ∃ c mp3s c',
          d !! x = Some (Dir c)
          ∧ collect_mp3s listing [x] (World (Dir d) tr0)
            = (Ok mp3s, World (Dir d) tr0)
          ∧ NoDup mp3s
          ∧ (∀ y, y ∈ mp3s ↔ ∃ n, c !! y = Some (File n) ∧ is_mp3_name y = true)
          ∧ (∀ j k y z, j < k → mp3s !! j = Some y → mp3s !! k = Some z →
                        ¬ precedes z y)
          ∧ length mp3s ≤ MAX_FILES_PER_FOLDER
          ∧ d' !! folder_final_name i = Some (Dir c')
          ∧ NoDup (file_final_name <$> seq 0 (length mp3s))
          ∧ (∀ y, (∃ n, c' !! y = Some (File n) ∧ is_mp3_name y = true)
                  ↔ ∃ j, j < length mp3s ∧ y = file_final_name j)
          ∧ (∀ j y, mp3s !! j = Some y → c' !! file_final_name j = c !! y)
          ∧ (∀ y, (∀ j, j < length mp3s → y ≠ file_final_name j) →
                  c' !! y = if decide (y ∈ mp3s) then None else c !! y).
Proof using Hls.
  intros (folders & d' & Hcf & Hlen & Hd' & Hnd & Hdirs & Hrest & Hfold)
    %(process_sd_card_result listing Hls).
  destruct (collect_folders_sorted d tr0 folders Hcf) as (Hndf & Hin & Hord).
  exists folders, d'. split_and!; [done..|].
  intros i x Hi.
  destruct (Hfold i x Hi)
    as (c & mp3s & c' & Hc & Hcm & Hlm & Hc' & Hndm & Hfiles & Hmove & Hother).
  destruct (collect_mp3s_sorted d tr0 x c mp3s Hc Hcm) as (Hndm' & Hinm & Hordm).
  exists c, mp3s, c'. by split_and!.
Qed.
End Canonical.

Lemma process_sd_card_canonical_witness :
  ∃ folders d',
    collect_folders listing_sample [] (World (Dir sample_card) [])
    = (Ok folders, World (Dir sample_card) [])
    ∧ NoDup folders
    ∧ (∀ x, x ∈ folders ↔ ∃ c, sample_card !! x = Some (Dir c))
    ∧ (∀ i j x y, i < j → folders !! i = Some x → folders !! j = Some y →
                  ¬ precedes y x)
    ∧ length folders ≤ MAX_FOLDERS
    ∧ tree (process_sd_card listing_sample (World (Dir sample_card) [])).2 = Dir d'
    ∧ NoDup (folder_final_name <$> seq 0 (length folders))
    ∧ (∀ x, (∃ c, d' !! x = Some (Dir c))
            ↔ ∃ i, i < length folders ∧ x = folder_final_name i)
    ∧ (∀ y, (∀ i, i < length folders → y ≠ folder_final_name i) →
            d' !! y = if decide (y ∈ folders) then None else sample_card !! y)
    ∧ ∀ i x, folders !! i = Some x →
        ∃ c mp3s c',
          sample_card !! x = Some (Dir c)
          ∧ collect_mp3s listing_sample [x] (World (Dir sample_card) [])
            = (Ok mp3s, World (Dir sample_card) [])
          ∧ NoDup mp3s
          ∧ (∀ y, y ∈ mp3s ↔ ∃ n, c !! y = Some (File n) ∧ is_mp3_name y = true)
          ∧ (∀ j k y z, j < k → mp3s !! j = Some y → mp3s !! k = Some z →
                        ¬ precedes z y)
          ∧ length mp3s ≤ MAX_FILES_PER_FOLDER
          ∧ d' !! folder_final_name i = Some (Dir c')
          ∧ NoDup (file_final_name <$> seq 0 (length mp3s))
          ∧ (∀ y, (∃ n, c' !! y = Some (File n) ∧ is_mp3_name y = true)
                  ↔ ∃ j, j < length mp3s ∧ y = file_final_name j)
          ∧ (∀ j y, mp3s !! j = Some y → c' !! file_final_name j = c !! y)
          ∧ (∀ y, (∀ j, j < length mp3s → y ≠ file_final_name j) →
                  c' !! y = if decide (y ∈ mp3s) then None else c !! y).
Proof.
  apply (process_sd_card_canonical listing_sample listing_sample_ok sample_card []).
  vm_compute. reflexivity.
Defined.

(** * A folder with too many files *)

Section Ceiling.
Variable listing : gmap string node → list string.
Hypothesis Hls : listing_ok listing.
Implicit Types d c : gmap string node.
Implicit Types w : world.

(** The loop at a folder with too many mp3 files whose names have keys:
    the message of the ceiling, with the name of the folder and the number
    of files found, and the exit. *)
Lemma rename_files_in_ceiling x post n w d c :
  tree w = Dir d → d !! x = Some (Dir c) →
  MAX_FILES_PER_FOLDER < size (mp3_files c) →
  (∀ y m, c !! y = Some (File m) → is_mp3_name y = true →
          ∃ k, natural_sort_key y = Ok k) →
  rename_files_in listing [] (x :: post) n w
  = (Err (SystemExit 1),
     World (tree w)
       (trace w ++ [EPrint Stderr (MsgTooManyFiles x (size (mp3_files c)))])).
Proof using Hls.
  intros Hw Hx Hbig Hkeys.
  assert (resolve (os_path_join [] x) (tree w) = Some (Dir c)) as Hres
    by (rewrite Hw; by apply resolve_child).
  destruct (sort_natural_total (mp3_names listing c)) as [mp3s Hs].
  { apply Forall_forall. intros y Hy.
    apply (elem_of_mp3_names listing Hls) in Hy as (v & Hv & [m ->]%is_dir_false & Hm).
    by apply (Hkeys y m). }
  assert (length mp3s = size (mp3_files c)) as Hlen
    by by rewrite (sort_natural_length _ _ Hs), (length_mp3_names listing Hls).
  cbn [rename_files_in]. rewrite mbind_unfold, (collect_mp3s_spec listing _ _ c Hres), Hs.
  destruct mp3s as [|m0 mp3s]; [simpl in Hlen; lia|]. cbv beta iota.
  rewrite <- Hlen in Hbig. apply Nat.ltb_lt in Hbig as ->.
  by rewrite mbind_unfold, print_spec, Hlen.
Qed.

(** The loop over folders that are clean: it runs to its end, and each
    folder then holds its mp3 files, in the order found, under the names
    001.mp3 .. MMM.mp3. *)
Lemma rename_files_in_clean pre d tr0 :
  NoDup pre →
  (∀ y, y ∈ pre → ∃ cy, d !! y = Some (Dir cy) ∧ clean_folder cy) →
  ∃ n d1 tr1,
    rename_files_in listing [] pre 0 (World (Dir d) tr0)
    = (Ok n, World (Dir d1) (tr0 ++ tr1))
    ∧ (∀ y, y ∉ pre → d1 !! y = d !! y)
    ∧ ∀ y cy, y ∈ pre → d !! y = Some (Dir cy) →
        ∃ mp3s cy',
          collect_mp3s listing [y] (World (Dir d) tr0) = (Ok mp3s, World (Dir d) tr0)
          ∧ d1 !! y = Some (Dir cy')
          ∧ (∀ j z, mp3s !! j = Some z → cy' !! file_final_name j = cy !! z)
          ∧ (∀ z, (∃ m, cy' !! z = Some (File m) ∧ is_mp3_name z = true)
                  ↔ ∃ j, j < length mp3s ∧ z = file_final_name j).
Proof using Hls.
  intros Hnd Hclean.
  destruct (loop_outcome_clean listing Hls pre d Hnd Hclean) as (k & d1 & tr1 & Hl).
  pose proof (rename_files_in_outcome listing pre 0 (World (Dir d) tr0) d eq_refl)
    as Hrun.
  rewrite Hl in Hrun. cbn [rmap rbind trace] in Hrun.
  exists (0 + k), d1, tr1. split; [exact Hrun|].
  destruct (rename_files_in_ok listing pre 0 (World (Dir d) tr0) d _ _ eq_refl Hrun)
    as (d1' & tr1' & k' & Hfr & _ & [= <- _]).
  split.
  - intros y Hy. by apply (files_renamed_frame listing _ _ _ _ _ _ Hfr).
  - intros y cy Hy Hcy.
    destruct (files_renamed_folder listing _ _ _ _ _ y Hfr Hnd Hy)
      as (c0 & mp3s & cy' & Hc0 & Hs & _ & Hrn & Hd1 & _).
    assert (c0 = cy) as -> by congruence.
    destruct (folder_files_result listing Hls _ _ _ Hs Hrn) as (Hmove & _ & _ & Hfiles).
    exists mp3s, cy'. split_and!; [|done..|].
    + rewrite (collect_mp3s_spec listing _ _ cy); [by rewrite Hs|].
      simpl. by rewrite Hcy.
    + intros z. rewrite <- Hfiles. split.
      * intros (m & Hm & Hz). eauto.
      * intros (v & Hv & [m ->]%is_dir_false & Hz). eauto.
Qed.

(** C6. With more than 255 mp3 files in some folder [x] of the root the
    script ends with status 1 and a report on the error stream as its last
    event; until then no rename was issued inside [x] nor in the root, and
    [x] is as it was. When the run reaches [x], that is when the folders
    were found, are at most 99, and those found before [x] are clean, and
    the names of the mp3 files of [x] have keys, the report is the message
    of the ceiling, with the name of [x] and the number of its mp3 files;
    the folders found after [x] are as they were; and each folder found
    before [x] holds its mp3 files, in the order found, under the names
    001.mp3 .. MMM.mp3. *)
Theorem too_many_files d tr0 x c :
  d !! x = Some (Dir c) →
  MAX_FILES_PER_FOLDER < size (mp3_files c) →
  ∃ d' tr ev,
    main listing (World (Dir d) tr0) = (1%Z, World (Dir d') (tr0 ++ tr ++ [ev]))
    ∧ on_stderr ev = true
    ∧ d' !! x = Some (Dir c)
    ∧ (∀ b s t, ERename b s t ∈ tr → b ≠ [x] ∧ b ≠ [])
    ∧ (∀ folders pre post n wk,
         collect_folders listing [] (World (Dir d) tr0)
         = (Ok folders, World (Dir d) tr0) →
         length folders ≤ MAX_FOLDERS →
         folders = pre ++ x :: post →
         rename_files_in listing [] pre 0 (World (Dir d) tr0) = (Ok n, wk) →
         wk = World (Dir d') (tr0 ++ tr))
    ∧ (∀ folders pre post,
         collect_folders listing [] (World (Dir d) tr0)
         = (Ok folders, World (Dir d) tr0) →
         length folders ≤ MAX_FOLDERS →
         folders = pre ++ x :: post →
         (∀ y cy, y ∈ pre → d !! y = Some (Dir cy) → clean_folder cy) →
         (∀ y m, c !! y = Some (File m) → is_mp3_name y = true →
                 ∃ k, natural_sort_key y = Ok k) →
         ev = EPrint Stderr (MsgTooManyFiles x (size (mp3_files c)))
         ∧ (∀ y, y ∈ post → d' !! y = d !! y)
         ∧ ∀ y cy, y ∈ pre → d !! y = Some (Dir cy) →
             ∃ mp3s cy',
               collect_mp3s listing [y] (World (Dir d) tr0)
               = (Ok mp3s, World (Dir d) tr0)
               ∧ d' !! y = Some (Dir cy')
               ∧ (∀ j z, mp3s !! j = Some z → cy' !! file_final_name j = cy !! z)
               ∧ (∀ z, (∃ m, cy' !! z = Some (File m) ∧ is_mp3_name z = true)
                       ↔ ∃ j, j < length mp3s ∧ z = file_final_name j)).
Proof using Hls.
  intros Hx Hbig.
  destruct (too_many_files_stop listing Hls d tr0 x c Hx Hbig)
    as (d' & tr & ev & Hmain & Hev & Hd' & Hren & Hpre).
  exists d', tr, ev. split_and!; [done..|].
  intros folders pre post Hcf Hlen Hsplit Hclean Hkeys.
  assert (sort_natural (folder_names listing d) = Ok folders) as Hs.
  { rewrite (collect_folders_spec listing [] _ d) in Hcf by done. by injection Hcf. }
  destruct (folders_are_directories listing Hls d folders Hs) as [Hnd Hin].
  subst folders. apply NoDup_app in Hnd as (Hndpre & Hxpre & Hndpost).
  destruct (rename_files_in_clean pre d tr0 Hndpre)
    as (n & d1 & tr1 & Hrun & Hframe & Hcontent).
  { intros y Hy. destruct (proj1 (Hin y)) as [cy Hcy]; [apply elem_of_app; by left|].
    exists cy. split; [done|]. by apply (Hclean y). }
  pose proof (Hpre _ pre post n _ Hcf Hlen eq_refl Hrun) as [= <- Htr%app_inv_head].
  subst tr1. split_and!.
  - assert (rename_files_in listing [] (pre ++ x :: post) 0 (World (Dir d) tr0)
            = (Err (SystemExit 1),
               World (Dir d1)
                 ((tr0 ++ tr)
                  ++ [EPrint Stderr (MsgTooManyFiles x (size (mp3_files c)))])))
      as Hloop.
    { rewrite rename_files_in_app, Hrun.
      by rewrite (rename_files_in_ceiling x post n _ d1 c). }
    assert (pre ++ x :: post ≠ []) as Hne by by destruct pre.
    rewrite main_unfold, (process_sd_card_loop listing _ _ _ Hs Hne Hlen _ _ Hloop)
      in Hmain.
    injection Hmain as Htr. rewrite !app_assoc in Htr.
    by apply app_inj_tail in Htr as [_ <-].
  - intros y Hy. apply Hframe. intros Hyp. apply (Hxpre y Hyp). by right.
  - exact Hcontent.
Qed.
End Ceiling.

Lemma str_forall_impl (p q : ascii → bool) s :
  (∀ c, p c = true → q c = true) →
  str_forall p s = true → str_forall q s = true.
Proof.
  intros Hpq. induction s as [|c s IH]; simpl; [done|].
  intros [Hc Hs]%andb_prop. by rewrite (Hpq c Hc), (IH Hs).
Qed.

Lemma crowded_folder_keys y m :
  crowded_folder !! y = Some (File m) → is_mp3_name y = true →
  ∃ k, natural_sort_key y = Ok k.
Proof.
  intros Hy%elem_of_list_to_map_2 _.
  assert (Forall (λ p : string * node, ∃ k, natural_sort_key p.1 = Ok k)
            ((λ i, (str_of_nat i +:+ ".mp3", File (N.of_nat i))) <$> seq 0 256))
    as Hall.
  { apply Forall_fmap, Forall_forall. intros i Hi. simpl.
    apply natural_sort_key_defined.
    rewrite str_forall_app. apply andb_true_iff. split; [|reflexivity].
    pose proof (str_of_nat_decimal i) as Hd.
    eapply (str_forall_impl is_decimal); [|exact Hd].
    intros ch. unfold is_decimal, is_superscript.
    intros [H1%N.leb_le H2%N.leb_le]%andb_prop.
    rewrite negb_true_iff, !orb_false_iff. split_and!; apply N.eqb_neq; lia. }
  rewrite Forall_forall in Hall. apply (Hall _ Hy).
Qed.

Lemma too_many_files_witness :
  ∃ d' tr cy',
    main listing_sample (World (Dir crowded_card) [])
    = (1%Z, World (Dir d') ([] ++ tr ++ [EPrint Stderr (MsgTooManyFiles "B" 256)]))
    ∧ d' !! "B" = Some (Dir crowded_folder)
    ∧ (∀ b s t, ERename b s t ∈ tr → b ≠ ["B"] ∧ b ≠ [])
    ∧ d' !! "A" = Some (Dir cy')
    ∧ cy' !! "001.mp3" = Some (File 1)
    ∧ cy' !! "002.mp3" = Some (File 2)
    ∧ cy' !! "003.mp3" = Some (File 4).
Proof.
  destruct (too_many_files listing_sample listing_sample_ok crowded_card []
              "B" crowded_folder eq_refl ltac:(vm_compute; lia))
    as (d' & tr & ev & Hmain & _ & HB & Hren & _ & Hreached).
  destruct (Hreached ["A"; "B"] ["A"] []) as (-> & _ & Hbefore).
  - vm_compute. reflexivity.
  - vm_compute. lia.
  - reflexivity.
  - intros y cy ->%list_elem_of_singleton [= <-]. apply album_clean.
  - apply crowded_folder_keys.
  - destruct (Hbefore "A" album) as (mp3s & cy' & Hcm & HA & Hmove & _).
    + by apply list_elem_of_singleton.
    + reflexivity.
    + vm_compute in Hcm. injection Hcm as <-.
      exists d', tr, cy'. split_and!; [|done..| | |].
      * replace 256 with (size (mp3_files crowded_folder)) by (vm_compute; reflexivity).
        exact Hmain.
      * apply (Hmove 0 "Track 1.mp3" eq_refl).
      * apply (Hmove 1 "track 2.mp3" eq_refl).
      * apply (Hmove 2 "Track 10.MP3" eq_refl).
Defined.
